(** * SID (Storage Instantiation Daemon): key-value store policies, delta
      engine, scan phase gating and request handling of [ubridge.c]

    A shallow embedding of the parts of [src/resource/ubridge.c] that carry
    the ownership policy of the key-value store, the delta engine over
    vector values, the merge of a worker's export into the main store, the
    capability check of the scan phases, the handling of a request with an
    unsupported protocol and the import of the udev environment.

    Conventions.
    - Unsigned C integers are [Z]; flag words are tested with [Z.land].
    - A C string is a [string] holding its bytes without the terminating
      NUL.  An item of a vector value is such a string: every item the code
      puts into a vector is [(s, strlen(s) + 1)].
    - A pointer that may be NULL is an [option].
    - [-errno] return codes are negative [Z] constants. *)

From Stdlib Require Import ZArith String Ascii List Lia Bool.
From stdpp Require Import gmap strings list fin_maps sorting pretty.

Open Scope Z_scope.

Set Warnings "-clear-no-such-hyp".

(** ** errno values used by the code (<errno.h>, Linux) *)

Definition EPERM : Z := 1.
Definition EACCES : Z := 13.
Definition EBUSY : Z := 16.
Definition EINVAL : Z := 22.
Definition EREMOTEIO : Z := 121.

(** ** Record flags: [sid_ucmd_kv_flags_t] (include/resource/ucmd-module.h) *)

Definition KV_FLAGS_UNSET : Z := 0.
Definition KV_PERSISTENT : Z := 1.
Definition KV_MOD_PROTECTED : Z := 2.
Definition KV_MOD_PRIVATE : Z := 4.
Definition KV_MOD_RESERVED : Z := 8.

(** Modelled from the spec: the [KV_SYNC] bit ("SYNC (must cross the
    worker->parent boundary)") is used by [ubridge.c] but its enumerator is
    not in the header under [src/]; it is taken as the next free bit. *)
Definition KV_SYNC : Z := 16.

Definition DEFAULT_VALUE_FLAGS_CORE : Z :=
  Z.lor (Z.lor (Z.lor KV_SYNC KV_PERSISTENT) KV_MOD_RESERVED) KV_MOD_PRIVATE.

Definition value_flags_no_sync : Z :=
  Z.land DEFAULT_VALUE_FLAGS_CORE (Z.lnot KV_SYNC).
Definition value_flags_sync : Z := DEFAULT_VALUE_FLAGS_CORE.

Definition MOD_NAME_CORE : string := "#core".
Definition OWNER_CORE : string := MOD_NAME_CORE.
Definition core_owner : string := OWNER_CORE.

(** [f & bit] used as a C truth value. *)
Definition flag_test (f bit : Z) : bool := negb (Z.land f bit =? 0).

Definition KV_INDEX_NOOP : Z := 0.
Definition KV_INDEX_ADD : Z := 1.
Definition KV_INDEX_REMOVE : Z := 2.

(** ** [strcmp] on C strings: the sign of the first differing byte *)

Definition strcmp (a b : string) : Z :=
  match String.compare a b with
  | Lt => -1
  | Eq => 0
  | Gt => 1
  end.

(** ** Values

    A vector value is an array of [struct iovec]: four header slots
    ([VVALUE_IDX_GENNUM], [_SEQNUM], [_FLAGS], [_OWNER]) followed by the
    data items, which start at [VVALUE_IDX_DATA = 4]. *)

Record vheader : Type := mk_vheader {
  vh_gennum : Z;
  vh_seqnum : Z;
  vh_flags : Z;
  vh_owner : string
}.

Record vvalue : Type := mk_vvalue {
  vv_header : vheader;
  vv_data : list string
}.

Definition VVALUE_IDX_DATA : nat := 4.
Definition VVALUE_HEADER_CNT : nat := VVALUE_IDX_DATA.
Definition VVALUE_SINGLE_CNT : nat := (VVALUE_IDX_DATA + 1)%nat.

Definition VVALUE_GENNUM (v : vvalue) : Z := vh_gennum (vv_header v).
Definition VVALUE_SEQNUM (v : vvalue) : Z := vh_seqnum (vv_header v).
Definition VVALUE_FLAGS (v : vvalue) : Z := vh_flags (vv_header v).
Definition VVALUE_OWNER (v : vvalue) : string := vh_owner (vv_header v).

(** Number of iovec slots of a vector value. *)
Definition vsize (v : vvalue) : nat := (VVALUE_HEADER_CNT + length (vv_data v))%nat.

(** A stored record is either a scalar ([struct kv_value]: gennum, seqnum,
    flags, then [data] = owner string followed by the payload bytes) or a
    vector ([KV_STORE_VALUE_VECTOR]). *)
Inductive kv_record : Type :=
| KV_SCALAR (h : vheader) (payload : string)
| KV_VECTOR (v : vvalue).

(** [_get_vvalue]: the vector view of a record.  A vector is returned as it
    is; a scalar becomes the header and one data slot holding the payload. *)
Definition _get_vvalue (r : kv_record) : vvalue :=
  match r with
  | KV_VECTOR v => v
  | KV_SCALAR h payload => mk_vvalue h [payload]
  end.

Definition record_header (r : kv_record) : vheader := vv_header (_get_vvalue r).

(** ** Key specifications and key composition *)

Inductive kv_op_t : Type := KV_OP_ILLEGAL | KV_OP_SET | KV_OP_PLUS | KV_OP_MINUS.

Inductive sid_ucmd_kv_namespace_t : Type :=
| KV_NS_UNDEFINED | KV_NS_UDEV | KV_NS_GLOBAL | KV_NS_MODULE | KV_NS_DEVICE.

Record kv_key_spec : Type := mk_key_spec {
  ks_op : kv_op_t;
  ks_dom : string;
  ks_ns : sid_ucmd_kv_namespace_t;
  ks_ns_part : string;
  ks_id : string;
  ks_id_part : string;
  ks_core : string
}.

(** Modelled from the spec: [KV_STORE_KEY_JOIN] is declared in the key-value
    store's header, which is not under [src/]; the key grammar of the spec
    joins the seven fields with [":"]. *)
Definition KV_STORE_KEY_JOIN : string := ":".

Definition op_to_key_prefix_map (op : kv_op_t) : string :=
  match op with
  | KV_OP_ILLEGAL => "X"
  | KV_OP_SET => ""
  | KV_OP_PLUS => "+"
  | KV_OP_MINUS => "-"
  end.

Definition ns_to_key_prefix_map (ns : sid_ucmd_kv_namespace_t) : string :=
  match ns with
  | KV_NS_UNDEFINED => ""
  | KV_NS_UDEV => "U"
  | KV_NS_DEVICE => "D"
  | KV_NS_MODULE => "M"
  | KV_NS_GLOBAL => "G"
  end.

(** [_do_compose_key]: ["%s" "%s:" "%s:" "%s:" "%s:" "%s:" "%s" "%s" "%s"]
    with the extra-op slot [" "] and [":" core] only for a full key. *)
Definition _do_compose_key (key_spec : kv_key_spec) (prefix_only : bool) : string :=
  (if prefix_only then "" else " ")
  +:+ op_to_key_prefix_map (ks_op key_spec) +:+ KV_STORE_KEY_JOIN
  +:+ ks_dom key_spec +:+ KV_STORE_KEY_JOIN
  +:+ ns_to_key_prefix_map (ks_ns key_spec) +:+ KV_STORE_KEY_JOIN
  +:+ ks_ns_part key_spec +:+ KV_STORE_KEY_JOIN
  +:+ ks_id key_spec +:+ KV_STORE_KEY_JOIN
  +:+ ks_id_part key_spec
  +:+ (if prefix_only then "" else KV_STORE_KEY_JOIN)
  +:+ (if prefix_only then "" else ks_core key_spec).

Definition _compose_key (key_spec : kv_key_spec) : string :=
  _do_compose_key key_spec false.

Definition _compose_key_prefix (key_spec : kv_key_spec) : string :=
  _do_compose_key key_spec true.

Definition set_ks_op (k : kv_key_spec) (op : kv_op_t) : kv_key_spec :=
  mk_key_spec op (ks_dom k) (ks_ns k) (ks_ns_part k) (ks_id k) (ks_id_part k) (ks_core k).

Definition set_ks_ns_part (k : kv_key_spec) (p : string) : kv_key_spec :=
  mk_key_spec (ks_op k) (ks_dom k) (ks_ns k) p (ks_id k) (ks_id_part k) (ks_core k).

(** ** Parsing a key: [_get_key_part] and its users *)

(** [strstr(s, ":")]: the suffix of [s] that starts at its first [":"]. *)
Fixpoint strstr_join (s : string) : option string :=
  match s with
  | EmptyString => None
  | String c s' => if Ascii.eqb c ":" then Some s else strstr_join s'
  end.

(** The number of bytes before the first [":"] ([end - start]). *)
Fixpoint join_offset (s : string) : option nat :=
  match s with
  | EmptyString => None
  | String c s' => if Ascii.eqb c ":" then Some O else option_map S (join_offset s')
  end.

Definition string_tail (s : string) : string :=
  match s with
  | EmptyString => EmptyString
  | String _ s' => s'
  end.

Definition KEY_PART_OP : nat := 0.
Definition KEY_PART_DOM : nat := 1.
Definition KEY_PART_NS : nat := 2.
Definition KEY_PART_NS_PART : nat := 3.
Definition KEY_PART_ID : nat := 4.
Definition KEY_PART_ID_PART : nat := 5.
Definition KEY_PART_CORE : nat := 6.
Definition __KEY_PART_COUNT : nat := 7.

(** The [for] loop of [_get_key_part]: advance past [req_part] joins. *)
Fixpoint key_part_start (req_part : nat) (start : string) : option string :=
  match req_part with
  | O => Some start
  | S n =>
      match strstr_join start with
      | None => None
      | Some s => key_part_start n (string_tail s)
      end
  end.

(** [_get_key_part] with a non-NULL [len]: the start of the part and its
    length, or [None] for the NULL return. *)
Definition _get_key_part (key : string) (req_part : nat) : option (string * nat) :=
  match key_part_start req_part key with
  | None => None
  | Some start =>
      if Nat.eqb req_part (__KEY_PART_COUNT - 1) then Some (start, String.length start)
      else
        match join_offset start with
        | None => None
        | Some len => Some (start, len)
        end
  end.

Definition _get_op_from_key (key : string) : kv_op_t :=
  match _get_key_part key KEY_PART_OP with
  | None => KV_OP_ILLEGAL
  | Some (str, len) =>
      if Nat.ltb 1 len then KV_OP_ILLEGAL
      else if Nat.eqb len 0 then KV_OP_SET
      else
        match str with
        | String c _ =>
            if Ascii.eqb c "+" then KV_OP_PLUS
            else if Ascii.eqb c "-" then KV_OP_MINUS
            else KV_OP_ILLEGAL
        | EmptyString => KV_OP_ILLEGAL
        end
  end.

(** [_copy_ns_part_from_key]: ["%.*s"] of the namespace part. *)
Definition _copy_ns_part_from_key (key : string) : option string :=
  match _get_key_part key KEY_PART_NS_PART with
  | None => None
  | Some (str, len) => Some (String.substring 0 len str)
  end.

(** ** The update argument, deltas and the relation specification *)

Definition DELTA_NO_FLAGS : Z := 0.
Definition DELTA_WITH_DIFF : Z := 1.
Definition DELTA_WITH_REL : Z := 2.

(** [struct kv_delta]; a buffer pointer is [None] when it is NULL.  A delta
    buffer always starts with the four header slots, so it has the shape of
    a vector value and [vsize] is its [sid_buffer_count]. *)
Record kv_delta : Type := mk_delta {
  d_op : kv_op_t;
  d_flags : Z;
  d_plus : option vvalue;
  d_minus : option vvalue;
  d_final : option vvalue
}.

Definition delta_zero : kv_delta := mk_delta KV_OP_ILLEGAL 0 None None None.

Record kv_rel_spec : Type := mk_rel_spec {
  rs_delta : kv_delta;
  rs_abs_delta : kv_delta;
  rs_cur_key_spec : kv_key_spec;
  rs_rel_key_spec : kv_key_spec
}.

Definition key_spec_null : kv_key_spec :=
  mk_key_spec KV_OP_ILLEGAL "" KV_NS_UNDEFINED "" "" "" "".

(** The all-zero relation specification.  It stands for [.custom = NULL] too:
    the callbacks used with a NULL [custom] never read it. *)
Definition rel_spec_null : kv_rel_spec :=
  mk_rel_spec delta_zero delta_zero key_spec_null key_spec_null.

(** [struct kv_update_arg] without the store handle and the scratch buffer:
    the store is passed explicitly. *)
Record kv_update_arg : Type := mk_update_arg {
  ua_owner : string;
  ua_custom : kv_rel_spec;
  ua_ret_code : Z
}.

Definition set_ret_code (a : kv_update_arg) (rc : Z) : kv_update_arg :=
  mk_update_arg (ua_owner a) (ua_custom a) rc.

Definition set_custom (a : kv_update_arg) (c : kv_rel_spec) : kv_update_arg :=
  mk_update_arg (ua_owner a) c (ua_ret_code a).

(** ** The key-value store *)

(** [struct kv_store_update_spec] as the callbacks use it. *)
Record kv_store_update_spec : Type := mk_update_spec {
  us_key : string;
  us_old_data : option kv_record;
  us_new_data : kv_record;
  us_arg : kv_update_arg
}.

Definition spec_set_ret_code (spec : kv_store_update_spec) (rc : Z) : kv_store_update_spec :=
  mk_update_spec (us_key spec) (us_old_data spec) (us_new_data spec)
                 (set_ret_code (us_arg spec) rc).

Definition kv_update_cb : Type := kv_store_update_spec -> Z * kv_store_update_spec.

(** The records and the aliases that form the sync index. *)
Record kv_store : Type := mk_store {
  kv_main : gmap string kv_record;
  kv_alias : gmap string string
}.

Definition kv_store_empty : kv_store := mk_store ∅ ∅.

Definition kv_store_get_value (s : kv_store) (key : string) : option kv_record :=
  kv_main s !! key.

(** Modelled from the spec: [kv_store_set_value] is in [kv-store.c], which is
    not under [src/].  "[set] is a compare-and-update: it invokes the caller's
    [update_cb] with [(old_record, new_record)]; the callback returns 1 to
    commit, 0 to abort."  On commit the record the callback left in the
    update spec is stored and returned; on abort the store is unchanged and
    the result is NULL.  The update argument is returned as the callback
    left it. *)
Definition kv_store_set_value (s : kv_store) (key : string) (new : kv_record)
    (cb : kv_update_cb) (arg : kv_update_arg)
  : option kv_record * kv_update_arg * kv_store :=
  let '(r, spec) := cb (mk_update_spec key (kv_main s !! key) new arg) in
  if r =? 0 then (None, us_arg spec, s)
  else (Some (us_new_data spec), us_arg spec,
        mk_store (<[key := us_new_data spec]> (kv_main s)) (kv_alias s)).

(** Modelled from the spec: [kv_store_unset] is in [kv-store.c], which is not
    under [src/].  The callback is invoked with the stored record (NULL when
    there is none) and no new record; when it commits the key is removed.
    The result is [0] on removal and negative when the callback refused. *)
Definition kv_store_unset (s : kv_store) (key : string)
    (cb : option kv_record -> kv_update_arg -> Z * kv_update_arg) (arg : kv_update_arg)
  : Z * kv_update_arg * kv_store :=
  let '(r, arg') := cb (kv_main s !! key) arg in
  if r =? 0 then (-1, arg', s)
  else (0, arg', mk_store (delete key (kv_main s)) (kv_alias s)).

(** Modelled from the spec: [kv_store_add_alias] and the removal of an alias
    are in [kv-store.c], which is not under [src/].  "When a record
    transitions into or out of SYNC, the store adds or removes an alias key
    (>-prefixed)." *)
Definition kv_store_add_alias (s : kv_store) (key alias : string) : kv_store :=
  mk_store (kv_main s) (<[alias := key]> (kv_alias s)).

Definition kv_store_unset_alias (s : kv_store) (alias : string) : kv_store :=
  mk_store (kv_main s) (delete alias (kv_alias s)).

(** ** The sync index *)

Definition _check_kv_index_needed (vvalue_old vvalue_new : option vvalue) : Z :=
  let old_indexed :=
    match vvalue_old with Some v => flag_test (VVALUE_FLAGS v) KV_SYNC | None => false end in
  let new_indexed :=
    match vvalue_new with Some v => flag_test (VVALUE_FLAGS v) KV_SYNC | None => false end in
  if old_indexed && negb new_indexed then KV_INDEX_REMOVE
  else if negb old_indexed && new_indexed then KV_INDEX_ADD
  else KV_INDEX_NOOP.

(** [_manage_kv_index]: the first byte of [key] is replaced by [">"] to form
    the alias; [key + 1] is the aliased key. *)
Definition _manage_kv_index (update_arg : kv_update_arg) (key : string) (s : kv_store) : kv_store :=
  let alias := String ">" (string_tail key) in
  if ua_ret_code update_arg =? KV_INDEX_ADD then kv_store_add_alias s (string_tail key) alias
  else if ua_ret_code update_arg =? KV_INDEX_REMOVE then kv_store_unset_alias s alias
  else s.

(** ** Ownership policy: [_kv_cb_overwrite] *)

Definition _flags_indicate_mod_owned (flags : Z) : Z :=
  Z.land flags (Z.lor (Z.lor KV_MOD_PROTECTED KV_MOD_PRIVATE) KV_MOD_RESERVED).

Definition _kv_cb_overwrite (spec : kv_store_update_spec) : Z * kv_store_update_spec :=
  let vvalue_old := option_map _get_vvalue (us_old_data spec) in
  let vvalue_new := _get_vvalue (us_new_data spec) in
  let keep_old (errno : Z) := (0, spec_set_ret_code spec (- errno)) in
  let commit :=
    (1, spec_set_ret_code spec (_check_kv_index_needed vvalue_old (Some vvalue_new))) in
  match vvalue_old with
  | Some old =>
      if flag_test (VVALUE_FLAGS old) KV_MOD_PRIVATE then
        if negb (strcmp (VVALUE_OWNER old) (VVALUE_OWNER vvalue_new) =? 0)
        then keep_old EACCES else commit
      else if flag_test (VVALUE_FLAGS old) KV_MOD_PROTECTED then
        if negb (strcmp (VVALUE_OWNER old) (VVALUE_OWNER vvalue_new) =? 0)
        then keep_old EPERM else commit
      else if flag_test (VVALUE_FLAGS old) KV_MOD_RESERVED then
        if negb (strcmp (VVALUE_OWNER old) (VVALUE_OWNER vvalue_new) =? 0)
        then keep_old EBUSY else commit
      else commit
  | None => commit
  end.

(** ** Delta engine: the local delta ([_delta_step_calc]) *)

Definition set_delta_bufs (d : kv_delta) (plus minus final : option vvalue) : kv_delta :=
  mk_delta (d_op d) (d_flags d) plus minus final.

Definition _destroy_delta_buffers (d : kv_delta) : kv_delta :=
  set_delta_bufs d None None None.

(** A buffer that holds the header only ([sid_buffer_count < VVALUE_SINGLE_CNT])
    is destroyed. *)
Definition destroy_if_unused (b : option vvalue) : option vvalue :=
  match b with
  | Some v => if Nat.ltb (vsize v) VVALUE_SINGLE_CNT then None else Some v
  | None => None
  end.

Definition _destroy_unused_delta_buffers (d : kv_delta) : kv_delta :=
  set_delta_bufs d (destroy_if_unused (d_plus d)) (destroy_if_unused (d_minus d)) (d_final d).

(** [_init_delta_buffer]: for size 0 the buffer pointer is left as it is, a
    size below the header count is [-EINVAL], otherwise a buffer is created
    and the header is added to it. *)
Definition _init_delta_buffer (vheader : vheader) (delta_buf : option vvalue) (size : nat)
  : Z * option vvalue :=
  if Nat.eqb size 0 then (0, delta_buf)
  else if Nat.ltb size VVALUE_HEADER_CNT then (- EINVAL, delta_buf)
  else (0, Some (mk_vvalue vheader [])).

Definition _init_delta_buffers (d : kv_delta) (vheader : vheader)
    (minus_size plus_size final_size : nat) : Z * kv_delta :=
  let '(r1, plus) := _init_delta_buffer vheader (d_plus d) plus_size in
  if r1 <? 0 then (-1, _destroy_delta_buffers d)
  else
    let '(r2, minus) := _init_delta_buffer vheader (d_minus d) minus_size in
    if r2 <? 0 then (-1, _destroy_delta_buffers d)
    else
      let '(r3, final) := _init_delta_buffer vheader (d_final d) final_size in
      if r3 <? 0 then (-1, _destroy_delta_buffers d)
      else (0, set_delta_bufs d plus minus final).

(** Modelled from the spec: [sid_buffer_add] is in [base/buffer.c], which is
    not under [src/].  It appends one slot to a vector buffer and fails only
    when memory cannot be allocated, which the model leaves out.  Adding to a
    NULL buffer has no defined result in C; here it is a failure
    ([None]), and [delta_walk_table] shows that the walk never does it. *)
Definition sid_buffer_add (buf : option vvalue) (x : string) : option vvalue :=
  match buf with
  | Some v => Some (mk_vvalue (vv_header v) (vv_data v ++ [x]))
  | None => None
  end.

Definition add_plus (d : kv_delta) (x : string) : option kv_delta :=
  b ← sid_buffer_add (d_plus d) x; Some (set_delta_bufs d (Some b) (d_minus d) (d_final d)).

Definition add_minus (d : kv_delta) (x : string) : option kv_delta :=
  b ← sid_buffer_add (d_minus d) x; Some (set_delta_bufs d (d_plus d) (Some b) (d_final d)).

Definition add_final (d : kv_delta) (x : string) : option kv_delta :=
  b ← sid_buffer_add (d_final d) x; Some (set_delta_bufs d (d_plus d) (d_minus d) (Some b)).

(** The three [switch (delta->op)] statements of the walk; [None] is
    [goto out] with [r < 0].  The switch for an item the old vector alone has
    is the same in the comparing branch and in the loop over the rest of the
    old vector, and likewise for the new vector. *)
Definition delta_old_only (op : kv_op_t) (x : string) (d : kv_delta) : option kv_delta :=
  match op with
  | KV_OP_SET => add_minus d x
  | KV_OP_PLUS | KV_OP_MINUS => add_final d x
  | KV_OP_ILLEGAL => None
  end.

Definition delta_new_only (op : kv_op_t) (x : string) (d : kv_delta) : option kv_delta :=
  match op with
  | KV_OP_SET | KV_OP_PLUS => d' ← add_plus d x; add_final d' x
  | KV_OP_MINUS => Some d
  | KV_OP_ILLEGAL => None
  end.

Definition delta_both (op : kv_op_t) (x : string) (d : kv_delta) : option kv_delta :=
  match op with
  | KV_OP_SET | KV_OP_PLUS => add_final d x
  | KV_OP_MINUS => add_minus d x
  | KV_OP_ILLEGAL => None
  end.

(** The [while (1)] loop.  [old] and [new] are the items from [i_old] and
    [i_new] on. *)
Fixpoint delta_walk (op : kv_op_t) (old : list string) : list string -> kv_delta -> option kv_delta :=
  fix walk_new (new : list string) (d : kv_delta) {struct new} : option kv_delta :=
    match old, new with
    | o :: old', n :: new' =>
        let cmp_result := strcmp o n in
        if cmp_result <? 0 then d' ← delta_old_only op o d; delta_walk op old' new d'
        else if 0 <? cmp_result then d' ← delta_new_only op n d; walk_new new' d'
        else d' ← delta_both op n d; delta_walk op old' new' d'
    | [], n :: new' => d' ← delta_new_only op n d; walk_new new' d'
    | o :: old', [] => d' ← delta_old_only op o d; delta_walk op old' [] d'
    | [], [] => Some d
    end.

(** [_delta_step_calc] on the delta of the relation spec, the stored vector
    (NULL and size 0 when there is no record) and the new vector. *)
Definition delta_step_calc (d : kv_delta) (old_vvalue : option vvalue) (new_vvalue : vvalue)
  : Z * kv_delta :=
  let old_vsize := match old_vvalue with Some v => vsize v | None => O end in
  let new_vsize := vsize new_vvalue in
  let '(r, d0) := _init_delta_buffers d (vv_header new_vvalue) old_vsize new_vsize
                                      (old_vsize + new_vsize) in
  if r <? 0 then (-1, _destroy_delta_buffers d0)
  else
    let old_items := match old_vvalue with Some v => vv_data v | None => [] end in
    match delta_walk (d_op d) old_items (vv_data new_vvalue) d0 with
    | None => (-1, _destroy_delta_buffers d0)
    | Some d1 => (0, _destroy_unused_delta_buffers d1)
    end.

Definition spec_set_delta (spec : kv_store_update_spec) (d : kv_delta) : kv_store_update_spec :=
  let a := us_arg spec in
  let rs := ua_custom a in
  mk_update_spec (us_key spec) (us_old_data spec) (us_new_data spec)
    (set_custom a (mk_rel_spec d (rs_abs_delta rs) (rs_cur_key_spec rs) (rs_rel_key_spec rs))).

Definition spec_set_new_data (spec : kv_store_update_spec) (r : kv_record) : kv_store_update_spec :=
  mk_update_spec (us_key spec) (us_old_data spec) r (us_arg spec).

(** [_delta_step_calc]: the stored record is read as an iovec array.  The
    delta engine runs on keys that hold vectors; a scalar is read through the
    vector view of [_get_vvalue]. *)
Definition _delta_step_calc (spec : kv_store_update_spec) : Z * kv_store_update_spec :=
  let '(r, d) := delta_step_calc (rs_delta (ua_custom (us_arg spec)))
                                 (option_map _get_vvalue (us_old_data spec))
                                 (_get_vvalue (us_new_data spec)) in
  (r, spec_set_delta spec d).

(** [_kv_cb_delta_step]: commit the final vector when there is one. *)
Definition _kv_cb_delta_step (spec : kv_store_update_spec) : Z * kv_store_update_spec :=
  let '(r, spec') := _delta_step_calc spec in
  if r <? 0 then (0, spec')
  else
    match d_final (rs_delta (ua_custom (us_arg spec'))) with
    | Some final => (1, spec_set_new_data spec' (KV_VECTOR final))
    | None => (0, spec')
    end.

(** ** The spec's table of the merge walk

    These definitions follow the words of the specification, to be compared
    with [delta_walk]: the walk sorts every item into one of three cases,
    and the table says where an item of each case goes. *)

Inductive walk_case : Type := ONLY_IN_OLD | ONLY_IN_NEW | IN_BOTH.

(** The case of each item that a merge walk over two sorted vectors meets,
    in the order of the walk. *)
Fixpoint walk_classify (old : list string) : list string -> list (walk_case * string) :=
  fix classify_new (new : list string) {struct new} : list (walk_case * string) :=
    match old, new with
    | o :: old', n :: new' =>
        if strcmp o n <? 0 then (ONLY_IN_OLD, o) :: walk_classify old' new
        else if 0 <? strcmp o n then (ONLY_IN_NEW, n) :: classify_new new'
        else (IN_BOTH, n) :: walk_classify old' new'
    | [], n :: new' => (ONLY_IN_NEW, n) :: classify_new new'
    | o :: old', [] => (ONLY_IN_OLD, o) :: walk_classify old' []
    | [], [] => []
    end.

(** | op    | only in O       | only in N           | in both        |
    | SET   | add to minus    | add to plus, final  | add to final   |
    | PLUS  | add to final    | add to plus, final  | add to final   |
    | MINUS | add to final    | ignore              | add to minus   | *)
Definition table_plus (op : kv_op_t) (c : walk_case) : bool :=
  match op, c with
  | KV_OP_SET, ONLY_IN_NEW | KV_OP_PLUS, ONLY_IN_NEW => true
  | _, _ => false
  end.

Definition table_minus (op : kv_op_t) (c : walk_case) : bool :=
  match op, c with
  | KV_OP_SET, ONLY_IN_OLD | KV_OP_MINUS, IN_BOTH => true
  | _, _ => false
  end.

Definition table_final (op : kv_op_t) (c : walk_case) : bool :=
  match op, c with
  | KV_OP_SET, ONLY_IN_NEW | KV_OP_SET, IN_BOTH => true
  | KV_OP_PLUS, _ => true
  | KV_OP_MINUS, ONLY_IN_OLD => true
  | _, _ => false
  end.

(** The items of a classified walk that a column of the table selects. *)
Definition table_select (sel : walk_case -> bool) (w : list (walk_case * string)) : list string :=
  (filter (λ cx, sel cx.1 = true) w).*2.

(** The data items of a delta buffer; none when the buffer is NULL. *)
Definition delta_items (b : option vvalue) : list string :=
  match b with
  | Some v => vv_data v
  | None => []
  end.

(** Append items to a buffer that exists. *)
Definition buf_app (b : option vvalue) (l : list string) : option vvalue :=
  match b with
  | Some v => Some (mk_vvalue (vv_header v) (vv_data v ++ l))
  | None => None
  end.

(** Items sorted by [strcmp] without repetition, as [qsort] with
    [_vvalue_str_cmp] leaves a vector of distinct items. *)
Definition strict_sorted (l : list string) : Prop :=
  StronglySorted (λ a b, strcmp a b < 0) l.

(** ** Delta engine: the absolute delta ([_delta_abs_calc]) *)

(** Modelled from the spec: the bitmap of [internal/bitmap.h] is not under
    [src/].  The code creates it with every bit set
    ([bitmap_create(size, true, NULL)]), clears single bits, tests single
    bits and takes "bit-set counts". *)
Abbreviation bitmap := (list bool) (only parsing).

Definition bitmap_create (bit_count : nat) (invert : bool) : bitmap :=
  replicate bit_count invert.

Definition bitmap_bit_unset (bmp : bitmap) (bit_pos : nat) : bitmap :=
  <[bit_pos := false]> bmp.

Definition bitmap_bit_is_set (bmp : bitmap) (bit_pos : nat) : bool :=
  default false (bmp !! bit_pos).

Definition bitmap_get_bit_set_count (bmp : bitmap) : nat :=
  length (filter (λ b, b = true) bmp).

(** [struct cross_bitmap_calc_arg]; the sizes are those of the vectors. *)
Record cross_bitmap_calc_arg : Type := mk_cross {
  cr_old_vvalue : option vvalue;
  cr_old_bmp : option bitmap;
  cr_new_vvalue : option vvalue;
  cr_new_bmp : option bitmap
}.

(** The loop of [_delta_cross_bitmap_calc]: [old] and [new] are the items
    from [i_old] and [i_new] on; an item found on both sides is a
    contradiction and its bit is cleared in both bitmaps. *)
Fixpoint cross_walk (old : list string)
  : list string -> nat -> nat -> option bitmap -> option bitmap -> option bitmap * option bitmap :=
  fix walk_new (new : list string) (i_old i_new : nat) (old_bmp new_bmp : option bitmap)
      {struct new} : option bitmap * option bitmap :=
    match old, new with
    | o :: old', n :: new' =>
        let cmp_result := strcmp o n in
        if cmp_result <? 0 then cross_walk old' new (S i_old) i_new old_bmp new_bmp
        else if 0 <? cmp_result then walk_new new' i_old (S i_new) old_bmp new_bmp
        else cross_walk old' new' (S i_old) (S i_new)
               (option_map (λ b, bitmap_bit_unset b i_old) old_bmp)
               (option_map (λ b, bitmap_bit_unset b i_new) new_bmp)
    | _, _ => (old_bmp, new_bmp)
    end.

Definition _delta_cross_bitmap_calc (cross : cross_bitmap_calc_arg) : cross_bitmap_calc_arg :=
  let '(old_bmp, new_bmp) :=
    cross_walk (delta_items (cr_old_vvalue cross)) (delta_items (cr_new_vvalue cross))
               VVALUE_HEADER_CNT VVALUE_HEADER_CNT (cr_old_bmp cross) (cr_new_bmp cross) in
  mk_cross (cr_old_vvalue cross) old_bmp (cr_new_vvalue cross) new_bmp.

(** [bmp ? bitmap_get_bit_set_count(bmp) : 0] *)
Definition bmp_count (bmp : option bitmap) : nat :=
  match bmp with
  | Some b => bitmap_get_bit_set_count b
  | None => O
  end.

(** The size of one side of the absolute delta: the two counts are summed
    and the header count is taken off when both bitmaps are there. *)
Definition abs_delta_vsize (bmp_a bmp_b : option bitmap) : nat :=
  let sum := (bmp_count bmp_a + bmp_count bmp_b)%nat in
  match bmp_a, bmp_b with
  | Some _, Some _ => (sum - VVALUE_HEADER_CNT)%nat
  | _, _ => sum
  end.

(** The data items of [v] whose bit is set, in order: the loops
    [for (i = VVALUE_IDX_DATA; i < vsize; i++) if (bitmap_bit_is_set(bmp, i)) ...]. *)
Fixpoint items_with_bit_set (items : list string) (bmp : bitmap) (i : nat) : list string :=
  match items with
  | [] => []
  | x :: items' =>
      if bitmap_bit_is_set bmp i then x :: items_with_bit_set items' bmp (S i)
      else items_with_bit_set items' bmp (S i)
  end.

Definition selected_items (v : option vvalue) (bmp : option bitmap) : list string :=
  match v, bmp with
  | Some v, Some b => items_with_bit_set (vv_data v) b VVALUE_IDX_DATA
  | _, _ => []
  end.

(** [sid_buffer_add] of several items in a row; [None] when one fails. *)
Fixpoint sid_buffer_add_all (buf : option vvalue) (l : list string) : option (option vvalue) :=
  match l with
  | [] => Some buf
  | x :: l' => b ← sid_buffer_add buf x; sid_buffer_add_all (Some b) l'
  end.

(** [qsort] with [_vvalue_str_cmp] over the data items. *)
Definition strcmp_le (a b : string) : Prop := strcmp a b <= 0.

#[global] Instance strcmp_le_dec (a b : string) : Decision (strcmp_le a b).
Proof. unfold strcmp_le. apply _. Defined.

Definition qsort_items (l : list string) : list string :=
  merge_sort strcmp_le l.

Definition qsort_buffer (b : option vvalue) : option vvalue :=
  option_map (λ v, mk_vvalue (vv_header v) (qsort_items (vv_data v))) b.

Definition set_abs_delta (a : kv_update_arg) (abs : kv_delta) : kv_update_arg :=
  let rs := ua_custom a in
  set_custom a (mk_rel_spec (rs_delta rs) abs (rs_cur_key_spec rs) (rs_rel_key_spec rs)).

Definition set_delta (a : kv_update_arg) (d : kv_delta) : kv_update_arg :=
  let rs := ua_custom a in
  set_custom a (mk_rel_spec d (rs_abs_delta rs) (rs_cur_key_spec rs) (rs_rel_key_spec rs)).

(** A stored record read as an iovec array (see [_delta_step_calc]). *)
Definition kv_store_get_vvalue (s : kv_store) (key : string) : option vvalue :=
  option_map _get_vvalue (kv_store_get_value s key).

(** The first cross comparison of [_delta_abs_calc], old plus vs. new minus:
    the vector stored under the [+] key against [delta->minus]. *)
Definition abs_calc_cross1 (update_arg : kv_update_arg) (s : kv_store) : cross_bitmap_calc_arg :=
  let rel_spec := ua_custom update_arg in
  let old :=
    kv_store_get_vvalue s (_compose_key (set_ks_op (rs_cur_key_spec rel_spec) KV_OP_PLUS)) in
  let old_bmp := option_map (λ v, bitmap_create (vsize v) true) old in
  match d_minus (rs_delta rel_spec) with
  | Some m =>
      _delta_cross_bitmap_calc
        (mk_cross old old_bmp (Some m) (Some (bitmap_create (vsize m) true)))
  | None => mk_cross old old_bmp None None
  end.

(** The second cross comparison, old minus vs. new plus: the vector stored
    under the [-] key against [delta->plus]. *)
Definition abs_calc_cross2 (update_arg : kv_update_arg) (s : kv_store) : cross_bitmap_calc_arg :=
  let rel_spec := ua_custom update_arg in
  let old :=
    kv_store_get_vvalue s (_compose_key (set_ks_op (rs_cur_key_spec rel_spec) KV_OP_MINUS)) in
  let old_bmp := option_map (λ v, bitmap_create (vsize v) true) old in
  match d_plus (rs_delta rel_spec) with
  | Some p =>
      _delta_cross_bitmap_calc
        (mk_cross old old_bmp (Some p) (Some (bitmap_create (vsize p) true)))
  | None => mk_cross old old_bmp None None
  end.

Definition _delta_abs_calc (vheader : vheader) (update_arg : kv_update_arg) (s : kv_store)
  : Z * kv_update_arg :=
  let rel_spec := ua_custom update_arg in
  let delta := rs_delta rel_spec in
  match d_plus delta, d_minus delta with
  | None, None => (0, update_arg)
  | _, _ =>
      let cross1 := abs_calc_cross1 update_arg s in
      let cross2 := abs_calc_cross2 update_arg s in
      let abs_minus_vsize := abs_delta_vsize (cr_old_bmp cross2) (cr_new_bmp cross1) in
      let abs_plus_vsize := abs_delta_vsize (cr_old_bmp cross1) (cr_new_bmp cross2) in
      let '(r, abs0) :=
        _init_delta_buffers (rs_abs_delta rel_spec) vheader abs_minus_vsize abs_plus_vsize 0 in
      if r <? 0 then (-1, set_abs_delta update_arg (_destroy_delta_buffers abs0))
      else
        let abs1 :=
          if flag_test (d_flags delta) DELTA_WITH_REL
          then mk_delta (d_op abs0) (Z.lor (d_flags abs0) DELTA_WITH_REL)
                        (d_plus abs0) (d_minus abs0) (d_final abs0)
          else abs0 in
        let filled :=
          plus1 ← sid_buffer_add_all (d_plus abs1)
                    (selected_items (cr_old_vvalue cross1) (cr_old_bmp cross1));
          minus1 ← sid_buffer_add_all (d_minus abs1)
                     (selected_items (cr_new_vvalue cross1) (cr_new_bmp cross1));
          minus2 ← sid_buffer_add_all minus1
                     (selected_items (cr_old_vvalue cross2) (cr_old_bmp cross2));
          plus2 ← sid_buffer_add_all plus1
                    (selected_items (cr_new_vvalue cross2) (cr_new_bmp cross2));
          Some (plus2, minus2) in
        match filled with
        | None => (-1, set_abs_delta update_arg (_destroy_delta_buffers abs1))
        | Some (plus, minus) =>
            (0, set_abs_delta update_arg
                  (set_delta_bufs abs1 (qsort_buffer plus) (qsort_buffer minus) (d_final abs1)))
        end
  end.

(** ** Delta engine: storing the absolute delta and the reciprocal edges *)

(** [_value_vector_mark_sync]: the flags slot is pointed at
    [value_flags_sync] or at [value_flags_no_sync]. *)
Definition _value_vector_mark_sync (v : vvalue) (sync : bool) : vvalue :=
  let h := vv_header v in
  mk_vvalue (mk_vheader (vh_gennum h) (vh_seqnum h)
                        (if sync then value_flags_sync else value_flags_no_sync)
                        (vh_owner h))
            (vv_data v).

Definition _flip_key_specs (rel_spec : kv_rel_spec) : kv_rel_spec :=
  mk_rel_spec (rs_delta rel_spec) (rs_abs_delta rel_spec)
              (rs_rel_key_spec rel_spec) (rs_cur_key_spec rel_spec).

Definition set_cur_key_spec (rel_spec : kv_rel_spec) (k : kv_key_spec) : kv_rel_spec :=
  mk_rel_spec (rs_delta rel_spec) (rs_abs_delta rel_spec) k (rs_rel_key_spec rel_spec).

(** Modelled from the spec: [sid_buffer_get_data] is in [base/buffer.c],
    which is not under [src/].  It yields the slots of a buffer and their
    number.  The code also calls it on a delta buffer that may be NULL; that
    call has no defined result and is [None] here. *)
Definition sid_buffer_get_data (buf : option vvalue) : option vvalue := buf.

(** The result of a delta call: return code, update argument and store, or
    [None] when the call has no defined result. *)
Definition delta_result : Type := option (Z * kv_update_arg * kv_store).

(** The type of [_kv_delta_set], for the call that [_delta_update] makes. *)
Definition kv_delta_set_fn : Type :=
  string -> vvalue -> kv_update_arg -> bool -> kv_store -> delta_result.

(** The [for] loop of [_delta_update] over the items of the local delta:
    each item is the key prefix of a relative, whose reciprocal key is the
    (flipped) current key spec with the namespace part of the item.  The
    result of the nested [_kv_delta_set] is not looked at.  After each call
    the namespace part is reset to NULL, which is [""] here. *)
Fixpoint delta_update_relatives (kv_delta_set : kv_delta_set_fn) (rel_vvalue : vvalue)
    (index : bool) (items : list string) (update_arg : kv_update_arg) (s : kv_store)
  : option (Z * kv_update_arg * kv_store) :=
  match items with
  | [] => Some (0, update_arg, s)
  | item :: items' =>
      match _copy_ns_part_from_key item with
      | None => Some (-1, update_arg, s)
      | Some ns_part =>
          let rel_spec := ua_custom update_arg in
          let cur := set_ks_ns_part (rs_cur_key_spec rel_spec) ns_part in
          let key := _compose_key cur in
          '(_, update_arg', s') ←
            kv_delta_set key rel_vvalue (set_custom update_arg (set_cur_key_spec rel_spec cur))
                         index s;
          let rel_spec' := ua_custom update_arg' in
          let update_arg'' :=
            set_custom update_arg'
              (set_cur_key_spec rel_spec' (set_ks_ns_part (rs_cur_key_spec rel_spec') "")) in
          delta_update_relatives kv_delta_set rel_vvalue index items' update_arg'' s'
      end
  end.

Definition _delta_update (kv_delta_set : kv_delta_set_fn) (vheader : vheader) (op : kv_op_t)
    (update_arg : kv_update_arg) (index : bool) (s : kv_store) : delta_result :=
  let rel_spec := ua_custom update_arg in
  let orig_op := ks_op (rs_cur_key_spec rel_spec) in
  let continue (abs_buf delta_buf : option vvalue) (set_abs_buf : kv_delta -> option vvalue -> kv_delta)
    : delta_result :=
    match abs_buf with
    | None => Some (0, update_arg, s)
    | Some abs_delta_vvalue =>
        delta_vvalue ← sid_buffer_get_data delta_buf;
        (* store absolute delta for current item - persistent *)
        let key := _compose_key (set_ks_op (rs_cur_key_spec rel_spec) op) in
        let '(_, update_arg1, s1) :=
          kv_store_set_value s key (KV_VECTOR (_value_vector_mark_sync abs_delta_vvalue true))
                             _kv_cb_overwrite update_arg in
        let s2 := if index then _manage_kv_index update_arg1 key s1 else s1 in
        let update_arg2 :=
          set_abs_delta update_arg1
            (set_abs_buf (rs_abs_delta (ua_custom update_arg1))
                         (Some (_value_vector_mark_sync abs_delta_vvalue false))) in
        (* the other way round now - store final and absolute delta for each relative *)
        if negb (Nat.eqb (vsize delta_vvalue) 0)
           && flag_test (d_flags (rs_delta (ua_custom update_arg2))) DELTA_WITH_REL
        then
          let rel_spec2 := ua_custom update_arg2 in
          let orig_delta := rs_delta rel_spec2 in
          let orig_abs_delta := rs_abs_delta rel_spec2 in
          let nested_spec :=
            _flip_key_specs
              (mk_rel_spec (mk_delta op DELTA_WITH_DIFF None None None) delta_zero
                           (rs_cur_key_spec rel_spec2) (rs_rel_key_spec rel_spec2)) in
          let key_prefix := _compose_key_prefix (rs_rel_key_spec nested_spec) in
          let rel_vvalue :=
            mk_vvalue (mk_vheader (vh_gennum vheader) (vh_seqnum vheader)
                                  value_flags_no_sync (ua_owner update_arg2))
                      [key_prefix] in
          '(r, update_arg3, s3) ←
            delta_update_relatives kv_delta_set rel_vvalue index (vv_data delta_vvalue)
                                   (set_custom update_arg2 nested_spec) s2;
          let rel_spec3 := ua_custom update_arg3 in
          Some (r,
                set_custom update_arg3
                  (_flip_key_specs
                     (mk_rel_spec orig_delta orig_abs_delta
                                  (rs_cur_key_spec rel_spec3) (rs_rel_key_spec rel_spec3))),
                s3)
        else Some (-1, update_arg2, s2)
    end in
  match op with
  | KV_OP_PLUS =>
      continue (d_plus (rs_abs_delta rel_spec)) (d_plus (rs_delta rel_spec))
               (λ abs b, set_delta_bufs abs b (d_minus abs) (d_final abs))
  | KV_OP_MINUS =>
      continue (d_minus (rs_abs_delta rel_spec)) (d_minus (rs_delta rel_spec))
               (λ abs b, set_delta_bufs abs (d_plus abs) b (d_final abs))
  | _ => Some (-1, update_arg, s)
  end.

(** The body of [_kv_delta_set]; [kv_delta_set] is the function itself, for
    the nested call out of [_delta_update]. *)
Definition kv_delta_set_body (kv_delta_set : kv_delta_set_fn)
    (key : string) (vvalue : vvalue) (update_arg : kv_update_arg) (index : bool) (s : kv_store)
  : delta_result :=
  let out (r : Z) (a : kv_update_arg) (s' : kv_store) : Z * kv_update_arg * kv_store :=
    let rs := ua_custom a in
    (r,
     set_custom a (mk_rel_spec (_destroy_delta_buffers (rs_delta rs))
                               (_destroy_delta_buffers (rs_abs_delta rs))
                               (rs_cur_key_spec rs) (rs_rel_key_spec rs)),
     s') in
  let '(stored, update_arg1, s1) :=
    kv_store_set_value s key (KV_VECTOR vvalue) _kv_cb_delta_step update_arg in
  match stored with
  | None => Some (out (-1) update_arg1 s1)
  | Some _ =>
      let s2 := if index then _manage_kv_index update_arg1 key s1 else s1 in
      if flag_test (d_flags (rs_delta (ua_custom update_arg1)))
                   (Z.lor DELTA_WITH_DIFF DELTA_WITH_REL)
      then
        let '(r, update_arg2) := _delta_abs_calc (vv_header vvalue) update_arg1 s2 in
        if r <? 0 then Some (out (-1) update_arg2 s2)
        else
          '(r3, update_arg3, s3) ←
            _delta_update kv_delta_set (vv_header vvalue) KV_OP_PLUS update_arg2 index s2;
          if r3 <? 0 then Some (out (-1) update_arg3 s3)
          else
            '(r4, update_arg4, s4) ←
              _delta_update kv_delta_set (vv_header vvalue) KV_OP_MINUS update_arg3 index s3;
            if r4 <? 0 then Some (out (-1) update_arg4 s4)
            else Some (out 0 update_arg4 s4)
      else Some (out 0 update_arg1 s2)
  end.

(** [_kv_delta_set]: the recursion through [_delta_update] is bounded by
    [fuel]; [kv_delta_set_fuel_enough] shows that two levels are all the
    code uses. *)
Fixpoint _kv_delta_set (fuel : nat) : kv_delta_set_fn :=
  match fuel with
  | O => λ _ _ _ _ _, None
  | S fuel' => kv_delta_set_body (_kv_delta_set fuel')
  end.

Definition kv_delta_set_depth : nat := 2.

(** ** Merge of a worker's export into the main store ([SYSTEM_CMD_SYNC]) *)

(** [_kv_cb_main_unset]: the callback of [kv_store_unset] reads the stored
    record and the update argument only. *)
Definition _kv_cb_main_unset (old_data : option kv_record) (update_arg : kv_update_arg)
  : Z * kv_update_arg :=
  match old_data with
  | None => (1, update_arg)
  | Some old =>
      let vvalue_old := _get_vvalue old in
      if negb (_flags_indicate_mod_owned (VVALUE_FLAGS vvalue_old) =? 0)
         && negb (strcmp (VVALUE_OWNER vvalue_old) (ua_owner update_arg) =? 0)
      then (0, set_ret_code update_arg EBUSY)
      else (1, update_arg)
  end.

(** [_kv_cb_main_set]:
    [r = (!old_vvalue || ((VVALUE_SEQNUM(new_vvalue) >= VVALUE_SEQNUM(old_vvalue)) && _kv_cb_overwrite(spec)))] *)
Definition _kv_cb_main_set (spec : kv_store_update_spec) : Z * kv_store_update_spec :=
  let old_vvalue := option_map _get_vvalue (us_old_data spec) in
  let new_vvalue := _get_vvalue (us_new_data spec) in
  match old_vvalue with
  | None => (1, spec)
  | Some old =>
      if VVALUE_SEQNUM old <=? VVALUE_SEQNUM new_vvalue then
        let '(r, spec') := _kv_cb_overwrite spec in
        (if r =? 0 then 0 else 1, spec')
      else (0, spec)
  end.

(** One record of the export buffer: the key and the value, a vector when
    [KV_STORE_VALUE_VECTOR] is set in its store flags and a scalar otherwise.
    The records are taken as already cut out of the shared memory; a vector
    with fewer than four slots and a scalar without an owner string, which
    the code rejects, have no representation here. *)
Record sync_record : Type := mk_sync_record {
  sr_key : string;
  sr_value : kv_record
}.

(** [unset] as [_sync_main_kv_store] computes it.  For a vector:
    [!(VVALUE_FLAGS(vvalue) & KV_MOD_RESERVED) && (value_size == VVALUE_HEADER_CNT)];
    for a scalar:
    [(svalue->flags != KV_MOD_RESERVED) && (value_size == (sizeof svalue + data_offset))]. *)
Definition sync_unset (value : kv_record) : bool :=
  match value with
  | KV_VECTOR v =>
      negb (flag_test (VVALUE_FLAGS v) KV_MOD_RESERVED) && Nat.eqb (vsize v) VVALUE_HEADER_CNT
  | KV_SCALAR h payload =>
      negb (vh_flags h =? KV_MOD_RESERVED) && Nat.eqb (String.length payload) 0
  end.

(** The body of the [while (p < end)] loop for one record.  The result is
    [None] for [goto out] on an illegal operator, and the update argument
    and store after the record otherwise.  The outer option is the defined
    result of [_kv_delta_set]. *)
Definition sync_one_record (rec : sync_record) (update_arg : kv_update_arg) (s : kv_store)
  : option (option (kv_update_arg * kv_store)) :=
  let value := sr_value rec in
  let unset := sync_unset value in
  let update_arg0 :=
    mk_update_arg (vh_owner (record_header value)) (ua_custom update_arg) (- EREMOTEIO) in
  let dispatch (op : kv_op_t) (key : string) : option (option (kv_update_arg * kv_store)) :=
    let update_arg1 :=
      set_delta update_arg0
        (let d := rs_delta (ua_custom update_arg0) in
         mk_delta op (d_flags d) (d_plus d) (d_minus d) (d_final d)) in
    if unset then
      let '(_, a, s') := kv_store_unset s key _kv_cb_main_unset update_arg1 in
      Some (Some (a, s'))
    else
      match op with
      | KV_OP_SET =>
          let '(_, a, s') := kv_store_set_value s key value _kv_cb_main_set update_arg1 in
          Some (Some (a, s'))
      | _ =>
          '(_, a, s') ← _kv_delta_set kv_delta_set_depth key (_get_vvalue value) update_arg1 false s;
          Some (Some (a, s'))
      end in
  match value with
  | KV_VECTOR _ =>
      match _get_op_from_key (sr_key rec) with
      | KV_OP_PLUS => dispatch KV_OP_PLUS (string_tail (sr_key rec))
      | KV_OP_MINUS => dispatch KV_OP_MINUS (string_tail (sr_key rec))
      | KV_OP_SET => dispatch KV_OP_SET (sr_key rec)
      | KV_OP_ILLEGAL => Some None
      end
  | KV_SCALAR _ _ => dispatch KV_OP_SET (sr_key rec)
  end.

(** The loop over the records of the export buffer. *)
Fixpoint sync_records (recs : list sync_record) (update_arg : kv_update_arg) (s : kv_store)
  : option (Z * kv_store) :=
  match recs with
  | [] => Some (0, s)
  | rec :: recs' =>
      step ← sync_one_record rec update_arg s;
      match step with
      | None => Some (-1, s)
      | Some (update_arg', s') => sync_records recs' update_arg' s'
      end
  end.

(** [_sync_main_kv_store] on the records of the mapped export buffer. *)
Definition _sync_main_kv_store (recs : list sync_record) (s : kv_store) : option (Z * kv_store) :=
  sync_records recs (mk_update_arg "" rel_spec_null 0) s.

(** ** The command context *)

Inductive cmd_scan_phase_t : Type :=
| CMD_SCAN_PHASE_A_INIT
| CMD_SCAN_PHASE_A_IDENT
| CMD_SCAN_PHASE_A_SCAN_PRE
| CMD_SCAN_PHASE_A_SCAN_CURRENT
| CMD_SCAN_PHASE_A_SCAN_NEXT
| CMD_SCAN_PHASE_A_SCAN_POST_CURRENT
| CMD_SCAN_PHASE_A_SCAN_POST_NEXT
| CMD_SCAN_PHASE_A_WAITING
| CMD_SCAN_PHASE_A_EXIT
| CMD_SCAN_PHASE_B_TRIGGER_ACTION_CURRENT
| CMD_SCAN_PHASE_B_TRIGGER_ACTION_NEXT
| CMD_SCAN_PHASE_ERROR.

(** The enumerators that [util.c] maps the udev strings to. *)
Inductive udev_action_t : Type :=
| UDEV_ACTION_ADD | UDEV_ACTION_CHANGE | UDEV_ACTION_REMOVE | UDEV_ACTION_MOVE
| UDEV_ACTION_ONLINE | UDEV_ACTION_OFFLINE | UDEV_ACTION_BIND | UDEV_ACTION_UNBIND
| UDEV_ACTION_UNKNOWN.

Inductive udev_devtype_t : Type :=
| UDEV_DEVTYPE_DISK | UDEV_DEVTYPE_PARTITION | UDEV_DEVTYPE_UNKNOWN.

(** [struct udevice]; a [const char *] field is [None] while it is NULL. *)
Record udevice : Type := mk_udevice {
  ud_action : udev_action_t;
  ud_type : udev_devtype_t;
  ud_path : option string;
  ud_name : option string;
  ud_major : Z;
  ud_minor : Z;
  ud_seqnum : Z;
  ud_diskseq : Z;
  ud_synth_uuid : option string
}.

(** [struct sid_ucmd_ctx], the fields the modelled functions use:
    [req_env.dev.id], [req_env.dev.udev], [common->gennum], the store behind
    [common->kv_store_res] and [scan.phase]. *)
Record sid_ucmd_ctx : Type := mk_ucmd_ctx {
  uc_dev_id : string;
  uc_udev : udevice;
  uc_gennum : Z;
  uc_kv_store : kv_store;
  uc_scan_phase : cmd_scan_phase_t
}.

Definition set_uc_kv_store (c : sid_ucmd_ctx) (s : kv_store) : sid_ucmd_ctx :=
  mk_ucmd_ctx (uc_dev_id c) (uc_udev c) (uc_gennum c) s (uc_scan_phase c).



(** A module is known by its full name ([module_get_full_name]). *)
Definition module : Type := string.

Definition _get_mod_name (mod_ : option module) : string :=
  match mod_ with
  | Some m => m
  | None => MOD_NAME_CORE
  end.

Definition _get_ns_part (mod_ : option module) (ucmd_ctx : sid_ucmd_ctx)
    (ns : sid_ucmd_kv_namespace_t) : string :=
  match ns with
  | KV_NS_UDEV | KV_NS_DEVICE => uc_dev_id ucmd_ctx
  | KV_NS_MODULE => _get_mod_name mod_
  | KV_NS_GLOBAL | KV_NS_UNDEFINED => ""
  end.

Definition ns_eqb (a b : sid_ucmd_kv_namespace_t) : bool :=
  match a, b with
  | KV_NS_UNDEFINED, KV_NS_UNDEFINED | KV_NS_UDEV, KV_NS_UDEV | KV_NS_GLOBAL, KV_NS_GLOBAL
  | KV_NS_MODULE, KV_NS_MODULE | KV_NS_DEVICE, KV_NS_DEVICE => true
  | _, _ => false
  end.

(** ** Setting a record: [_do_sid_ucmd_set_kv] *)

Definition _passes_global_reservation_check (ucmd_ctx : sid_ucmd_ctx) (owner : string)
    (ns : sid_ucmd_kv_namespace_t) (key_core : string) : Z :=
  if negb (ns_eqb ns KV_NS_UDEV) && negb (ns_eqb ns KV_NS_DEVICE) then 1
  else
    let key := _compose_key (mk_key_spec KV_OP_SET "" ns "" "" "" key_core) in
    match kv_store_get_value (uc_kv_store ucmd_ctx) key with
    | None => 1
    | Some found =>
        let vvalue := _get_vvalue found in
        if flag_test (VVALUE_FLAGS vvalue) KV_MOD_RESERVED
           && (strcmp (VVALUE_OWNER vvalue) owner =? 0)
        then 1 else 0
    end.

(** The first [n] bytes of a byte string. *)
Definition bytes_take (n : nat) (s : string) : string := String.substring 0 n s.

(** [_do_sid_ucmd_set_kv]: the result is the pointer to the stored payload
    ([svalue->data + _svalue_ext_data_offset(svalue)]), given as the payload
    bytes, or [None] for NULL.  [value] holds the bytes that [value] points
    to.  The five iovecs are merged by the store
    ([KV_STORE_VALUE_OP_MERGE]) into one scalar record. *)
Definition _do_sid_ucmd_set_kv (mod_ : option module) (ucmd_ctx : sid_ucmd_ctx)
    (dom : option string) (ns : sid_ucmd_kv_namespace_t) (key_core : string)
    (flags : Z) (value : option string) (value_size : nat)
  : option string * sid_ucmd_ctx :=
  let owner := _get_mod_name mod_ in
  let key_spec :=
    mk_key_spec KV_OP_SET (default "" dom) ns (_get_ns_part mod_ ucmd_ctx ns) "" "" key_core in
  let reserved_elsewhere :=
    if negb (ns_eqb ns KV_NS_UDEV && (strcmp owner OWNER_CORE =? 0))
    then _passes_global_reservation_check ucmd_ctx owner ns key_core <=? 0
    else false in
  if reserved_elsewhere then (None, ucmd_ctx)
  else
    let key := _compose_key key_spec in
    let header := mk_vheader (uc_gennum ucmd_ctx) (ud_seqnum (uc_udev ucmd_ctx)) flags owner in
    let payload := match value with Some v => bytes_take value_size v | None => "" end in
    let update_arg := mk_update_arg owner rel_spec_null (- EREMOTEIO) in
    let '(svalue, update_arg', s') :=
      kv_store_set_value (uc_kv_store ucmd_ctx) key (KV_SCALAR header payload)
                         _kv_cb_overwrite update_arg in
    match svalue with
    | None => (None, set_uc_kv_store ucmd_ctx s')
    | Some stored =>
        if Nat.eqb value_size 0 then (None, set_uc_kv_store ucmd_ctx s')
        else
          (Some (match stored with KV_SCALAR _ p => p | KV_VECTOR _ => "" end),
           set_uc_kv_store ucmd_ctx (_manage_kv_index update_arg' key s'))
    end.

(** ** Capability gating of the scan phases *)

Definition CMD_SCAN_CAP_RDY : Z := 1.
Definition CMD_SCAN_CAP_RES : Z := 2.
Definition CMD_SCAN_CAP_ALL : Z := 4294967295.

(** The [.flags] column of [_cmd_scan_phase_regs]. *)
Definition _cmd_scan_phase_regs_flags (phase : cmd_scan_phase_t) : Z :=
  match phase with
  | CMD_SCAN_PHASE_A_INIT => CMD_SCAN_CAP_ALL
  | CMD_SCAN_PHASE_A_IDENT => 0
  | CMD_SCAN_PHASE_A_SCAN_PRE => CMD_SCAN_CAP_RDY
  | CMD_SCAN_PHASE_A_SCAN_CURRENT => CMD_SCAN_CAP_RDY
  | CMD_SCAN_PHASE_A_SCAN_NEXT => CMD_SCAN_CAP_RES
  | CMD_SCAN_PHASE_A_SCAN_POST_CURRENT => 0
  | CMD_SCAN_PHASE_A_SCAN_POST_NEXT => 0
  | CMD_SCAN_PHASE_A_WAITING => 0
  | CMD_SCAN_PHASE_A_EXIT => CMD_SCAN_CAP_ALL
  | CMD_SCAN_PHASE_B_TRIGGER_ACTION_CURRENT => 0
  | CMD_SCAN_PHASE_B_TRIGGER_ACTION_NEXT => 0
  | CMD_SCAN_PHASE_ERROR => 0
  end.

(** [dev_ready_t] and [dev_reserved_t] with the [..._UNDEFINED] enumerators
    that [ubridge.c] tests for. *)
Inductive dev_ready_t : Type :=
| DEV_NOT_RDY_UNDEFINED
| DEV_NOT_RDY_UNPROCESSED
| DEV_NOT_RDY_INACCESSIBLE
| DEV_NOT_RDY_ACCESSIBLE
| DEV_RDY_PRIVATE
| DEV_RDY_PUBLIC
| DEV_RDY_UNAVAILABLE.

Inductive dev_reserved_t : Type :=
| DEV_RES_UNDEFINED
| DEV_RES_UNPROCESSED
| DEV_RES_FREE
| DEV_RES_RESERVED.

Definition KV_KEY_DEV_READY : string := "#RDY".
Definition KV_KEY_DEV_RESERVED : string := "#RES".

Section ScanCaps.
(** The object representations [(&ready, sizeof(ready))] and
    [(&reserved, sizeof(reserved))] that are stored as payload. *)
Variable dev_ready_bytes : dev_ready_t -> string.
Variable dev_reserved_bytes : dev_reserved_t -> string.

Definition sid_ucmd_dev_set_ready (mod_ : option module) (ucmd_ctx : option sid_ucmd_ctx)
    (ready : dev_ready_t) : Z * option sid_ucmd_ctx :=
  match mod_, ucmd_ctx, ready with
  | None, _, _ | _, None, _ | _, _, DEV_NOT_RDY_UNDEFINED => (- EINVAL, ucmd_ctx)
  | Some _, Some ctx, _ =>
      if negb (flag_test (_cmd_scan_phase_regs_flags (uc_scan_phase ctx)) CMD_SCAN_CAP_RDY)
      then (- EPERM, ucmd_ctx)
      else
        match ready with
        | DEV_NOT_RDY_UNPROCESSED => (- EINVAL, ucmd_ctx)
        | _ =>
            let bytes := dev_ready_bytes ready in
            let '(_, ctx') :=
              _do_sid_ucmd_set_kv None ctx None KV_NS_DEVICE KV_KEY_DEV_READY
                                  DEFAULT_VALUE_FLAGS_CORE (Some bytes) (String.length bytes) in
            (0, Some ctx')
        end
  end.

End ScanCaps.

(** ** Import of the udev environment *)



(** [strchr(s, c)]: the suffix of [s] that starts at the first [c]. *)
Fixpoint strchr (s : string) (c : ascii) : option string :=
  match s with
  | EmptyString => None
  | String d s' => if Ascii.eqb d c then Some s else strchr s' c
  end.

Definition tolower (c : ascii) : ascii :=
  let n := nat_of_ascii c in
  if Nat.leb 65 n && Nat.leb n 90 then ascii_of_nat (n + 32) else c.

(** [strcasecmp(a, b) == 0] *)
Fixpoint strcasecmp_eq (a b : string) : bool :=
  match a, b with
  | EmptyString, EmptyString => true
  | String c a', String d b' => Ascii.eqb (tolower c) (tolower d) && strcasecmp_eq a' b'
  | _, _ => false
  end.

Definition util_udev_str_to_udev_action (str : string) : udev_action_t :=
  if strcasecmp_eq str "add" then UDEV_ACTION_ADD
  else if strcasecmp_eq str "change" then UDEV_ACTION_CHANGE
  else if strcasecmp_eq str "remove" then UDEV_ACTION_REMOVE
  else if strcasecmp_eq str "move" then UDEV_ACTION_MOVE
  else if strcasecmp_eq str "online" then UDEV_ACTION_ONLINE
  else if strcasecmp_eq str "offline" then UDEV_ACTION_OFFLINE
  else if strcasecmp_eq str "bind" then UDEV_ACTION_BIND
  else if strcasecmp_eq str "unbind" then UDEV_ACTION_UNBIND
  else UDEV_ACTION_UNKNOWN.



(** The suffix of [s] from byte [pos] on. *)
Definition string_drop (pos : nat) (s : string) : string :=
  String.substring pos (String.length s - pos) s.

(** The loop of [util_str_rstr]: [for (pos = ...; pos > 0; pos--)]. *)
Fixpoint util_str_rstr_from (haystack needle : string) (pos : nat) : option string :=
  match pos with
  | O => None
  | S pos' =>
      if String.prefix needle (string_drop pos haystack) then Some (string_drop pos haystack)
      else util_str_rstr_from haystack needle pos'
  end.

Definition util_str_rstr (haystack needle : string) : option string :=
  if Nat.ltb (String.length haystack) (String.length needle) then None
  else util_str_rstr_from haystack needle (String.length haystack - String.length needle).














(** ** Requests on a client connection *)

(** [struct sid_msg_header]: status (8 bytes), prot, cmd (1 byte each),
    flags (2 bytes). *)
Record sid_msg_header : Type := mk_msg_header {
  mh_status : Z;
  mh_prot : Z;
  mh_cmd : Z;
  mh_flags : Z
}.

(** Modelled from the spec: the status bits are declared in the interface
    header, which is not under [src/]: "response status bitfield
    (SUCCESS=0, FAILURE=1)". *)
Definition SID_CMD_STATUS_SUCCESS : Z := 0.
Definition SID_CMD_STATUS_FAILURE : Z := 1.

Inductive msg_category_t : Type :=
| MSG_CATEGORY_SYSTEM | MSG_CATEGORY_SELF | MSG_CATEGORY_CLIENT.

(** [struct sid_msg] with the bytes that follow the header. *)
Record sid_msg : Type := mk_sid_msg {
  msg_cat : msg_category_t;
  msg_size : nat;
  msg_header : sid_msg_header;
  msg_body : string
}.

(** What the worker has done with the connection: the buffers written to
    its descriptor, each given by the response header it holds ([None] for a
    buffer without one), and whether the connection was cleaned up
    ([_connection_cleanup]: the resource is dropped and the worker yields). *)
Record connection : Type := mk_connection {
  conn_written : list (option sid_msg_header);
  conn_cleaned_up : bool
}.

Inductive cmd_state_t : Type :=
| CMD_INITIALIZING | CMD_EXEC_SCHEDULED | CMD_EXECUTING | CMD_EXPECTING_DATA
| CMD_EXEC_FINISHED | CMD_EXPECTING_EXPBUF_ACK | CMD_EXPBUF_ACKED | CMD_OK | CMD_ERROR.

(** A command resource: the request it was created for and its state. *)
Record command : Type := mk_command {
  cmd_req_cat : msg_category_t;
  cmd_req_hdr : sid_msg_header;
  cmd_state : cmd_state_t
}.

Section Protocol.
(** The protocol version of the daemon; the constant is declared in the
    interface header, which is not under [src/]. *)
Variable SID_PROTOCOL : Z.
(** [sizeof(struct sid_msg_header)] and the last client command number. *)
Variable SID_MSG_HEADER_SIZE : nat.
Variable _SID_CMD_END : Z.
(** What [sid_buffer_add] and [sid_buffer_write_all] return in
    [_reply_failure]; both are in [base/buffer.c], not under [src/]. *)
Variable reply_add_result : Z.
Variable reply_write_result : Z.
(** The rest of [_init_command] after the protocol check: the command
    registration, the response buffer, the udev import, the session id and
    the command handler.  [false] is [goto fail]. *)
Variable init_command_rest : sid_msg -> bool.

Definition SID_CMD_UNKNOWN : Z := 1.

(** [_cmd_root_only] for the command numbers of the spec's list
    ([UNDEFINED, UNKNOWN, ACTIVE, CHECKPOINT, REPLY, SCAN, VERSION, DBDUMP,
    DBSTATS, RESOURCES]). *)
Definition _cmd_root_only (cmd : Z) : bool :=
  (cmd =? 3) || (cmd =? 5) || (cmd =? 7) || (cmd =? 8) || (cmd =? 9).

(** [_socket_client_is_capable]; [peer_is_root] is the outcome of the
    [SO_PEERCRED] query on the descriptor. *)
Definition _socket_client_is_capable (peer_is_root : bool) (cmd : Z) : bool :=
  peer_is_root || negb (_cmd_root_only cmd).

(** [_check_msg]: the result and the message with its sanitized command
    number.  [on_connection] tells whether the resource is a connection. *)
Definition _check_msg (on_connection peer_is_root : bool) (msg : sid_msg) : Z * sid_msg :=
  if Nat.ltb (msg_size msg) SID_MSG_HEADER_SIZE then (-1, msg)
  else
    match msg_cat msg with
    | MSG_CATEGORY_SYSTEM => (0, msg)
    | MSG_CATEGORY_SELF =>
        let h := msg_header msg in
        if (mh_cmd h <? 0) || (2 <? mh_cmd h)
        then (0, mk_sid_msg (msg_cat msg) (msg_size msg)
                            (mk_msg_header (mh_status h) (mh_prot h) 1 (mh_flags h))
                            (msg_body msg))
        else (0, msg)
    | MSG_CATEGORY_CLIENT =>
        let h := msg_header msg in
        let msg' :=
          if (mh_cmd h <? 0) || (_SID_CMD_END <? mh_cmd h)
          then mk_sid_msg (msg_cat msg) (msg_size msg)
                          (mk_msg_header (mh_status h) (mh_prot h) SID_CMD_UNKNOWN (mh_flags h))
                          (msg_body msg)
          else msg in
        if negb on_connection then (-1, msg')
        else if negb (_socket_client_is_capable peer_is_root (mh_cmd (msg_header msg')))
        then (-1, msg')
        else (0, msg')
    end.

(** [_init_command]: the context is set up with the request, then
    "Require exact protocol version". *)
Definition _init_command (msg : sid_msg) : Z * option command :=
  let ucmd_ctx := mk_command (msg_cat msg) (msg_header msg) CMD_INITIALIZING in
  if negb (mh_prot (cmd_req_hdr ucmd_ctx) =? SID_PROTOCOL) then (-1, None)
  else if init_command_rest msg
  then (0, Some (mk_command (msg_cat msg) (msg_header msg) CMD_EXEC_SCHEDULED))
  else (-1, None).

(** [_create_command_resource]: [sid_resource_create] runs [_init_command]
    and yields no resource when it fails. *)
Definition _create_command_resource (on_connection peer_is_root : bool) (msg : sid_msg)
  : Z * option command :=
  let '(r, msg') := _check_msg on_connection peer_is_root msg in
  if r <? 0 then (-1, None)
  else
    match _init_command msg' with
    | (_, Some c) => (0, Some c)
    | (_, None) => (-1, None)
    end.

(** [_reply_failure]: the request header is read from the connection
    buffer, the buffer is rewound and, for a protocol not above the
    daemon's, the failure header is added; the buffer is written out when
    adding failed. *)
Definition _reply_failure (request : sid_msg_header) (conn : connection) : Z * connection :=
  let prot := mh_prot request in
  if prot <=? SID_PROTOCOL then
    let r := reply_add_result in
    if r <? 0
    then (reply_write_result,
          mk_connection (conn_written conn ++ [None]) (conn_cleaned_up conn))
    else (r, conn)
  else (-1, conn).

Definition _connection_cleanup (conn : connection) : connection :=
  mk_connection (conn_written conn) true.

(** [_on_connection_event] for a complete message read from the client
    ([n > 0] and [sid_buffer_is_complete]). *)
Definition _on_connection_event (peer_is_root : bool) (msg : sid_msg) (conn : connection)
  : Z * connection * option command :=
  let msg := mk_sid_msg MSG_CATEGORY_CLIENT (msg_size msg) (msg_header msg) (msg_body msg) in
  let '(r, created) := _create_command_resource true peer_is_root msg in
  if r <? 0 then
    let '(r', conn') := _reply_failure (msg_header msg) conn in
    if r' <? 0 then (-1, _connection_cleanup conn', None)
    else (0, conn', None)
  else (0, conn, created).
End Protocol.

(** ** Statement vocabulary for the ownership policy *)

(** The error that a refused overwrite reports: the first of the three
    ownership flags, in the order the code tests them, decides. *)
Definition overwrite_errno (old_flags : Z) : Z :=
  if flag_test old_flags KV_MOD_PRIVATE then EACCES
  else if flag_test old_flags KV_MOD_PROTECTED then EPERM
  else EBUSY.

(** The writer may replace the record: no ownership flag, or same owner. *)
Definition overwrite_allowed (old : kv_record) (new : kv_record) : Prop :=
  _flags_indicate_mod_owned (vh_flags (record_header old)) = 0 \/
  vh_owner (record_header old) = vh_owner (record_header new).

(** ** Statement vocabulary for the absolute delta *)

(** A bitmap fits a vector when it has one bit per slot and the four header
    bits are set; a NULL vector has a NULL bitmap. *)
Definition bmp_fits (v : option vvalue) (bmp : option bitmap) : Prop :=
  match v, bmp with
  | Some v, Some b => length b = vsize v /\ take VVALUE_HEADER_CNT b = replicate VVALUE_HEADER_CNT true
  | None, None => True
  | _, _ => False
  end.

(** One of two vectors is there. *)
Definition either_present (va vb : option vvalue) : bool :=
  match va, vb with
  | None, None => false
  | _, _ => true
  end.

(** The buffer of one side of the absolute delta: NULL when neither of its
    two source vectors is there. *)
Definition abs_buffer (vheader : vheader) (va vb : option vvalue) (items : list string)
  : option vvalue :=
  if either_present va vb then Some (mk_vvalue vheader items) else None.



(** ** Statement vocabulary for the capability gating *)





(** ** Statement vocabulary for the udev import *)







(** ** Statement vocabulary for the merge into the main store *)

Definition record_seqnum (r : kv_record) : Z := vh_seqnum (record_header r).

(** A record of the export that is written as a whole: not an unset, and a
    scalar or a vector under a key without operator. *)
Definition sync_record_is_set (rec : sync_record) : bool :=
  negb (sync_unset (sr_value rec))
  && match sr_value rec with
     | KV_SCALAR _ _ => true
     | KV_VECTOR _ =>
         match _get_op_from_key (sr_key rec) with
         | KV_OP_SET => true
         | _ => false
         end
     end.

(** The write of such a record is applied: no stored record, or a sequence
    number that is not lower and a permitted overwrite. *)
Definition main_set_applies (s : kv_store) (rec : sync_record) : Prop :=
  match kv_store_get_value s (sr_key rec) with
  | None => True
  | Some old =>
      record_seqnum old <= record_seqnum (sr_value rec)
      /\ overwrite_allowed old (sr_value rec)
  end.

(** No key of [s] has a lower sequence number in [s']. *)
Definition seqnum_not_lowered (s s' : kv_store) : Prop :=
  forall key old, kv_store_get_value s key = Some old ->
    exists r, kv_store_get_value s' key = Some r /\ record_seqnum old <= record_seqnum r.


(** ** Statement vocabulary for the reciprocal edges *)

(** The items that the merge walk leaves in [delta->final]. *)
Definition final_items (op : kv_op_t) (old new : list string) : list string :=
  table_select (table_final op) (walk_classify old new).

(** The record that the nested mutation of [_delta_update] leaves under a
    reciprocal key: the stored vector merged with the one item [prefix]. *)
Definition apply_rel (op : kv_op_t) (h : vheader) (prefix : string)
    (stored : option kv_record) : option kv_record :=
  Some (KV_VECTOR
          (mk_vvalue h (final_items op (delta_items (option_map _get_vvalue stored)) [prefix]))).

(** The reciprocal key of a neighbour: the relative key spec with the
    namespace part of the neighbour's key prefix. *)
Definition reciprocal_key (rel : kv_key_spec) (item : string) : option string :=
  option_map (fun ns_part => _compose_key (set_ks_ns_part rel ns_part))
             (_copy_ns_part_from_key item).

(** The record under [key] after the nested mutations for [items]. *)
Definition apply_rel_items (op : kv_op_t) (h : vheader) (prefix : string)
    (rel : kv_key_spec) (key : string) (items : list string) (stored : option kv_record)
  : option kv_record :=
  fold_left (fun rec item =>
               if decide (reciprocal_key rel item = Some key)
               then apply_rel op h prefix rec else rec)
            items stored.

(** The stored record is a vector that holds [prefix]. *)
Definition record_holds (prefix : string) (stored : option kv_record) : Prop :=
  exists v, stored = Some (KV_VECTOR v) /\ prefix ∈ vv_data v.

(** The stored record, if any, does not hold [prefix]. *)
Definition record_lacks (prefix : string) (stored : option kv_record) : Prop :=
  prefix ∉ delta_items (option_map _get_vvalue stored).


(** A key composed from a key spec with the [SET] operator. *)
Definition is_set_key (key : string) : Prop :=
  exists spec, ks_op spec = KV_OP_SET /\ key = _compose_key spec.

(** The buffer of a delta that an operator selects. *)
Definition delta_buf (op : kv_op_t) (d : kv_delta) : option vvalue :=
  match op with
  | KV_OP_PLUS => d_plus d
  | KV_OP_MINUS => d_minus d
  | _ => None
  end.

(** The key spec pair that [_delta_update] hands to the nested mutations,
    and the vector it writes. *)
Definition nested_rel_spec (op : kv_op_t) (rel_spec : kv_rel_spec) : kv_rel_spec :=
  _flip_key_specs
    (mk_rel_spec (mk_delta op DELTA_WITH_DIFF None None None) delta_zero
                 (rs_cur_key_spec rel_spec) (rs_rel_key_spec rel_spec)).

Definition rel_vvalue_of (vheader : vheader) (update_arg : kv_update_arg) : vvalue :=
  mk_vvalue (mk_vheader (vh_gennum vheader) (vh_seqnum vheader) value_flags_no_sync
                        (ua_owner update_arg))
            [_compose_key_prefix (rs_cur_key_spec (ua_custom update_arg))].

(** The header of the vector that the nested mutations write. *)
Definition rel_vheader (vh : vheader) (owner : string) : vheader :=
  mk_vheader (vh_gennum vh) (vh_seqnum vh) value_flags_no_sync owner.

(** The local delta of a mutation: what [_delta_step_calc] leaves in
    [rel_spec->delta]. *)
Definition local_delta (s : kv_store) (key : string) (vvalue : vvalue)
    (update_arg : kv_update_arg) : kv_delta :=
  (delta_step_calc (rs_delta (ua_custom update_arg)) (kv_store_get_vvalue s key) vvalue).2.

(** * Further code of [ubridge.c] and [util.c] *)

(** ** More readers of a key *)

(** [_get_ns_from_key]: the namespace letter of a key; [str[0]] of an empty
    rest is the terminating NUL, which is none of the letters. *)
Definition _get_ns_from_key (key : string) : sid_ucmd_kv_namespace_t :=
  match _get_key_part key KEY_PART_NS with
  | None => KV_NS_UNDEFINED
  | Some (str, len) =>
      if Nat.ltb 1 len then KV_NS_UNDEFINED
      else
        match str with
        | String c _ =>
            if Ascii.eqb c "U" then KV_NS_UDEV
            else if Ascii.eqb c "D" then KV_NS_DEVICE
            else if Ascii.eqb c "M" then KV_NS_MODULE
            else if Ascii.eqb c "G" then KV_NS_GLOBAL
            else KV_NS_UNDEFINED
        | EmptyString => KV_NS_UNDEFINED
        end
  end.

(** [_canonicalize_kv_key]: every [":"] becomes ["_"], in place. *)
Fixpoint _canonicalize_kv_key (id : string) : string :=
  match id with
  | EmptyString => EmptyString
  | String c p => String (if Ascii.eqb c ":" then "_"%char else c) (_canonicalize_kv_key p)
  end.

(** A string without the key separator: [strchr(s, ':')] is NULL. *)
Definition no_join (s : string) : Prop := strchr s ":" = None.

(** ** Vocabulary for [util.c] *)

(** The table [udev_action_str] of [util.c]. *)
Definition udev_action_str (a : udev_action_t) : string :=
  match a with
  | UDEV_ACTION_ADD => "add"
  | UDEV_ACTION_CHANGE => "change"
  | UDEV_ACTION_REMOVE => "remove"
  | UDEV_ACTION_MOVE => "move"
  | UDEV_ACTION_ONLINE => "online"
  | UDEV_ACTION_OFFLINE => "offline"
  | UDEV_ACTION_BIND => "bind"
  | UDEV_ACTION_UNBIND => "unbind"
  | UDEV_ACTION_UNKNOWN => "unknown"
  end.

(** [needle] occurs in [haystack] at byte offset [pos]:
    [strncmp(haystack + pos, needle, strlen(needle)) == 0]. *)
Definition occurs_at (haystack needle : string) (pos : nat) : Prop :=
  String.prefix needle (string_drop pos haystack) = true.

(** [strcasecmp] compares the lower-case images. *)
Fixpoint lower (s : string) : string :=
  match s with
  | EmptyString => EmptyString
  | String c s' => String (tolower c) (lower s')
  end.

(** ** Tokens: [util_str_iterate_tokens] and [util_str_comb_to_strv] *)

(** [strchr(set, c) != NULL] for a byte [c] other than NUL. *)
Definition in_str (c : ascii) (set : string) : bool :=
  match strchr set c with
  | Some _ => true
  | None => false
  end.

Fixpoint strspn (s accept : string) : nat :=
  match s with
  | String c s' => if in_str c accept then S (strspn s' accept) else O
  | EmptyString => O
  end.

Fixpoint strcspn (s reject : string) : nat :=
  match s with
  | String c s' => if in_str c reject then O else S (strcspn s' reject)
  | EmptyString => O
  end.

(** [!strchr(delims, str[0])]: [strchr] finds the terminating NUL, so at the
    end of the string the result is false. *)
Definition no_delim_next (delims str : string) : bool :=
  match str with
  | EmptyString => false
  | String c _ => negb (in_str c delims)
  end.

Section Tokens.
Context {A : Type}.
(** [util_str_token_fn_t]: the token is given by its first byte and its
    length; the result is the return code and the data as the callback
    leaves it. *)
Variable token_fn : string -> nat -> bool -> A -> Z * A.

(** The [while (str[0])] loop.  Every round consumes at least one byte, so
    the number [n] of rounds is bounded by the length of [str]. *)
Fixpoint iterate_tokens_loop (n : nat) (str delims quotes : string) (merge_back : bool)
    (data : A) : Z * A :=
  match n with
  | O => (0, data)
  | S n' =>
      match string_drop (strspn str delims) str with
      | EmptyString => (0, data)
      | String c rest as str1 =>
          if in_str c quotes then
            match strchr rest c with
            | None => (- EINVAL, data)
            | Some end_quote =>
                let '(r, data') :=
                  token_fn rest (String.length rest - String.length end_quote) merge_back data in
                if r <? 0 then (r, data')
                else
                  let str2 := string_tail end_quote in
                  iterate_tokens_loop n' str2 delims quotes (no_delim_next delims str2) data'
            end
          else
            let len := strcspn str1 (quotes +:+ delims) in
            let '(r, data') := token_fn str1 len merge_back data in
            if r <? 0 then (r, data')
            else
              let str2 := string_drop len str1 in
              iterate_tokens_loop n' str2 delims quotes (no_delim_next delims str2) data'
      end
  end.

Definition util_str_iterate_tokens (str delims quotes : option string) (data : A) : Z * A :=
  match str with
  | None => (0, data)
  | Some s =>
      iterate_tokens_loop (String.length s) s (default ""%string delims)
                          (default ""%string quotes) false data
  end.
End Tokens.

Record token_counter : Type := mk_token_counter {
  tc_tokens : nat;
  tc_chars : nat
}.

Definition _count_token (token : string) (len : nat) (merge_back : bool)
    (counter : token_counter) : Z * token_counter :=
  (0, mk_token_counter (if merge_back then tc_tokens counter else S (tc_tokens counter))
                       (tc_chars counter + len)).

(** [struct strv_iter]: [si_strv] holds the pointer slots, each one as the
    string it points to and [None] while it is not written; [si_s] is the
    offset of [s] from the start of the memory block. *)
Record strv_iter : Type := mk_strv_iter {
  si_strv : list (option string);
  si_i : nat;
  si_s : nat
}.

(** [_copy_token_to_strv].  When merging, [s] is moved back onto the NUL
    that ends the string of the last slot written, so the bytes of the token
    continue that string. *)
Definition _copy_token_to_strv (token : string) (len : nat) (merge_back : bool)
    (copier : strv_iter) : Z * strv_iter :=
  let bytes := String.substring 0 len token in
  let i := si_i copier in
  let s := si_s copier in
  if merge_back && negb (Nat.eqb i 0) then
    (0, mk_strv_iter (alter (fmap (λ x, x +:+ bytes)) (i - 1)%nat (si_strv copier))
                     (i - 1 + 1) (s - 1 + len + 1))
  else
    (0, mk_strv_iter (<[i := Some bytes]> (si_strv copier)) (i + 1) (s + len + 1)).

Section Strv.
(** [sizeof(char * )] *)
Variable sizeof_char_p : nat.

Definition _get_strv_header_size (counter : token_counter) : nat :=
  ((tc_tokens counter + 1) * sizeof_char_p)%nat.

Definition _get_strv_full_mem_size (counter : token_counter) : nat :=
  (_get_strv_header_size counter + tc_chars counter + tc_tokens counter)%nat.

(** The three calls of [util_str_iterate_tokens] joined by [||]: the first
    negative return code ends the chain. *)
Definition iterate_three {A : Type} (token_fn : string -> nat -> bool -> A -> Z * A)
    (prefix str suffix delims quotes : option string) (data : A) : Z * A :=
  let '(r1, data1) := util_str_iterate_tokens token_fn prefix delims quotes data in
  if r1 <? 0 then (r1, data1)
  else
    let '(r2, data2) := util_str_iterate_tokens token_fn str delims quotes data1 in
    if r2 <? 0 then (r2, data2)
    else util_str_iterate_tokens token_fn suffix delims quotes data2.

(** [util_str_comb_to_strv]: [mem] is [Some size] when a memory area of
    [size] bytes is given, and [malloc] is taken to succeed.  The result is
    the slots of the vector up to and with the closing NULL, or [None] for
    the NULL return. *)
Definition util_str_comb_to_strv (mem : option nat)
    (prefix str suffix delims quotes : option string) : option (list (option string)) :=
  let '(r, counter) :=
    iterate_three _count_token prefix str suffix delims quotes (mk_token_counter 0 0) in
  if r <? 0 then None
  else if match mem with
          | Some size => Nat.ltb size (_get_strv_full_mem_size counter)
          | None => false
          end then None
  else
    let copier0 :=
      mk_strv_iter (replicate (tc_tokens counter + 1) None) 0 (_get_strv_header_size counter) in
    let '(r', copier) :=
      iterate_three _copy_token_to_strv prefix str suffix delims quotes copier0 in
    if r' <? 0 then None
    else Some (<[tc_tokens counter := None]> (si_strv copier)).
End Strv.

(** The two passes agree at a point of the walk: the copier has written as
    many slots and bytes as the counter has counted, the slots written are
    the first ones of the vector, and a token can be merged back only
    after a slot was written. *)
Definition passes_agree (header : nat) (merge_back : bool)
    (counter : token_counter) (copier : strv_iter) : Prop :=
  si_i copier = tc_tokens counter /\
  si_s copier = (header + tc_chars counter + tc_tokens counter)%nat /\
  (merge_back = true -> tc_tokens counter <> O) /\
  exists l, length l = tc_tokens counter /\
            si_strv copier = (Some <$> l) ++ replicate (length (si_strv copier) - length l) None.

(** ** The module interface to the records: [sid_ucmd_set_kv], [sid_ucmd_get_kv] *)

Definition KV_KEY_DOM_USER : string := "USR".
Definition KV_PREFIX_KEY_SYS_C : string := "#".

(** [!key || !*key || (key[0] == KV_PREFIX_KEY_SYS_C[0])] *)
Definition key_refused (key : option string) : bool :=
  match key with
  | None => true
  | Some EmptyString => true
  | Some (String c _) => Ascii.eqb c "#"
  end.

Definition sid_ucmd_set_kv (mod_ : option module) (ucmd_ctx : option sid_ucmd_ctx)
    (ns : sid_ucmd_kv_namespace_t) (key : option string)
    (value : option string) (value_size : nat) (flags : Z)
  : option string * option sid_ucmd_ctx :=
  match mod_, ucmd_ctx, key with
  | Some _, Some ctx, Some k =>
      if ns_eqb ns KV_NS_UNDEFINED || key_refused key then (None, ucmd_ctx)
      else
        let flags :=
          if ns_eqb ns KV_NS_UDEV then Z.lor flags (Z.lor KV_SYNC KV_PERSISTENT) else flags in
        let '(ret, ctx') :=
          _do_sid_ucmd_set_kv mod_ ctx (Some KV_KEY_DOM_USER) ns k flags value value_size in
        (ret, Some ctx')
  | _, _, _ => (None, ucmd_ctx)
  end.

(** What a lookup gives back: the returned pointer, as the payload bytes it
    points to, and the values written through [value_size] and [flags]
    ([None] when the function does not write them). *)
Record kv_get_result : Type := mk_get_result {
  gr_ret : option string;
  gr_value_size : option nat;
  gr_flags : option Z
}.

Definition kv_get_null : kv_get_result := mk_get_result None None None.

(** [_cmd_get_key_spec_value] reads the stored record as a
    [struct kv_value]; the result is [None] when the record is a vector,
    which is not one. *)
Definition _cmd_get_key_spec_value (mod_ : option module) (ucmd_ctx : sid_ucmd_ctx)
    (key_spec : kv_key_spec) : option kv_get_result :=
  let owner := _get_mod_name mod_ in
  let key := _compose_key key_spec in
  match kv_store_get_value (uc_kv_store ucmd_ctx) key with
  | None => Some kv_get_null
  | Some (KV_VECTOR _) => None
  | Some (KV_SCALAR svalue payload) =>
      if flag_test (vh_flags svalue) KV_MOD_PRIVATE
         && negb (strcmp (vh_owner svalue) owner =? 0)
      then Some kv_get_null
      else
        let size := String.length payload in
        Some (mk_get_result (if Nat.eqb size 0 then None else Some payload)
                            (Some size) (Some (vh_flags svalue)))
  end.

Definition _do_sid_ucmd_get_kv (mod_ : option module) (ucmd_ctx : sid_ucmd_ctx)
    (dom : option string) (ns : sid_ucmd_kv_namespace_t) (key : string)
  : option kv_get_result :=
  _cmd_get_key_spec_value mod_ ucmd_ctx
    (mk_key_spec KV_OP_SET (default ""%string dom) ns (_get_ns_part mod_ ucmd_ctx ns) "" "" key).

Definition sid_ucmd_get_kv (mod_ : option module) (ucmd_ctx : option sid_ucmd_ctx)
    (ns : sid_ucmd_kv_namespace_t) (key : option string) : option kv_get_result :=
  match mod_, ucmd_ctx, key with
  | Some _, Some ctx, Some k =>
      if ns_eqb ns KV_NS_UNDEFINED || key_refused key then Some kv_get_null
      else _do_sid_ucmd_get_kv mod_ ctx (Some KV_KEY_DOM_USER) ns k
  | _, _, _ => Some kv_get_null
  end.

(** ** Reservation of a key by a module *)

(** [struct sid_ucmd_common_ctx]: the store behind [kv_store_res] ([None]
    while the pointer is NULL) and [gennum]. *)
Record sid_ucmd_common_ctx : Type := mk_common_ctx {
  cc_kv_store_res : option kv_store;
  cc_gennum : Z
}.

(** [ucmd_ctx->common] *)
Definition uc_common (ucmd_ctx : sid_ucmd_ctx) : sid_ucmd_common_ctx :=
  mk_common_ctx (Some (uc_kv_store ucmd_ctx)) (uc_gennum ucmd_ctx).

Definition set_cc_kv_store (common : sid_ucmd_common_ctx) (s : kv_store) : sid_ucmd_common_ctx :=
  mk_common_ctx (Some s) (cc_gennum common).

Definition _kv_cb_reserve (spec : kv_store_update_spec) : Z * kv_store_update_spec :=
  match us_old_data spec with
  | None => (1, spec)
  | Some old =>
      let vvalue_old := _get_vvalue old in
      let vvalue_new := _get_vvalue (us_new_data spec) in
      if negb (strcmp (VVALUE_OWNER vvalue_old) (VVALUE_OWNER vvalue_new) =? 0)
      then (0, spec_set_ret_code spec (- EBUSY))
      else (1, spec_set_ret_code spec
                 (_check_kv_index_needed (Some vvalue_old) (Some vvalue_new)))
  end.

(** [_kv_cb_unreserve], a callback of [kv_store_unset]: it reads the stored
    record and the update argument only. *)
Definition _kv_cb_unreserve (old_data : option kv_record) (update_arg : kv_update_arg)
  : Z * kv_update_arg :=
  match old_data with
  | None => (1, update_arg)
  | Some old =>
      let vvalue_old := _get_vvalue old in
      if negb (strcmp (VVALUE_OWNER vvalue_old) (ua_owner update_arg) =? 0)
      then (0, set_ret_code update_arg (- EBUSY))
      else (1, set_ret_code update_arg (_check_kv_index_needed (Some vvalue_old) None))
  end.

(** The key of a reservation: no domain and no namespace part. *)
Definition reservation_key (ns : sid_ucmd_kv_namespace_t) (key_core : string) : string :=
  _compose_key (mk_key_spec KV_OP_SET "" ns "" "" "" key_core).

(** [_do_sid_ucmd_mod_reserve_kv].  [is_worker] is the result of
    [worker_control_is_worker(common->kv_store_res)].  The header-only
    vector is merged by the store ([KV_STORE_VALUE_OP_MERGE]) into one
    scalar record without payload; [null_int] is 0. *)
Definition _do_sid_ucmd_mod_reserve_kv (is_worker : bool) (mod_ : option module)
    (common : sid_ucmd_common_ctx) (ns : sid_ucmd_kv_namespace_t) (key_core : string)
    (unset : bool) : Z * sid_ucmd_common_ctx :=
  let owner := _get_mod_name mod_ in
  let flags0 := if unset then KV_FLAGS_UNSET else KV_MOD_RESERVED in
  let key := reservation_key ns key_core in
  match cc_kv_store_res common with
  | None => (-1, common)
  | Some s =>
      let update_arg := mk_update_arg owner rel_spec_null (- EREMOTEIO) in
      let flags := if is_worker then Z.lor flags0 (Z.lor KV_SYNC KV_PERSISTENT) else flags0 in
      if unset && negb is_worker then
        let '(r, _, s') := kv_store_unset s key _kv_cb_unreserve update_arg in
        if r <? 0 then (-1, set_cc_kv_store common s') else (0, set_cc_kv_store common s')
      else
        let '(stored, update_arg', s') :=
          kv_store_set_value s key
            (KV_SCALAR (mk_vheader (cc_gennum common) 0 flags owner) "")
            _kv_cb_reserve update_arg in
        match stored with
        | None => (-1, set_cc_kv_store common s')
        | Some _ => (0, set_cc_kv_store common (_manage_kv_index update_arg' key s'))
        end
  end.

Definition sid_ucmd_mod_reserve_kv (is_worker : bool) (mod_ : option module)
    (common : option sid_ucmd_common_ctx) (ns : sid_ucmd_kv_namespace_t) (key : option string)
  : Z * option sid_ucmd_common_ctx :=
  match mod_, common, key with
  | Some _, Some c, Some k =>
      if key_refused key then (- EINVAL, common)
      else
        let '(r, c') := _do_sid_ucmd_mod_reserve_kv is_worker mod_ c ns k false in
        (r, Some c')
  | _, _, _ => (- EINVAL, common)
  end.

Definition sid_ucmd_mod_unreserve_kv (is_worker : bool) (mod_ : option module)
    (common : option sid_ucmd_common_ctx) (ns : sid_ucmd_kv_namespace_t) (key : option string)
  : Z * option sid_ucmd_common_ctx :=
  match mod_, common, key with
  | Some _, Some c, Some k =>
      if key_refused key then (- EINVAL, common)
      else
        let '(r, c') := _do_sid_ucmd_mod_reserve_kv is_worker mod_ c ns k true in
        (r, Some c')
  | _, _, _ => (- EINVAL, common)
  end.

(** ** Reading the ready and reserved state of the device *)

Section DevState.
(** [*p_ready] and [*p_reserved]: the value that the stored bytes hold. *)
Variable dev_ready_of_bytes : string -> dev_ready_t.
Variable dev_reserved_of_bytes : string -> dev_reserved_t.

Definition sid_ucmd_dev_get_ready (mod_ : option module) (ucmd_ctx : option sid_ucmd_ctx)
  : option dev_ready_t :=
  match mod_, ucmd_ctx with
  | Some _, Some ctx =>
      res ← _do_sid_ucmd_get_kv None ctx None KV_NS_DEVICE KV_KEY_DEV_READY;
      Some (match gr_ret res with
            | None => DEV_NOT_RDY_UNPROCESSED
            | Some p_ready => dev_ready_of_bytes p_ready
            end)
  | _, _ => Some DEV_NOT_RDY_UNDEFINED
  end.

Definition sid_ucmd_dev_get_reserved (mod_ : option module) (ucmd_ctx : option sid_ucmd_ctx)
  : option dev_reserved_t :=
  match mod_, ucmd_ctx with
  | Some _, Some ctx =>
      res ← _do_sid_ucmd_get_kv None ctx None KV_NS_DEVICE KV_KEY_DEV_RESERVED;
      Some (match gr_ret res with
            | None => DEV_RES_UNPROCESSED
            | Some p_reserved => dev_reserved_of_bytes p_reserved
            end)
  | _, _ => Some DEV_RES_UNDEFINED
  end.
End DevState.

(** The key that [sid_ucmd_set_kv] and [sid_ucmd_get_kv] compose for a
    module. *)
Definition user_key (mod_ : option module) (ucmd_ctx : sid_ucmd_ctx)
    (ns : sid_ucmd_kv_namespace_t) (key : string) : string :=
  _compose_key (mk_key_spec KV_OP_SET KV_KEY_DOM_USER ns (_get_ns_part mod_ ucmd_ctx ns) "" "" key).

(** The flags that [sid_ucmd_set_kv] stores. *)
Definition user_flags (ns : sid_ucmd_kv_namespace_t) (flags : Z) : Z :=
  if ns_eqb ns KV_NS_UDEV then Z.lor flags (Z.lor KV_SYNC KV_PERSISTENT) else flags.

(** ** Groups of devices *)

Definition ENOTEMPTY : Z := 39.

Definition KV_KEY_GEN_GROUP_MEMBERS : string := "#GMB".
Definition KV_KEY_GEN_GROUP_IN : string := "#GIN".

Definition _kv_cb_write_new_only (spec : kv_store_update_spec) : Z * kv_store_update_spec :=
  match us_old_data spec with
  | Some _ => (0, spec)
  | None =>
      (1, spec_set_ret_code spec
            (_check_kv_index_needed None (Some (_get_vvalue (us_new_data spec)))))
  end.

(** [!mod || !ucmd_ctx || (group_ns == KV_NS_UNDEFINED) || !group_id || !*group_id] *)
Definition group_args_refused (mod_ : option module) (ucmd_ctx : option sid_ucmd_ctx)
    (group_ns : sid_ucmd_kv_namespace_t) (group_id : option string) : bool :=
  match mod_, ucmd_ctx, group_id with
  | Some _, Some _, Some id => ns_eqb group_ns KV_NS_UNDEFINED || Nat.eqb (String.length id) 0
  | _, _, _ => true
  end.

(** [sid_ucmd_group_create]: the group's record has no domain; it is a
    vector of the header alone, stored as a vector
    ([KV_STORE_VALUE_NO_OP]). *)
Definition sid_ucmd_group_create (mod_ : option module) (ucmd_ctx : option sid_ucmd_ctx)
    (group_ns : sid_ucmd_kv_namespace_t) (group_id : option string) (group_flags : Z)
  : Z * option sid_ucmd_ctx :=
  match mod_, ucmd_ctx, group_id with
  | Some _, Some ctx, Some id =>
      if group_args_refused mod_ ucmd_ctx group_ns group_id then (- EINVAL, ucmd_ctx)
      else
        let key_spec :=
          mk_key_spec KV_OP_SET "" group_ns (_get_ns_part mod_ ctx group_ns) id ""
                      KV_KEY_GEN_GROUP_MEMBERS in
        let update_arg := mk_update_arg (_get_mod_name mod_) rel_spec_null 0 in
        let key := _compose_key key_spec in
        let vvalue :=
          mk_vvalue (mk_vheader (uc_gennum ctx) (ud_seqnum (uc_udev ctx)) value_flags_sync
                                core_owner) [] in
        let '(stored, update_arg', s') :=
          kv_store_set_value (uc_kv_store ctx) key (KV_VECTOR vvalue)
                             _kv_cb_write_new_only update_arg in
        match stored with
        | None => (-1, Some (set_uc_kv_store ctx s'))
        | Some _ => (0, Some (set_uc_kv_store ctx (_manage_kv_index update_arg' key s')))
        end
  | _, _, _ => (- EINVAL, ucmd_ctx)
  end.

(** The key spec of the member list that [_handle_current_dev_for_group]
    works on (domain [USR]) and the key spec of the list of groups of the
    current device. *)
Definition group_members_spec (mod_ : option module) (ucmd_ctx : sid_ucmd_ctx)
    (group_ns : sid_ucmd_kv_namespace_t) (group_id : string) : kv_key_spec :=
  mk_key_spec KV_OP_SET KV_KEY_DOM_USER group_ns (_get_ns_part mod_ ucmd_ctx group_ns)
              group_id "" KV_KEY_GEN_GROUP_MEMBERS.

Definition group_in_spec (mod_ : option module) (ucmd_ctx : sid_ucmd_ctx) : kv_key_spec :=
  mk_key_spec KV_OP_SET "" KV_NS_DEVICE (_get_ns_part mod_ ucmd_ctx KV_NS_DEVICE) "" ""
              KV_KEY_GEN_GROUP_IN.

(** The call of [_kv_delta_set] in [_handle_current_dev_for_group]. *)
Definition group_member_delta_set (mod_ : option module) (ucmd_ctx : sid_ucmd_ctx)
    (group_ns : sid_ucmd_kv_namespace_t) (group_id : string) (op : kv_op_t) : delta_result :=
  let rel_spec :=
    mk_rel_spec (mk_delta op (Z.lor DELTA_WITH_DIFF DELTA_WITH_REL) None None None)
                delta_zero
                (group_members_spec mod_ ucmd_ctx group_ns group_id)
                (group_in_spec mod_ ucmd_ctx) in
  let update_arg := mk_update_arg OWNER_CORE rel_spec 0 in
  let key := _compose_key (rs_cur_key_spec rel_spec) in
  let rel_key_prefix := _compose_key_prefix (rs_rel_key_spec rel_spec) in
  let vvalue :=
    mk_vvalue (mk_vheader (uc_gennum ucmd_ctx) (ud_seqnum (uc_udev ucmd_ctx))
                          value_flags_no_sync core_owner)
              [rel_key_prefix] in
  _kv_delta_set kv_delta_set_depth key vvalue update_arg true (uc_kv_store ucmd_ctx).

(** [_handle_current_dev_for_group]: [r] is set to [-1] at its declaration
    and never again.  The result is [None] when the delta call has no
    defined result. *)
Definition _handle_current_dev_for_group (mod_ : option module) (ucmd_ctx : sid_ucmd_ctx)
    (group_ns : sid_ucmd_kv_namespace_t) (group_id : string) (op : kv_op_t)
  : option (Z * sid_ucmd_ctx) :=
  '(_, _, s') ← group_member_delta_set mod_ ucmd_ctx group_ns group_id op;
  Some (-1, set_uc_kv_store ucmd_ctx s').

Definition sid_ucmd_group_add_current_dev (mod_ : option module)
    (ucmd_ctx : option sid_ucmd_ctx) (group_ns : sid_ucmd_kv_namespace_t)
    (group_id : option string) : option (Z * option sid_ucmd_ctx) :=
  match mod_, ucmd_ctx, group_id with
  | Some _, Some ctx, Some id =>
      if group_args_refused mod_ ucmd_ctx group_ns group_id then Some (- EINVAL, ucmd_ctx)
      else
        '(r, ctx') ← _handle_current_dev_for_group mod_ ctx group_ns id KV_OP_PLUS;
        Some (r, Some ctx')
  | _, _, _ => Some (- EINVAL, ucmd_ctx)
  end.

Definition sid_ucmd_group_remove_current_dev (mod_ : option module)
    (ucmd_ctx : option sid_ucmd_ctx) (group_ns : sid_ucmd_kv_namespace_t)
    (group_id : option string) : option (Z * option sid_ucmd_ctx) :=
  match mod_, ucmd_ctx, group_id with
  | Some _, Some ctx, Some id =>
      if group_args_refused mod_ ucmd_ctx group_ns group_id then Some (- EINVAL, ucmd_ctx)
      else
        '(r, ctx') ← _handle_current_dev_for_group mod_ ctx group_ns id KV_OP_MINUS;
        Some (r, Some ctx')
  | _, _, _ => Some (- EINVAL, ucmd_ctx)
  end.

(** [kv_flags_sync_no_reserved]: [(DEFAULT_VALUE_FLAGS_CORE) & ~KV_MOD_RESERVED] *)
Definition kv_flags_sync_no_reserved : Z :=
  Z.land DEFAULT_VALUE_FLAGS_CORE (Z.lnot KV_MOD_RESERVED).

(** The key of the record that [sid_ucmd_group_create] and
    [sid_ucmd_group_destroy] work on: no domain. *)
Definition group_key (mod_ : option module) (ucmd_ctx : sid_ucmd_ctx)
    (group_ns : sid_ucmd_kv_namespace_t) (group_id : string) : string :=
  _compose_key (mk_key_spec KV_OP_SET "" group_ns (_get_ns_part mod_ ucmd_ctx group_ns)
                            group_id "" KV_KEY_GEN_GROUP_MEMBERS).

(** The call of [_kv_delta_set] in [sid_ucmd_group_destroy]; the namespace
    of the relative key spec is 0, that is [KV_NS_UNDEFINED]. *)
Definition group_destroy_delta_set (mod_ : option module) (ucmd_ctx : sid_ucmd_ctx)
    (group_ns : sid_ucmd_kv_namespace_t) (group_id : string) : delta_result :=
  let rel_spec :=
    mk_rel_spec (mk_delta KV_OP_SET (Z.lor DELTA_WITH_DIFF DELTA_WITH_REL) None None None)
                delta_zero
                (mk_key_spec KV_OP_SET "" group_ns (_get_ns_part mod_ ucmd_ctx group_ns)
                             group_id "" KV_KEY_GEN_GROUP_MEMBERS)
                (mk_key_spec KV_OP_SET "" KV_NS_UNDEFINED "" "" "" KV_KEY_GEN_GROUP_IN) in
  let update_arg := mk_update_arg OWNER_CORE rel_spec 0 in
  let vvalue :=
    mk_vvalue (mk_vheader (uc_gennum ucmd_ctx) (ud_seqnum (uc_udev ucmd_ctx))
                          kv_flags_sync_no_reserved core_owner) [] in
  _kv_delta_set kv_delta_set_depth (group_key mod_ ucmd_ctx group_ns group_id) vvalue
                update_arg true (uc_kv_store ucmd_ctx).

Section GroupDestroy.
(** [sizeof(struct kv_value)] *)
Variable sizeof_kv_value : nat.

(** The size that [kv_store_get_value] reports: the number of slots of a
    vector, the number of bytes of a scalar. *)
Definition kv_record_size (r : kv_record) : nat :=
  match r with
  | KV_VECTOR v => vsize v
  | KV_SCALAR h payload =>
      (sizeof_kv_value + (String.length (vh_owner h) + 1) + String.length payload)%nat
  end.

Definition sid_ucmd_group_destroy (mod_ : option module) (ucmd_ctx : option sid_ucmd_ctx)
    (group_ns : sid_ucmd_kv_namespace_t) (group_id : option string) (force : Z)
  : option (Z * option sid_ucmd_ctx) :=
  match mod_, ucmd_ctx, group_id with
  | Some _, Some ctx, Some id =>
      if group_args_refused mod_ ucmd_ctx group_ns group_id then Some (- EINVAL, ucmd_ctx)
      else
        match kv_store_get_value (uc_kv_store ctx) (group_key mod_ ctx group_ns id) with
        | None => Some (-1, ucmd_ctx)
        | Some found =>
            if Nat.ltb VVALUE_HEADER_CNT (kv_record_size found) && (force =? 0)
            then Some (- ENOTEMPTY, ucmd_ctx)
            else
              '(r, _, s') ← group_destroy_delta_set mod_ ctx group_ns id;
              Some (if r <? 0 then r else 0, Some (set_uc_kv_store ctx s'))
        end
  | _, _, _ => Some (- EINVAL, ucmd_ctx)
  end.
End GroupDestroy.

(** ** Vocabulary for the tokens of a string without quotes *)

(** The fields of a string: the runs of bytes between delimiters, none of
    them empty.  [n] bounds the number of fields, as in
    [iterate_tokens_loop]. *)
Fixpoint fields (n : nat) (str delims : string) : list string :=
  match n with
  | O => []
  | S n' =>
      match string_drop (strspn str delims) str with
      | EmptyString => []
      | String _ _ as str1 =>
          let len := strcspn str1 delims in
          String.substring 0 len str1 :: fields n' (string_drop len str1) delims
      end
  end.

(** A string without its delimiter bytes. *)
Fixpoint strip_delims (str delims : string) : string :=
  match str with
  | EmptyString => EmptyString
  | String c s' => if in_str c delims then strip_delims s' delims
                   else String c (strip_delims s' delims)
  end.

(** The strings of a list, one after the other. *)
Definition concat_strings (l : list string) : string := foldr String.append EmptyString l.

(** A string that is not empty and holds no delimiter. *)
Definition is_field (delims t : string) : Prop :=
  t <> EmptyString /\ strcspn t delims = String.length t.




(** * Properties *)

(** ** [strcmp] is a strict total order on C strings *)

Lemma string_compare_refl (a : string) : String.compare a a = Eq.
Proof.
  induction a as [|x a IH]; simpl; [done|].
  unfold Ascii.compare. by rewrite N.compare_refl.
Qed.

Lemma ascii_compare_lt_trans (a b c : ascii) :
  Ascii.compare a b = Lt -> Ascii.compare b c = Lt -> Ascii.compare a c = Lt.
Proof. unfold Ascii.compare. rewrite !N.compare_lt_iff. lia. Qed.

Lemma string_compare_lt_trans (a b c : string) :
  String.compare a b = Lt -> String.compare b c = Lt -> String.compare a c = Lt.
Proof.
  revert b c. induction a as [|x a IH]; intros [|y b] [|z c]; simpl; try done.
  destruct (Ascii.compare x y) eqn:Hxy; try done.
  - apply Ascii.compare_eq_iff in Hxy as ->.
    destruct (Ascii.compare y z) eqn:Hyz; try done. apply IH.
  - destruct (Ascii.compare y z) eqn:Hyz; try done.
    + apply Ascii.compare_eq_iff in Hyz as <-. by rewrite Hxy.
    + by rewrite (ascii_compare_lt_trans _ _ _ Hxy Hyz).
Qed.

Lemma strcmp_eq_iff (a b : string) : strcmp a b = 0 <-> a = b.
Proof.
  unfold strcmp. destruct (String.compare a b) eqn:H.
  - apply String.compare_eq_iff in H. done.
  - split; [done|]. intros ->. by rewrite string_compare_refl in H.
  - split; [done|]. intros ->. by rewrite string_compare_refl in H.
Qed.

Lemma strcmp_refl (a : string) : strcmp a a = 0.
Proof. by apply strcmp_eq_iff. Qed.

Lemma strcmp_antisym (a b : string) : strcmp b a = - strcmp a b.
Proof.
  unfold strcmp. rewrite (String.compare_antisym b a).
  by destruct (String.compare a b).
Qed.

Lemma strcmp_lt_trans (a b c : string) :
  strcmp a b < 0 -> strcmp b c < 0 -> strcmp a c < 0.
Proof.
  unfold strcmp.
  destruct (String.compare a b) eqn:Hab; try lia.
  destruct (String.compare b c) eqn:Hbc; try lia.
  by rewrite (string_compare_lt_trans _ _ _ Hab Hbc).
Qed.

Lemma strcmp_lt_irrefl (a : string) : ~ strcmp a a < 0.
Proof. rewrite strcmp_refl. lia. Qed.

(** ** The merge walk of [_delta_step_calc] and the spec's table *)

Lemma table_select_nil sel : table_select sel [] = [].
Proof. done. Qed.

Lemma table_select_cons sel c x w :
  table_select sel ((c, x) :: w) =
  if sel c then x :: table_select sel w else table_select sel w.
Proof.
  unfold table_select. rewrite filter_cons. simpl.
  destruct (decide (sel c = true)) as [->|Hn]; [done|].
  by destruct (sel c).
Qed.

Lemma buf_app_nil b : buf_app b [] = b.
Proof. destruct b as [[h l]|]; simpl; [by rewrite app_nil_r|done]. Qed.

Lemma buf_app_app b l1 l2 : buf_app (buf_app b l1) l2 = buf_app b (l1 ++ l2).
Proof. destruct b as [[h l]|]; simpl; [by rewrite <- app_assoc|done]. Qed.

Lemma sid_buffer_add_some v x :
  sid_buffer_add (Some v) x = buf_app (Some v) [x].
Proof. done. Qed.

Lemma walk_classify_nil_l n new :
  walk_classify [] (n :: new) = (ONLY_IN_NEW, n) :: walk_classify [] new.
Proof. done. Qed.

Lemma walk_classify_nil_r o old :
  walk_classify (o :: old) [] = (ONLY_IN_OLD, o) :: walk_classify old [].
Proof. done. Qed.

Lemma walk_classify_cons o old n new :
  walk_classify (o :: old) (n :: new) =
  if strcmp o n <? 0 then (ONLY_IN_OLD, o) :: walk_classify old (n :: new)
  else if 0 <? strcmp o n then (ONLY_IN_NEW, n) :: walk_classify (o :: old) new
  else (IN_BOTH, n) :: walk_classify old new.
Proof. done. Qed.

Lemma delta_walk_cons op o old n new d :
  delta_walk op (o :: old) (n :: new) d =
  if strcmp o n <? 0 then d' ← delta_old_only op o d; delta_walk op old (n :: new) d'
  else if 0 <? strcmp o n then d' ← delta_new_only op n d; delta_walk op (o :: old) new d'
  else d' ← delta_both op n d; delta_walk op old new d'.
Proof. done. Qed.

Lemma delta_walk_nil_l op n new d :
  delta_walk op [] (n :: new) d = d' ← delta_new_only op n d; delta_walk op [] new d'.
Proof. done. Qed.

Lemma delta_walk_nil_r op o old d :
  delta_walk op (o :: old) [] d = d' ← delta_old_only op o d; delta_walk op old [] d'.
Proof. done. Qed.

Lemma delta_walk_nil op d : delta_walk op [] [] d = Some d.
Proof. done. Qed.

#[local] Arguments delta_walk : simpl never.
#[local] Arguments walk_classify : simpl never.

Ltac delta_simpl :=
  unfold delta_old_only, delta_new_only, delta_both, add_plus, add_minus, add_final,
    set_delta_bufs; simpl.

(** The walk realises the table. *)
Lemma delta_walk_table op old new o fl vp m vf :
  op <> KV_OP_ILLEGAL ->
  (old <> [] -> is_Some m) ->
  let w := walk_classify old new in
  delta_walk op old new (mk_delta o fl (Some vp) m (Some vf)) =
  Some (mk_delta o fl
          (buf_app (Some vp) (table_select (table_plus op) w))
          (buf_app m (table_select (table_minus op) w))
          (buf_app (Some vf) (table_select (table_final op) w))).
Proof.
  intros Hop. revert new vp m vf.
  induction old as [|x old IHo]; intros new; induction new as [|n new IHn];
    intros vp m vf Hm.
  - rewrite delta_walk_nil. simpl. rewrite buf_app_nil. destruct vp, vf. simpl.
    by rewrite !app_nil_r.
  - rewrite delta_walk_nil_l. cbn zeta. rewrite walk_classify_nil_l.
    rewrite !table_select_cons.
    destruct op; try done; delta_simpl; rewrite IHn by done; simpl;
      by rewrite <- ?app_assoc.
  - rewrite delta_walk_nil_r. cbn zeta. rewrite walk_classify_nil_r.
    rewrite !table_select_cons.
    destruct Hm as [vm ->]; [done|].
    destruct op; try done; delta_simpl; rewrite IHo by eauto; simpl;
      by rewrite <- ?app_assoc.
  - rewrite delta_walk_cons. cbn zeta. rewrite walk_classify_cons.
    destruct Hm as [vm ->]; [done|].
    destruct (strcmp x n <? 0) eqn:Hlt; [|destruct (0 <? strcmp x n) eqn:Hgt];
      rewrite !table_select_cons.
    + destruct op; try done; delta_simpl; rewrite IHo by eauto; simpl;
        by rewrite <- ?app_assoc.
    + destruct op; try done; delta_simpl; rewrite IHn by eauto; simpl;
        by rewrite <- ?app_assoc.
    + destruct op; try done; delta_simpl; rewrite IHo by eauto; simpl;
        by rewrite <- ?app_assoc.
Qed.

Lemma strict_sorted_cons a l :
  strict_sorted (a :: l) <-> Forall (λ b, strcmp a b < 0) l /\ strict_sorted l.
Proof. apply StronglySorted_cons. Qed.

Lemma strict_sorted_head_notin a l : strict_sorted (a :: l) -> a ∉ l.
Proof.
  rewrite strict_sorted_cons, Forall_forall. intros [Hall _] Hin.
  specialize (Hall _ Hin). rewrite strcmp_refl in Hall. lia.
Qed.

Lemma strict_sorted_lt_notin a b l :
  strcmp a b < 0 -> strict_sorted (b :: l) -> a ∉ b :: l.
Proof.
  rewrite strict_sorted_cons, Forall_forall. intros Hab [Hall _] Hin.
  apply elem_of_cons in Hin as [->|Hin].
  - rewrite strcmp_refl in Hab. lia.
  - specialize (Hall _ Hin). pose proof (strcmp_lt_trans _ _ _ Hab Hall) as H.
    rewrite strcmp_refl in H. lia.
Qed.

Lemma strcmp_gt_lt a b : 0 < strcmp a b -> strcmp b a < 0.
Proof. rewrite (strcmp_antisym a b). lia. Qed.

Lemma elem_of_walk_classify_nil_l c x new :
  (c, x) ∈ walk_classify [] new <-> c = ONLY_IN_NEW /\ x ∈ new.
Proof.
  induction new as [|n new IH]; [rewrite elem_of_nil; set_solver|].
  rewrite walk_classify_nil_l, !elem_of_cons, IH. naive_solver.
Qed.

Lemma elem_of_walk_classify_nil_r c x old :
  (c, x) ∈ walk_classify old [] <-> c = ONLY_IN_OLD /\ x ∈ old.
Proof.
  induction old as [|o old IH]; [rewrite elem_of_nil; set_solver|].
  rewrite walk_classify_nil_r, !elem_of_cons, IH. naive_solver.
Qed.

(** On vectors sorted without repetition the walk classifies every item by
    its membership in the two vectors. *)
Lemma walk_classify_spec old new :
  strict_sorted old -> strict_sorted new ->
  forall c x,
    (c, x) ∈ walk_classify old new <->
    match c with
    | ONLY_IN_OLD => x ∈ old /\ x ∉ new
    | ONLY_IN_NEW => x ∈ new /\ x ∉ old
    | IN_BOTH => x ∈ old /\ x ∈ new
    end.
Proof.
  revert new. induction old as [|o old IHo]; intros new.
  - intros _ _ c x. rewrite elem_of_walk_classify_nil_l.
    destruct c; set_solver.
  - induction new as [|n new IHn]; intros Ho Hn c x.
    + rewrite elem_of_walk_classify_nil_r. destruct c; set_solver.
    + rewrite walk_classify_cons.
      pose proof (strict_sorted_head_notin _ _ Ho) as Hoo.
      pose proof (strict_sorted_head_notin _ _ Hn) as Hnn.
      pose proof Ho as Ho'. apply strict_sorted_cons in Ho' as [_ Ho'].
      pose proof Hn as Hn'. apply strict_sorted_cons in Hn' as [_ Hn'].
      destruct (strcmp o n <? 0) eqn:Hlt; [|destruct (0 <? strcmp o n) eqn:Hgt].
      * apply Z.ltb_lt in Hlt.
        pose proof (strict_sorted_lt_notin _ _ _ Hlt Hn) as Hon.
        rewrite elem_of_cons, (IHo (n :: new) Ho' Hn).
        destruct c; set_solver.
      * apply Z.ltb_lt in Hgt. apply strcmp_gt_lt in Hgt.
        pose proof (strict_sorted_lt_notin _ _ _ Hgt Ho) as Hno.
        rewrite elem_of_cons, (IHn Ho Hn').
        destruct c; set_solver.
      * assert (o = n) as ->.
        { apply strcmp_eq_iff. apply Z.ltb_ge in Hlt, Hgt. lia. }
        rewrite elem_of_cons, (IHo new Ho' Hn').
        destruct c; set_solver.
Qed.

Lemma elem_of_table_select sel w x :
  x ∈ table_select sel w <-> exists c, sel c = true /\ (c, x) ∈ w.
Proof.
  unfold table_select. rewrite list_elem_of_fmap. split.
  - intros [[c y] [-> Hin]]. apply list_elem_of_filter in Hin as [Hs Hin]. eauto.
  - intros [c [Hs Hin]]. exists (c, x). split; [done|].
    apply list_elem_of_filter. done.
Qed.

Lemma destroy_if_unused_some h l :
  destroy_if_unused (Some (mk_vvalue h l)) =
  match l with [] => None | _ => Some (mk_vvalue h l) end.
Proof. by destruct l. Qed.

Lemma delta_items_destroy_if_unused b :
  delta_items (destroy_if_unused b) = delta_items b.
Proof. destruct b as [[h [|x l]]|]; done. Qed.

(** What [_delta_step_calc] computes for a legal operation on a delta whose
    buffers are NULL on entry. *)
Lemma delta_step_calc_legal op fl old new :
  op <> KV_OP_ILLEGAL ->
  let w := walk_classify (delta_items old) (vv_data new) in
  let h := vv_header new in
  delta_step_calc (mk_delta op fl None None None) old new =
  (0, mk_delta op fl
        (destroy_if_unused (Some (mk_vvalue h (table_select (table_plus op) w))))
        (destroy_if_unused
           (match old with
            | Some _ => Some (mk_vvalue h (table_select (table_minus op) w))
            | None => None
            end))
        (Some (mk_vvalue h (table_select (table_final op) w)))).
Proof.
  intros Hop w h. unfold delta_step_calc, _init_delta_buffers, _init_delta_buffer.
  destruct new as [hn nitems]. destruct old as [[ho oitems]|];
    cbn -[destroy_if_unused]; unfold set_delta_bufs; cbn -[destroy_if_unused].
  - rewrite delta_walk_table; [done|done|eauto].
  - rewrite delta_walk_table; [done|done|done].
Qed.

(** For the SET operation the final vector is the new vector, whatever the
    stored one is. *)
Lemma table_final_set old new :
  table_select (table_final KV_OP_SET) (walk_classify old new) = new.
Proof.
  revert new. induction old as [|o old IHo]; intros new;
    induction new as [|n new IHn].
  - done.
  - rewrite walk_classify_nil_l, table_select_cons. simpl. by rewrite IHn.
  - rewrite walk_classify_nil_r, table_select_cons. simpl. apply IHo.
  - rewrite walk_classify_cons.
    destruct (strcmp o n <? 0); [|destruct (0 <? strcmp o n)];
      rewrite table_select_cons; simpl.
    + apply IHo.
    + by rewrite IHn.
    + by rewrite IHo.
Qed.

(** A vector walked against itself: every item is in both. *)
Lemma walk_classify_self l :
  walk_classify l l = (λ x, (IN_BOTH, x)) <$> l.
Proof.
  induction l as [|x l IH]; [done|].
  rewrite walk_classify_cons, strcmp_refl. simpl. by rewrite IH.
Qed.

Lemma table_select_both sel l :
  table_select sel ((λ x, (IN_BOTH, x)) <$> l) = if sel IN_BOTH then l else [].
Proof.
  induction l as [|x l IH].
  - by destruct (sel IN_BOTH).
  - rewrite fmap_cons, table_select_cons, IH. by destruct (sel IN_BOTH).
Qed.

(** With no stored items nothing goes to [minus]. *)
Lemma table_minus_no_old op new :
  table_select (table_minus op) (walk_classify [] new) = [].
Proof.
  induction new as [|n new IH]; [done|].
  rewrite walk_classify_nil_l, table_select_cons, IH. by destruct op.
Qed.

(** The local delta follows the table of the specification: on vectors
    sorted without repetition and a legal operation, [_delta_step_calc]
    succeeds and every item lands in [minus], [plus] and [final] exactly as
    the row of the operation says. *)
Theorem delta_step_calc_table (op : kv_op_t) (fl : Z) (old : option vvalue) (new : vvalue) :
  op <> KV_OP_ILLEGAL ->
  strict_sorted (delta_items old) ->
  strict_sorted (vv_data new) ->
  let O := delta_items old in
  let N := vv_data new in
  let r := fst (delta_step_calc (mk_delta op fl None None None) old new) in
  let d := snd (delta_step_calc (mk_delta op fl None None None) old new) in
  r = 0 /\
  forall x,
    (x ∈ delta_items (d_minus d) <->
       match op with
       | KV_OP_SET => x ∈ O /\ x ∉ N
       | KV_OP_MINUS => x ∈ O /\ x ∈ N
       | _ => False
       end) /\
    (x ∈ delta_items (d_plus d) <->
       match op with
       | KV_OP_SET | KV_OP_PLUS => x ∈ N /\ x ∉ O
       | _ => False
       end) /\
    (x ∈ delta_items (d_final d) <->
       match op with
       | KV_OP_SET => x ∈ N
       | KV_OP_PLUS => x ∈ O \/ x ∈ N
       | KV_OP_MINUS => x ∈ O /\ x ∉ N
       | KV_OP_ILLEGAL => False
       end).
Proof.
  intros Hop HO HN O N r d. subst r d.
  rewrite delta_step_calc_legal by done. cbn [fst snd d_plus d_minus d_final].
  split; [done|]. intros x.
  rewrite !delta_items_destroy_if_unused.
  pose proof (walk_classify_spec _ _ HO HN) as Hw. fold O N in Hw.
  assert (Hminus : delta_items
            match old with
            | Some _ => Some (mk_vvalue (vv_header new)
                          (table_select (table_minus op)
                             (walk_classify (delta_items old) (vv_data new))))
            | None => None
            end = table_select (table_minus op) (walk_classify O N)).
  { subst O N. destruct old as [v|]; [done|]. simpl.
    by rewrite table_minus_no_old. }
  rewrite Hminus. cbn [delta_items vv_data]. fold O N.
  rewrite !elem_of_table_select.
  repeat split.
  - intros [c [Hc Hin]]. apply Hw in Hin. destruct op, c; naive_solver.
  - intros H. destruct op; try done.
    + exists ONLY_IN_OLD. split; [done|]. by apply Hw.
    + exists IN_BOTH. split; [done|]. by apply Hw.
  - intros [c [Hc Hin]]. apply Hw in Hin. destruct op, c; naive_solver.
  - intros H. destruct op; try done; exists ONLY_IN_NEW; (split; [done|]); by apply Hw.
  - intros [c [Hc Hin]]. apply Hw in Hin. destruct op, c; naive_solver.
  - intros H. destruct op; try done.
    + destruct (decide (x ∈ O)).
      * exists IN_BOTH. split; [done|]. by apply Hw.
      * exists ONLY_IN_NEW. split; [done|]. by apply Hw.
    + destruct (decide (x ∈ O)); destruct (decide (x ∈ N)).
      * exists IN_BOTH. split; [done|]. by apply Hw.
      * exists ONLY_IN_OLD. split; [done|]. by apply Hw.
      * exists ONLY_IN_NEW. split; [done|]. by apply Hw.
      * naive_solver.
    + exists ONLY_IN_OLD. split; [done|]. by apply Hw.
Qed.

(** ** Ownership policy of [_kv_cb_overwrite] *)

Lemma strcmp_neq_0 (a b : string) : negb (strcmp a b =? 0) = true <-> a <> b.
Proof.
  rewrite negb_true_iff, Z.eqb_neq. by rewrite strcmp_eq_iff.
Qed.

Lemma flags_indicate_mod_owned_none (f : Z) :
  _flags_indicate_mod_owned f = 0 <->
  flag_test f KV_MOD_PRIVATE = false /\ flag_test f KV_MOD_PROTECTED = false /\
  flag_test f KV_MOD_RESERVED = false.
Proof.
  unfold _flags_indicate_mod_owned, flag_test.
  rewrite !negb_false_iff, !Z.eqb_eq.
  unfold KV_MOD_PROTECTED, KV_MOD_PRIVATE, KV_MOD_RESERVED. simpl Z.lor.
  split.
  - intros H. repeat split; apply Z.bits_inj'; intros n Hn;
      rewrite Z.land_spec, Z.bits_0;
      apply (f_equal (fun z => Z.testbit z n)) in H;
      rewrite Z.land_spec, Z.bits_0 in H;
      destruct (Z.testbit f n) eqn:Hb; try done; simpl in *.
    + destruct (Z.eq_dec n 2) as [->|]; [done|].
      change 4 with (2^2). rewrite Z.pow2_bits_false by done. done.
    + destruct (Z.eq_dec n 1) as [->|]; [done|].
      change 2 with (2^1). rewrite Z.pow2_bits_false by done. done.
    + destruct (Z.eq_dec n 3) as [->|]; [done|].
      change 8 with (2^3). rewrite Z.pow2_bits_false by done. done.
  - intros (H4 & H2 & H8). apply Z.bits_inj'; intros n Hn.
    rewrite Z.land_spec, Z.bits_0.
    apply (f_equal (fun z => Z.testbit z n)) in H4, H2, H8.
    rewrite Z.land_spec, Z.bits_0 in H4, H2, H8.
    destruct (Z.testbit f n) eqn:Hb; [|done]. simpl in *.
    change 14 with (Z.lor (Z.lor 2 4) 8). rewrite !Z.lor_spec.
    by rewrite H4, H2, H8.
Qed.

Lemma kv_cb_overwrite_eval (spec : kv_store_update_spec) :
  _kv_cb_overwrite spec =
  match us_old_data spec with
  | None =>
      (1, spec_set_ret_code spec
            (_check_kv_index_needed None (Some (_get_vvalue (us_new_data spec)))))
  | Some old =>
      if decide (overwrite_allowed old (us_new_data spec))
      then (1, spec_set_ret_code spec
                 (_check_kv_index_needed (Some (_get_vvalue old))
                                         (Some (_get_vvalue (us_new_data spec)))))
      else (0, spec_set_ret_code spec (- overwrite_errno (vh_flags (record_header old))))
  end.
Proof.
  unfold _kv_cb_overwrite, overwrite_allowed, overwrite_errno, record_header,
    VVALUE_FLAGS, VVALUE_OWNER.
  destruct (us_old_data spec) as [old|]; simpl; [|done].
  set (f := vh_flags (vv_header (_get_vvalue old))).
  set (oo := vh_owner (vv_header (_get_vvalue old))).
  set (no := vh_owner (vv_header (_get_vvalue (us_new_data spec)))).
  pose proof (flags_indicate_mod_owned_none f) as Hnone.
  destruct (negb (strcmp oo no =? 0)) eqn:Hcmp.
  - apply strcmp_neq_0 in Hcmp.
    destruct (flag_test f KV_MOD_PRIVATE) eqn:H4;
      [|destruct (flag_test f KV_MOD_PROTECTED) eqn:H2;
        [|destruct (flag_test f KV_MOD_RESERVED) eqn:H8]];
      case_decide as Hd; try done.
    + exfalso. destruct Hd as [Hd|Hd]; [|done]. apply Hnone in Hd. naive_solver.
    + exfalso. destruct Hd as [Hd|Hd]; [|done]. apply Hnone in Hd. naive_solver.
    + exfalso. destruct Hd as [Hd|Hd]; [|done]. apply Hnone in Hd. naive_solver.
    + exfalso. apply Hd. left. by apply Hnone.
  - apply negb_false_iff, Z.eqb_eq, strcmp_eq_iff in Hcmp.
    destruct (flag_test f KV_MOD_PRIVATE); [|destruct (flag_test f KV_MOD_PROTECTED);
      [|destruct (flag_test f KV_MOD_RESERVED)]];
      case_decide as Hd; try done; exfalso; apply Hd; by right.
Qed.

(** C3 (as stated, refuted): a record that is flagged [MOD_RESERVED] and
    also [MOD_PRIVATE], as every record the core writes with its default
    flags is, refuses a writer that is not its owner with [EACCES], not with
    [EBUSY]. *)
Lemma kv_cb_overwrite_reserved_private_eacces :
  let old := KV_SCALAR (mk_vheader 1 7 DEFAULT_VALUE_FLAGS_CORE OWNER_CORE) "1" in
  let new := KV_SCALAR (mk_vheader 1 8 KV_FLAGS_UNSET "dm_mpath") "2" in
  let s := mk_store {[ " ::D:8_0:::#RDY" := old ]} ∅ in
  let res := kv_store_set_value s " ::D:8_0:::#RDY" new _kv_cb_overwrite
               (mk_update_arg "dm_mpath" rel_spec_null (- EREMOTEIO)) in
  flag_test (vh_flags (record_header old)) KV_MOD_RESERVED = true /\
  vh_owner (record_header old) <> vh_owner (record_header new) /\
  res.1.1 = None /\
  ua_ret_code res.1.2 = - EACCES /\
  ua_ret_code res.1.2 <> - EBUSY.
Proof. vm_compute. repeat split; congruence. Qed.

(** C3: a write through [_kv_cb_overwrite] on an absent record
    commits; on an existing record it commits exactly when the record
    carries none of [MOD_PRIVATE], [MOD_PROTECTED], [MOD_RESERVED] or its
    owner is the writer; a refused write leaves the store as it is and
    reports [EACCES] when the record is flagged [MOD_PRIVATE], else [EPERM]
    when it is flagged [MOD_PROTECTED], else [EBUSY]. *)
Theorem kv_overwrite_policy (s : kv_store) (key : string) (new : kv_record)
    (arg : kv_update_arg) :
  let res := kv_store_set_value s key new _kv_cb_overwrite arg in
  match kv_main s !! key with
  | None => res.1.1 = Some new /\ kv_main res.2 !! key = Some new
  | Some old =>
      let f := vh_flags (record_header old) in
      (res.1.1 = Some new <-> overwrite_allowed old new) /\
      (res.1.1 = Some new -> kv_main res.2 !! key = Some new) /\
      (res.1.1 <> Some new ->
         res.1.1 = None /\ res.2 = s /\
         ua_ret_code res.1.2 =
           - (if flag_test f KV_MOD_PRIVATE then EACCES
              else if flag_test f KV_MOD_PROTECTED then EPERM
              else EBUSY))
  end.
Proof.
  intros res. subst res. unfold kv_store_set_value.
  rewrite kv_cb_overwrite_eval. cbn [us_old_data us_new_data].
  destruct (kv_main s !! key) as [old|] eqn:Hold.
  - case_decide as Hd; cbn.
    + rewrite lookup_insert_eq. naive_solver.
    + split; [naive_solver|]. split; [done|]. intros _.
      split; [done|]. split; [by destruct s|done].
  - cbn. by rewrite lookup_insert_eq.
Qed.

(** ** Illegal operation and idempotence of the local delta *)

(** The walk stops with an error at the first item when the operation is
    illegal. *)
Lemma delta_walk_illegal old new d :
  old <> [] \/ new <> [] -> delta_walk KV_OP_ILLEGAL old new d = None.
Proof.
  destruct old as [|o old], new as [|n new]; intros [H|H]; try done.
  all: rewrite ?delta_walk_cons, ?delta_walk_nil_l, ?delta_walk_nil_r; simpl;
    repeat case_match; done.
Qed.

Lemma delta_step_calc_illegal fl old new :
  delta_items old <> [] \/ vv_data new <> [] ->
  delta_step_calc (mk_delta KV_OP_ILLEGAL fl None None None) old new =
  (-1, mk_delta KV_OP_ILLEGAL fl None None None).
Proof.
  intros H. unfold delta_step_calc, _init_delta_buffers, _init_delta_buffer.
  destruct new as [hn nitems]. destruct old as [[ho oitems]|]; simpl in *;
    unfold set_delta_bufs; simpl; by rewrite delta_walk_illegal.
Qed.

(** An illegal operation aborts the mutation as soon as one of the two
    vectors has a data item. *)
Lemma kv_cb_delta_step_illegal_op_aborts key old new owner fl abs cur rel rc :
  delta_items (option_map _get_vvalue old) <> [] \/ vv_data (_get_vvalue new) <> [] ->
  let arg := mk_update_arg owner
               (mk_rel_spec (mk_delta KV_OP_ILLEGAL fl None None None) abs cur rel) rc in
  fst (_kv_cb_delta_step (mk_update_spec key old new arg)) = 0.
Proof.
  intros H arg. unfold _kv_cb_delta_step, _delta_step_calc. simpl.
  by rewrite delta_step_calc_illegal.
Qed.


(** C5: a SET of vector [v] on a key followed by a SET of the same [v]:
    the second mutation computes no [plus] and no [minus] buffer, its final
    vector is [v], and [v] is what the key holds. *)
Theorem delta_set_idempotent (s : kv_store) (key : string) (v : vvalue) (owner : string)
    (fl : Z) (abs : kv_delta) (cur rel : kv_key_spec) (rc : Z) :
  let arg := mk_update_arg owner
               (mk_rel_spec (mk_delta KV_OP_SET fl None None None) abs cur rel) rc in
  let first := kv_store_set_value s key (KV_VECTOR v) _kv_cb_delta_step arg in
  let second := kv_store_set_value first.2 key (KV_VECTOR v) _kv_cb_delta_step arg in
  let d := rs_delta (ua_custom second.1.2) in
  kv_main first.2 !! key = Some (KV_VECTOR v) /\
  d_plus d = None /\ d_minus d = None /\ d_final d = Some v /\
  second.1.1 = Some (KV_VECTOR v) /\
  kv_main second.2 !! key = Some (KV_VECTOR v).
Proof.
  intros arg first second d.
  assert (Hfirst : first = (Some (KV_VECTOR v),
                            set_delta arg (mk_delta KV_OP_SET fl
                               (destroy_if_unused (Some (mk_vvalue (vv_header v)
                                  (table_select (table_plus KV_OP_SET)
                                     (walk_classify
                                        (delta_items (option_map _get_vvalue (kv_main s !! key)))
                                        (vv_data v))))))
                               (destroy_if_unused
                                  match option_map _get_vvalue (kv_main s !! key) with
                                  | Some _ => Some (mk_vvalue (vv_header v)
                                      (table_select (table_minus KV_OP_SET)
                                         (walk_classify
                                            (delta_items (option_map _get_vvalue (kv_main s !! key)))
                                            (vv_data v))))
                                  | None => None
                                  end)
                               (Some v)),
                            mk_store (<[key := KV_VECTOR v]> (kv_main s)) (kv_alias s))).
  { subst first arg. unfold kv_store_set_value, _kv_cb_delta_step, _delta_step_calc.
    cbn [us_arg us_old_data us_new_data ua_custom rs_delta _get_vvalue].
    rewrite delta_step_calc_legal by done. rewrite table_final_set.
    destruct v as [h items]. done. }
  subst d second. rewrite Hfirst. cbn [fst snd kv_main].
  rewrite lookup_insert_eq. split; [done|].
  subst arg. unfold kv_store_set_value, _kv_cb_delta_step, _delta_step_calc.
  cbn [us_arg us_old_data us_new_data ua_custom rs_delta _get_vvalue kv_main].
  rewrite lookup_insert_eq.
  cbn [option_map _get_vvalue]. rewrite delta_step_calc_legal by done.
  cbn [delta_items vv_data vv_header].
  rewrite walk_classify_self, !table_select_both.
  destruct v as [h items]. cbn. rewrite lookup_insert_eq. done.
Qed.

(** ** Size accounting of the absolute delta *)

Lemma bitmap_count_app (a b : bitmap) :
  bitmap_get_bit_set_count (a ++ b) =
  (bitmap_get_bit_set_count a + bitmap_get_bit_set_count b)%nat.
Proof. unfold bitmap_get_bit_set_count. by rewrite filter_app, length_app. Qed.

Lemma bitmap_count_create (n : nat) :
  bitmap_get_bit_set_count (bitmap_create n true) = n.
Proof.
  unfold bitmap_get_bit_set_count, bitmap_create.
  induction n as [|n IH]; [done|]. cbn [replicate]. rewrite filter_cons.
  case_decide; [simpl; by rewrite IH|done].
Qed.

(** The bits from [i] on that are set are as many as the items that the
    copying loop selects. *)
Lemma bitmap_count_items (items : list string) (bmp : bitmap) (i : nat) :
  length bmp = (i + length items)%nat ->
  bitmap_get_bit_set_count bmp =
  (bitmap_get_bit_set_count (take i bmp) + length (items_with_bit_set items bmp i))%nat.
Proof.
  revert i. induction items as [|x items IH]; intros i Hlen; simpl in *.
  - rewrite take_ge by lia. lia.
  - rewrite (IH (S i)) by lia.
    assert (Hi : (i < length bmp)%nat) by lia.
    destruct (lookup_lt_is_Some_2 bmp i Hi) as [b Hb].
    rewrite (take_S_r bmp i b Hb), bitmap_count_app.
    unfold bitmap_bit_is_set. rewrite Hb. simpl.
    destruct b; unfold bitmap_get_bit_set_count; rewrite filter_cons;
      case_decide; try done; simpl; lia.
Qed.

(** [cross_walk] only ever clears bits at the positions it has reached. *)
Lemma cross_walk_some old new i j ob nb :
  exists ob' nb',
    cross_walk old new i j (Some ob) (Some nb) = (Some ob', Some nb') /\
    length ob' = length ob /\ length nb' = length nb /\
    take i ob' = take i ob /\ take j nb' = take j nb.
Proof.
  revert new i j ob nb. induction old as [|o old IHo]; intros new.
  - intros i j ob nb. exists ob, nb. by destruct new.
  - induction new as [|n new IHn]; intros i j ob nb.
    + by exists ob, nb.
    + cbn [cross_walk]. fold cross_walk.
      destruct (strcmp o n <? 0); [|destruct (0 <? strcmp o n)].
      * destruct (IHo (n :: new) (S i) j ob nb) as (ob' & nb' & -> & ? & ? & Hi & ?).
        exists ob', nb'. repeat split; try done.
        apply (f_equal (take i)) in Hi. rewrite !take_take in Hi.
        by replace (i `min` S i)%nat with i in Hi by lia.
      * destruct (IHn i (S j) ob nb) as (ob' & nb' & Heq & ? & ? & ? & Hj).
        exists ob', nb'. repeat split; try done.
        apply (f_equal (take j)) in Hj. rewrite !take_take in Hj.
        by replace (j `min` S j)%nat with j in Hj by lia.
      * simpl option_map.
        destruct (IHo new (S i) (S j) (bitmap_bit_unset ob i) (bitmap_bit_unset nb j))
          as (ob' & nb' & -> & Ho & Hn & Hi & Hj).
        exists ob', nb'. unfold bitmap_bit_unset in *.
        rewrite length_insert in Ho, Hn. repeat split; try done.
        -- apply (f_equal (take i)) in Hi. rewrite !take_take in Hi.
           replace (i `min` S i)%nat with i in Hi by lia.
           by rewrite take_insert_ge in Hi by lia.
        -- apply (f_equal (take j)) in Hj. rewrite !take_take in Hj.
           replace (j `min` S j)%nat with j in Hj by lia.
           by rewrite take_insert_ge in Hj by lia.
Qed.

Lemma bmp_fits_create v :
  bmp_fits (Some v) (Some (bitmap_create (vsize v) true)).
Proof.
  split; [apply length_replicate|]. unfold bitmap_create, vsize.
  by rewrite take_replicate_add.
Qed.

Lemma bmp_fits_cross_calc old new :
  let cross :=
    _delta_cross_bitmap_calc
      (mk_cross old (option_map (λ v, bitmap_create (vsize v) true) old)
                (Some new) (Some (bitmap_create (vsize new) true))) in
  cr_old_vvalue cross = old /\ cr_new_vvalue cross = Some new /\
  bmp_fits old (cr_old_bmp cross) /\ bmp_fits (Some new) (cr_new_bmp cross).
Proof.
  unfold _delta_cross_bitmap_calc. cbn [cr_old_vvalue cr_old_bmp cr_new_vvalue cr_new_bmp].
  destruct old as [old|]; cbn [option_map delta_items].
  - destruct (cross_walk_some (vv_data old) (vv_data new) VVALUE_HEADER_CNT VVALUE_HEADER_CNT
                (bitmap_create (vsize old) true) (bitmap_create (vsize new) true))
      as (ob & nb & -> & Hlo & Hln & Hto & Htn).
    cbn [cr_old_vvalue cr_old_bmp cr_new_vvalue cr_new_bmp bmp_fits].
    split; [done|]. split; [done|]. split; split.
    + rewrite Hlo. apply length_replicate.
    + rewrite Hto. apply bmp_fits_create.
    + rewrite Hln. apply length_replicate.
    + rewrite Htn. apply bmp_fits_create.
  - assert (cross_walk [] (vv_data new) VVALUE_HEADER_CNT VVALUE_HEADER_CNT None
              (Some (bitmap_create (vsize new) true)) =
            (None, Some (bitmap_create (vsize new) true))) as -> by (by destruct (vv_data new)).
    cbn [cr_old_vvalue cr_old_bmp cr_new_vvalue cr_new_bmp bmp_fits].
    split; [done|]. split; [done|]. split; [done|]. apply bmp_fits_create.
Qed.

Lemma bmp_fits_count v bmp :
  bmp_fits v bmp ->
  bmp_count bmp =
  match v with
  | Some _ => (VVALUE_HEADER_CNT + length (selected_items v bmp))%nat
  | None => O
  end.
Proof.
  destruct v as [v|], bmp as [b|]; try done. intros [Hlen Htake].
  unfold bmp_count, selected_items.
  rewrite (bitmap_count_items (vv_data v) b VVALUE_IDX_DATA) by done.
  change VVALUE_IDX_DATA with VVALUE_HEADER_CNT. by rewrite Htake.
Qed.

Lemma bmp_fits_none_iff v bmp : bmp_fits v bmp -> (bmp = None <-> v = None).
Proof. destruct v, bmp; naive_solver. Qed.

Lemma sid_buffer_add_all_some v l :
  sid_buffer_add_all (Some v) l = Some (Some (mk_vvalue (vv_header v) (vv_data v ++ l))).
Proof.
  revert v. induction l as [|x l IH]; intros [h items]; simpl.
  - by rewrite app_nil_r.
  - rewrite IH. simpl. by rewrite <- app_assoc.
Qed.

Lemma sid_buffer_add_all_nil b : sid_buffer_add_all b [] = Some b.
Proof. done. Qed.


Lemma selected_items_none_l bmp : selected_items None bmp = [].
Proof. done. Qed.

Lemma abs_calc_cross1_fits ua s :
  let c := abs_calc_cross1 ua s in
  cr_new_vvalue c = d_minus (rs_delta (ua_custom ua)) /\
  bmp_fits (cr_old_vvalue c) (cr_old_bmp c) /\ bmp_fits (cr_new_vvalue c) (cr_new_bmp c).
Proof.
  unfold abs_calc_cross1.
  destruct (d_minus (rs_delta (ua_custom ua))) as [m|].
  - destruct (bmp_fits_cross_calc
                (kv_store_get_vvalue s
                   (_compose_key (set_ks_op (rs_cur_key_spec (ua_custom ua)) KV_OP_PLUS))) m)
      as (Ho & Hn & Hfo & Hfn).
    cbn zeta in *. by rewrite Ho, Hn.
  - cbn. split; [done|]. split; [|done].
    destruct (kv_store_get_vvalue _ _) as [v|]; [apply bmp_fits_create|done].
Qed.

Lemma abs_calc_cross2_fits ua s :
  let c := abs_calc_cross2 ua s in
  cr_new_vvalue c = d_plus (rs_delta (ua_custom ua)) /\
  bmp_fits (cr_old_vvalue c) (cr_old_bmp c) /\ bmp_fits (cr_new_vvalue c) (cr_new_bmp c).
Proof.
  unfold abs_calc_cross2.
  destruct (d_plus (rs_delta (ua_custom ua))) as [m|].
  - destruct (bmp_fits_cross_calc
                (kv_store_get_vvalue s
                   (_compose_key (set_ks_op (rs_cur_key_spec (ua_custom ua)) KV_OP_MINUS))) m)
      as (Ho & Hn & Hfo & Hfn).
    cbn zeta in *. by rewrite Ho, Hn.
  - cbn. split; [done|]. split; [|done].
    destruct (kv_store_get_vvalue _ _) as [v|]; [apply bmp_fits_create|done].
Qed.

(** The computed size of one side is 0 when both vectors are missing and
    otherwise the header plus the items that keep their bit. *)
Lemma abs_delta_vsize_fits va ba vb bb :
  bmp_fits va ba -> bmp_fits vb bb ->
  abs_delta_vsize ba bb =
  if either_present va vb
  then (VVALUE_HEADER_CNT + (length (selected_items va ba) + length (selected_items vb bb)))%nat
  else O.
Proof.
  intros Ha Hb. unfold abs_delta_vsize.
  rewrite (bmp_fits_count _ _ Ha), (bmp_fits_count _ _ Hb).
  destruct va, vb, ba, bb; try done; cbn [either_present selected_items length];
    unfold VVALUE_HEADER_CNT, VVALUE_IDX_DATA; lia.
Qed.

Lemma init_abs_buffer vh va vb n :
  _init_delta_buffer vh None
    (if either_present va vb then (VVALUE_HEADER_CNT + n)%nat else O) =
  (0, abs_buffer vh va vb []).
Proof. by destruct va, vb. Qed.

Lemma add_all_abs_buffer vh va vb ba items :
  bmp_fits va ba -> 
  sid_buffer_add_all (abs_buffer vh va vb items) (selected_items va ba) =
  Some (abs_buffer vh va vb (items ++ selected_items va ba)).
Proof.
  intros Ha. destruct va as [a|], vb as [b|], ba as [x|]; try done;
    unfold abs_buffer; cbn [either_present].
  all: try (by rewrite sid_buffer_add_all_some).
  all: cbn [selected_items]; by rewrite ?app_nil_r.
Qed.

Lemma add_all_abs_buffer_r vh va vb bb items :
  bmp_fits vb bb -> 
  sid_buffer_add_all (abs_buffer vh va vb items) (selected_items vb bb) =
  Some (abs_buffer vh va vb (items ++ selected_items vb bb)).
Proof.
  intros Hb. destruct va as [a|], vb as [b|], bb as [x|]; try done;
    unfold abs_buffer; cbn [either_present].
  all: try (by rewrite sid_buffer_add_all_some).
  all: cbn [selected_items]; by rewrite ?app_nil_r.
Qed.

(** What [_delta_abs_calc] leaves in [abs_delta] when the local delta has a
    [plus] or a [minus] buffer and the buffers of [abs_delta] are NULL on
    entry. *)
Lemma delta_abs_calc_eval vheader owner rc delta aop afl cur rel s :
  is_Some (d_plus delta) \/ is_Some (d_minus delta) ->
  let ua := mk_update_arg owner
              (mk_rel_spec delta (mk_delta aop afl None None None) cur rel) rc in
  let c1 := abs_calc_cross1 ua s in
  let c2 := abs_calc_cross2 ua s in
  _delta_abs_calc vheader ua s =
  (0, set_abs_delta ua
        (mk_delta aop (if flag_test (d_flags delta) DELTA_WITH_REL
                       then Z.lor afl DELTA_WITH_REL else afl)
           (qsort_buffer (abs_buffer vheader (cr_old_vvalue c1) (cr_new_vvalue c2)
                            (selected_items (cr_old_vvalue c1) (cr_old_bmp c1) ++
                             selected_items (cr_new_vvalue c2) (cr_new_bmp c2))))
           (qsort_buffer (abs_buffer vheader (cr_new_vvalue c1) (cr_old_vvalue c2)
                            (selected_items (cr_new_vvalue c1) (cr_new_bmp c1) ++
                             selected_items (cr_old_vvalue c2) (cr_old_bmp c2))))
           None)).
Proof.
  intros Hd ua c1 c2.
  destruct (abs_calc_cross1_fits ua s) as (Hn1 & Hfo1 & Hfn1).
  destruct (abs_calc_cross2_fits ua s) as (Hn2 & Hfo2 & Hfn2).
  fold c1 in Hn1, Hfo1, Hfn1. fold c2 in Hn2, Hfo2, Hfn2.
  unfold _delta_abs_calc. fold c1 c2.
  cbn [ua_custom ua rs_delta rs_abs_delta].
  assert (Hmatch : forall A (x y : A),
            match d_plus delta, d_minus delta with
            | None, None => x
            | _, _ => y
            end = y).
  { intros A x y. destruct Hd as [[? ->]|[? ->]]; [done|]. by destruct (d_plus delta). }
  rewrite Hmatch. clear Hmatch.
  rewrite (abs_delta_vsize_fits _ _ _ _ Hfo2 Hfn1), (abs_delta_vsize_fits _ _ _ _ Hfo1 Hfn2).
  unfold _init_delta_buffers. cbn [d_plus d_minus d_final].
  rewrite (init_abs_buffer vheader (cr_old_vvalue c1) (cr_new_vvalue c2)).
  cbn [Z.ltb Z.compare].
  rewrite (init_abs_buffer vheader (cr_old_vvalue c2) (cr_new_vvalue c1)).
  cbn -[abs_buffer selected_items qsort_buffer flag_test either_present].
  unfold set_delta_bufs. cbn [d_op d_flags d_plus d_minus d_final].
  destruct (flag_test (d_flags delta) DELTA_WITH_REL);
    cbn [d_op d_flags d_plus d_minus d_final];
    rewrite (add_all_abs_buffer vheader _ _ _ [] Hfo1);
    cbn [mbind option_bind];
    rewrite (add_all_abs_buffer_r vheader (cr_old_vvalue c2) _ _ [] Hfn1);
    cbn [mbind option_bind];
    rewrite (add_all_abs_buffer vheader (cr_old_vvalue c2) _ _ _ Hfo2);
    cbn [mbind option_bind];
    rewrite (add_all_abs_buffer_r vheader _ _ _ _ Hfn2);
    cbn [mbind option_bind app];
    destruct (cr_old_vvalue c1), (cr_new_vvalue c2), (cr_old_vvalue c2), (cr_new_vvalue c1);
    unfold abs_buffer; cbn [either_present]; try done.
Qed.






(** ** Capability gating of the scan phases *)












(** ** Protocol mismatch *)

Section ProtocolFacts.
Variable SID_PROTOCOL : Z.
Variable SID_MSG_HEADER_SIZE : nat.
Variable _SID_CMD_END : Z.
Variable reply_add_result : Z.
Variable reply_write_result : Z.
Variable init_command_rest : sid_msg -> bool.

(** [_check_msg] sanitizes the command number only. *)
Lemma check_msg_prot on_connection peer_is_root msg :
  mh_prot (msg_header (_check_msg SID_MSG_HEADER_SIZE _SID_CMD_END
                                  on_connection peer_is_root msg).2)
  = mh_prot (msg_header msg).
Proof.
  unfold _check_msg.
  destruct (Nat.ltb _ _); [done|].
  destruct (msg_cat msg); simpl; [done| |].
  - by destruct (_ || _).
  - destruct (_ || _); simpl; by repeat (destruct (negb _); simpl).
Qed.

Lemma init_command_mismatch msg :
  mh_prot (msg_header msg) <> SID_PROTOCOL ->
  _init_command SID_PROTOCOL init_command_rest msg = (-1, None).
Proof.
  intros Hne. unfold _init_command. simpl.
  by destruct (Z.eqb_spec (mh_prot (msg_header msg)) SID_PROTOCOL).
Qed.

Lemma create_command_resource_mismatch on_connection peer_is_root msg :
  mh_prot (msg_header msg) <> SID_PROTOCOL ->
  _create_command_resource SID_PROTOCOL SID_MSG_HEADER_SIZE _SID_CMD_END init_command_rest
                           on_connection peer_is_root msg = (-1, None).
Proof.
  intros Hne. unfold _create_command_resource.
  pose proof (check_msg_prot on_connection peer_is_root msg) as Hp.
  destruct (_check_msg _ _ _ _ _) as [r msg']. simpl in Hp.
  destruct (r <? 0); [done|].
  rewrite init_command_mismatch; [done|]. by rewrite Hp.
Qed.

Lemma reply_failure_newer request conn :
  SID_PROTOCOL < mh_prot request ->
  _reply_failure SID_PROTOCOL reply_add_result reply_write_result request conn = (-1, conn).
Proof.
  intros Hlt. unfold _reply_failure.
  destruct (Z.leb_spec (mh_prot request) SID_PROTOCOL); [lia|done].
Qed.
End ProtocolFacts.

(** A request of protocol 3 to a daemon of protocol 2: no buffer is written
    to the connection, the connection is cleaned up and no command exists. *)
Lemma protocol_newer_no_reply :
  let request := mk_sid_msg MSG_CATEGORY_CLIENT 4 (mk_msg_header 0 3 6 0) "" in
  _on_connection_event 2 4%nat 9 0 0 (fun _ => true) true request (mk_connection [] false)
  = (-1, mk_connection [] true, None).
Proof. reflexivity. Qed.

(** C7: a request whose protocol is not the daemon's creates no command,
    so none is executed.  When the request's protocol is above the daemon's,
    in particular [SID_PROTOCOL + 1], the handler writes nothing to the
    connection, cleans the connection up and returns [-1]. *)
Theorem protocol_mismatch_no_command
    (SID_PROTOCOL : Z) (SID_MSG_HEADER_SIZE : nat) (_SID_CMD_END : Z)
    (reply_add_result reply_write_result : Z) (init_command_rest : sid_msg -> bool)
    (peer_is_root : bool) (msg : sid_msg) (conn : connection) :
  mh_prot (msg_header msg) <> SID_PROTOCOL ->
  let res := _on_connection_event SID_PROTOCOL SID_MSG_HEADER_SIZE _SID_CMD_END
               reply_add_result reply_write_result init_command_rest peer_is_root msg conn in
  res.2 = None /\
  (SID_PROTOCOL < mh_prot (msg_header msg) ->
   res = (-1, mk_connection (conn_written conn) true, None)).
Proof.
  intros Hne res. subst res. unfold _on_connection_event.
  rewrite create_command_resource_mismatch; [|done]. simpl.
  split.
  - destruct (_reply_failure _ _ _ _ _) as [r' conn']. by destruct (r' <? 0).
  - intros Hlt. by rewrite reply_failure_newer.
Qed.

Lemma protocol_mismatch_no_command_witness :
  let request := mk_sid_msg MSG_CATEGORY_CLIENT 4 (mk_msg_header 0 3 6 0) "" in
  mh_prot (msg_header request) <> 2 /\
  (_on_connection_event 2 4%nat 9 0 0 (fun _ => true) true request
                        (mk_connection [] false)).2 = None.
Proof.
  intros request.
  assert (H : mh_prot (msg_header request) <> 2) by (vm_compute; discriminate).
  split; [exact H|].
  exact (proj1 (protocol_mismatch_no_command 2 4%nat 9 0 0 (fun _ => true) true request
                  (mk_connection [] false) H)).
Defined.

(** ** Import of the udev environment *)




Lemma substring_all (a : string) : String.substring 0 (String.length a) a = a.
Proof. induction a as [|c a IH]; simpl; [done|by rewrite IH]. Qed.


Lemma kv_cb_overwrite_new_data spec :
  us_new_data (_kv_cb_overwrite spec).2 = us_new_data spec.
Proof.
  unfold _kv_cb_overwrite.
  destruct (option_map _get_vvalue (us_old_data spec)) as [old|]; [|done].
  repeat (match goal with |- context [if ?b then _ else _] => destruct b end; try done).
Qed.

Lemma manage_kv_index_main update_arg key s :
  kv_main (_manage_kv_index update_arg key s) = kv_main s.
Proof.
  unfold _manage_kv_index, kv_store_add_alias, kv_store_unset_alias.
  by repeat (match goal with |- context [if ?b then _ else _] => destruct b end).
Qed.









(** ** Merge into the main store *)

Lemma kv_cb_main_set_eval spec :
  (_kv_cb_main_set spec).1
  = match us_old_data spec with
    | None => 1
    | Some old =>
        if decide (record_seqnum old <= record_seqnum (us_new_data spec)
                   /\ overwrite_allowed old (us_new_data spec))
        then 1 else 0
    end
  /\ us_new_data (_kv_cb_main_set spec).2 = us_new_data spec.
Proof.
  unfold _kv_cb_main_set, record_seqnum, record_header, VVALUE_SEQNUM.
  destruct (us_old_data spec) as [old|] eqn:Hold; simpl; [|done].
  destruct (Z.leb_spec (vh_seqnum (vv_header (_get_vvalue old)))
                       (vh_seqnum (vv_header (_get_vvalue (us_new_data spec))))) as [Hle|Hlt].
  - rewrite kv_cb_overwrite_eval, Hold.
    destruct (decide (overwrite_allowed old (us_new_data spec))) as [Ha|Ha]; simpl.
    + split; [|done]. by rewrite decide_True.
    + split; [|done]. rewrite decide_False; [done|]. tauto.
  - split; [|done]. rewrite decide_False; [done|]. lia.
Qed.

(** The write of a whole record through [_kv_cb_main_set]. *)
Lemma kv_store_set_value_main_set s rec update_arg :
  exists stored update_arg' s',
    kv_store_set_value s (sr_key rec) (sr_value rec) _kv_cb_main_set update_arg
    = (stored, update_arg', s') /\
    ((main_set_applies s rec /\
      s' = mk_store (<[sr_key rec := sr_value rec]> (kv_main s)) (kv_alias s)) \/
     (~ main_set_applies s rec /\ s' = s)).
Proof.
  unfold kv_store_set_value, main_set_applies, kv_store_get_value.
  pose proof (kv_cb_main_set_eval
                (mk_update_spec (sr_key rec) (kv_main s !! sr_key rec) (sr_value rec)
                                update_arg)) as [Hr Hnew].
  destruct (_kv_cb_main_set _) as [r spec']. simpl in Hr, Hnew. subst r.
  destruct (kv_main s !! sr_key rec) as [old|]; simpl.
  - destruct (decide (_ /\ _)) as [Ha|Ha]; simpl; rewrite ?Hnew; eauto 10.
  - rewrite Hnew. eauto 10.
Qed.

(** The step of the loop on a record that is written as a whole. *)
Lemma sync_one_record_set rec update_arg s :
  sync_record_is_set rec = true ->
  exists update_arg' s',
    sync_one_record rec update_arg s = Some (Some (update_arg', s')) /\
    ((main_set_applies s rec /\
      s' = mk_store (<[sr_key rec := sr_value rec]> (kv_main s)) (kv_alias s)) \/
     (~ main_set_applies s rec /\ s' = s)).
Proof.
  unfold sync_record_is_set, sync_one_record.
  intros [Hunset Hop]%andb_prop. apply negb_true_iff in Hunset. rewrite Hunset.
  assert (Hset : forall ua,
    exists update_arg' s',
      (let '(_, a, s') := kv_store_set_value s (sr_key rec) (sr_value rec) _kv_cb_main_set ua in
       Some (Some (a, s'))) = Some (Some (update_arg', s')) /\
      ((main_set_applies s rec /\
        s' = mk_store (<[sr_key rec := sr_value rec]> (kv_main s)) (kv_alias s)) \/
       (~ main_set_applies s rec /\ s' = s))).
  { intros ua.
    destruct (kv_store_set_value_main_set s rec ua) as (stored & ua' & s' & -> & Hs').
    eauto. }
  destruct (sr_value rec) as [h payload|v] eqn:Hval.
  - apply Hset.
  - destruct (_get_op_from_key (sr_key rec)); first [done | apply Hset].
Qed.

Lemma seqnum_not_lowered_refl s : seqnum_not_lowered s s.
Proof. intros key old Hold. exists old. split; [done|lia]. Qed.

Lemma seqnum_not_lowered_trans s1 s2 s3 :
  seqnum_not_lowered s1 s2 -> seqnum_not_lowered s2 s3 -> seqnum_not_lowered s1 s3.
Proof.
  intros H12 H23 key old Hold.
  destruct (H12 key old Hold) as (r & Hr & Hle).
  destruct (H23 key r Hr) as (r' & Hr' & Hle').
  exists r'. split; [done|lia].
Qed.

Lemma seqnum_not_lowered_set s rec :
  main_set_applies s rec ->
  seqnum_not_lowered s (mk_store (<[sr_key rec := sr_value rec]> (kv_main s)) (kv_alias s)).
Proof.
  unfold main_set_applies, seqnum_not_lowered, kv_store_get_value. simpl.
  intros Happ key old Hold.
  destruct (decide (sr_key rec = key)) as [<-|Hne].
  - rewrite lookup_insert_eq. rewrite Hold in Happ. exists (sr_value rec). tauto.
  - rewrite lookup_insert_ne; [|done]. exists old. split; [done|lia].
Qed.

Lemma sync_records_set recs : forall update_arg s,
  Forall (fun rec => sync_record_is_set rec = true) recs ->
  exists s', sync_records recs update_arg s = Some (0, s') /\ seqnum_not_lowered s s'.
Proof.
  induction recs as [|rec recs IH]; intros update_arg s Hall; simpl.
  - exists s. split; [done|apply seqnum_not_lowered_refl].
  - apply Forall_cons in Hall as [Hrec Hall].
    destruct (sync_one_record_set rec update_arg s Hrec) as (ua' & s1 & -> & Hs1). simpl.
    destruct (IH ua' s1 Hall) as (s' & -> & Hmono).
    exists s'. split; [done|].
    eapply seqnum_not_lowered_trans; [|exact Hmono].
    destruct Hs1 as [[Happ ->]|[_ ->]].
    + by apply seqnum_not_lowered_set.
    + apply seqnum_not_lowered_refl.
Qed.

(** A record under a ["+"] key goes through the delta engine, which
    compares no sequence numbers: the stored vector of sequence number 7 is
    replaced by the merged vector with the incoming sequence number 3. *)
Lemma sync_plus_record_lowers_seqnum :
  let key := ":USR:G::g::#GMB"%string in
  let old := KV_VECTOR (mk_vvalue (mk_vheader 1 7 0 "#core") ["A"%string]) in
  let rec := mk_sync_record (String "+" key)
               (KV_VECTOR (mk_vvalue (mk_vheader 1 3 0 "#core") ["B"%string])) in
  let s := mk_store {[ key := old ]} ∅ in
  exists s',
    _sync_main_kv_store [rec] s = Some (0, s') /\
    kv_store_get_value s key = Some old /\
    kv_store_get_value s' key
    = Some (KV_VECTOR (mk_vvalue (mk_vheader 1 3 0 "#core") ["A"; "B"]%string)) /\
    record_seqnum old = 7 /\
    ~ seqnum_not_lowered s s'.
Proof.
  eexists. split; [vm_compute; reflexivity|].
  split; [reflexivity|]. split; [vm_compute; reflexivity|]. split; [reflexivity|].
  intros H. destruct (H ":USR:G::g::#GMB"%string _ eq_refl) as (r & Hr & Hle).
  vm_compute in Hr. injection Hr as <-. vm_compute in Hle. by apply Hle.
Qed.

(** C4: for every record of the export that is written as a whole
    (not an unset, and not under a ["+"] or ["-"] key), the write is applied
    iff no record is stored or the sequence number of the new record is not
    lower than the stored one and the overwrite passes the ownership checks
    of [_kv_cb_overwrite]; a write that is not applied leaves the store as
    it is.  The replay of an export of such records ends with 0 and lowers
    the sequence number of no key. *)
Theorem sync_set_records_sequence (recs : list sync_record) (s : kv_store) :
  Forall (fun rec => sync_record_is_set rec = true) recs ->
  (forall rec update_arg s0, rec ∈ recs ->
     exists update_arg' s1,
       sync_one_record rec update_arg s0 = Some (Some (update_arg', s1)) /\
       ((main_set_applies s0 rec /\
         s1 = mk_store (<[sr_key rec := sr_value rec]> (kv_main s0)) (kv_alias s0)) \/
        (~ main_set_applies s0 rec /\ s1 = s0))) /\
  exists s', _sync_main_kv_store recs s = Some (0, s') /\ seqnum_not_lowered s s'.
Proof.
  intros Hall. split.
  - intros rec update_arg s0 Hin. apply sync_one_record_set.
    by apply (proj1 (Forall_forall _ _) Hall).
  - by apply sync_records_set.
Qed.

Lemma sync_set_records_sequence_witness :
  let key := ":USR:G::g::#GMB"%string in
  let old := KV_VECTOR (mk_vvalue (mk_vheader 1 7 0 "#core") ["A"%string]) in
  let rec := mk_sync_record key
               (KV_VECTOR (mk_vvalue (mk_vheader 1 3 0 "#core") ["B"%string])) in
  let s := mk_store {[ key := old ]} ∅ in
  Forall (fun rec => sync_record_is_set rec = true) [rec] /\
  exists s', _sync_main_kv_store [rec] s = Some (0, s') /\ seqnum_not_lowered s s'.
Proof.
  intros key old rec s.
  assert (Hall : Forall (fun rec => sync_record_is_set rec = true) [rec]).
  { constructor; [vm_compute; reflexivity|constructor]. }
  split; [exact Hall|].
  exact (proj2 (sync_set_records_sequence [rec] s Hall)).
Defined.

(** ** The implicit unset of the merge *)

(** A vector of the export is an unset exactly when it holds the header
    only and [KV_MOD_RESERVED] is not among its flags. *)
Lemma sync_unset_vector v :
  sync_unset (KV_VECTOR v) = true
  <-> vv_data v = [] /\ flag_test (VVALUE_FLAGS v) KV_MOD_RESERVED = false.
Proof.
  unfold sync_unset, vsize. rewrite andb_true_iff, negb_true_iff, Nat.eqb_eq.
  destruct (vv_data v); simpl; split; intros [? ?]; split; try done; lia.
Qed.

(** A scalar of the export is an unset exactly when it has no payload and
    its flags are not the single value [KV_MOD_RESERVED]. *)
Lemma sync_unset_scalar h payload :
  sync_unset (KV_SCALAR h payload) = true
  <-> payload = ""%string /\ vh_flags h <> KV_MOD_RESERVED.
Proof.
  unfold sync_unset. rewrite andb_true_iff, negb_true_iff, Nat.eqb_eq, Z.eqb_neq.
  destruct payload; simpl; split; intros [? ?]; split; done.
Qed.

(** An unset removes the key unless the stored record carries an ownership
    flag and belongs to another owner; then the store is left as it is. *)
Lemma sync_one_record_unset rec update_arg s :
  sync_unset (sr_value rec) = true ->
  (match sr_value rec with
   | KV_SCALAR _ _ => True
   | KV_VECTOR _ => _get_op_from_key (sr_key rec) = KV_OP_SET
   end) ->
  exists update_arg',
    sync_one_record rec update_arg s
    = Some (Some (update_arg',
        match kv_store_get_value s (sr_key rec) with
        | Some old =>
            if negb (_flags_indicate_mod_owned (vh_flags (record_header old)) =? 0)
               && negb (strcmp (vh_owner (record_header old))
                               (vh_owner (record_header (sr_value rec))) =? 0)
            then s
            else mk_store (delete (sr_key rec) (kv_main s)) (kv_alias s)
        | None => mk_store (delete (sr_key rec) (kv_main s)) (kv_alias s)
        end)).
Proof.
  unfold sync_one_record. intros -> Hop.
  assert (Hun : forall ua owner,
    ua_owner ua = owner ->
    exists update_arg',
      (let '(_, a, s') := kv_store_unset s (sr_key rec) _kv_cb_main_unset ua in
       Some (Some (a, s')))
      = Some (Some (update_arg',
        match kv_store_get_value s (sr_key rec) with
        | Some old =>
            if negb (_flags_indicate_mod_owned (vh_flags (record_header old)) =? 0)
               && negb (strcmp (vh_owner (record_header old)) owner =? 0)
            then s
            else mk_store (delete (sr_key rec) (kv_main s)) (kv_alias s)
        | None => mk_store (delete (sr_key rec) (kv_main s)) (kv_alias s)
        end))).
  { intros ua owner <-. unfold kv_store_unset, _kv_cb_main_unset, kv_store_get_value,
      record_header, VVALUE_FLAGS, VVALUE_OWNER.
    destruct (kv_main s !! sr_key rec) as [old|]; simpl; [|eauto].
    destruct (_ && _); simpl; eauto. }
  destruct (sr_value rec) as [h payload|v].
  - by apply Hun.
  - rewrite Hop. by apply Hun.
Qed.

(** C10, the reservation of a worker: what a worker exports for a
    reservation is a scalar without payload whose flags are
    [KV_MOD_RESERVED | KV_PERSISTENT].  The scalar test compares the whole
    flags word with [KV_MOD_RESERVED], so the record counts as an
    unset and the replay removes the reservation that the main store holds;
    the same header as a vector is kept. *)
Theorem sync_reserved_scalar_is_unset :
  let h := mk_vheader 1 0 (Z.lor KV_MOD_RESERVED KV_PERSISTENT) "dm_mpath" in
  let key := "::U::::ID_FS_TYPE"%string in
  let s := mk_store {[ key := KV_SCALAR h "" ]} ∅ in
  flag_test (vh_flags h) KV_MOD_RESERVED = true /\
  sync_unset (KV_SCALAR h "") = true /\
  sync_unset (KV_VECTOR (mk_vvalue h [])) = false /\
  sync_unset (KV_SCALAR (mk_vheader 1 0 KV_MOD_RESERVED "dm_mpath") "") = false /\
  _sync_main_kv_store [mk_sync_record key (KV_SCALAR h "")] s = Some (0, kv_store_empty) /\
  _sync_main_kv_store [mk_sync_record key (KV_SCALAR h "")] kv_store_empty
  = Some (0, kv_store_empty).
Proof. vm_compute. repeat split; reflexivity. Qed.

(** ** Reciprocal edges: the walk against a single item *)

Lemma walk_classify_old_only old :
  walk_classify old [] = (fun o => (ONLY_IN_OLD, o)) <$> old.
Proof.
  induction old as [|o old IH]; [done|].
  by rewrite walk_classify_nil_r, IH.
Qed.

Lemma table_select_old_only sel old :
  table_select sel ((fun o => (ONLY_IN_OLD, o)) <$> old)
  = if sel ONLY_IN_OLD then old else [].
Proof.
  induction old as [|o old IH]; [by destruct (sel ONLY_IN_OLD)|].
  rewrite fmap_cons, table_select_cons, IH. by destruct (sel ONLY_IN_OLD).
Qed.

Lemma final_items_nil_r op old :
  final_items op old [] = if table_final op ONLY_IN_OLD then old else [].
Proof. unfold final_items. by rewrite walk_classify_old_only, table_select_old_only. Qed.

Lemma final_items_one op o old p :
  final_items op (o :: old) [p] =
  if strcmp o p <? 0 then
    (if table_final op ONLY_IN_OLD then [o] else []) ++ final_items op old [p]
  else if 0 <? strcmp o p then
    (if table_final op ONLY_IN_NEW then [p] else []) ++ final_items op (o :: old) []
  else
    (if table_final op IN_BOTH then [p] else []) ++ final_items op old [].
Proof.
  unfold final_items. rewrite walk_classify_cons.
  destruct (strcmp o p <? 0); [|destruct (0 <? strcmp o p)];
    rewrite table_select_cons; by destruct (table_final op _).
Qed.

Lemma final_items_nil_one op p :
  final_items op [] [p] = if table_final op ONLY_IN_NEW then [p] else [].
Proof.
  unfold final_items. rewrite walk_classify_nil_l, table_select_cons.
  by destruct (table_final op _).
Qed.

(** [PLUS]: the item is in the final vector, whatever was stored. *)
Lemma final_items_plus_holds old p : p ∈ final_items KV_OP_PLUS old [p].
Proof.
  induction old as [|o old IH].
  - rewrite final_items_nil_one. simpl. set_solver.
  - rewrite final_items_one. simpl.
    destruct (strcmp o p <? 0); [set_solver|].
    destruct (0 <? strcmp o p); set_solver.
Qed.


Lemma final_items_minus_elem old p x :
  x ∈ final_items KV_OP_MINUS old [p] -> x ∈ old.
Proof.
  induction old as [|o old IH].
  - rewrite final_items_nil_one. simpl. set_solver.
  - rewrite final_items_one. simpl.
    destruct (strcmp o p <? 0); [set_solver|].
    destruct (0 <? strcmp o p); rewrite final_items_nil_r; simpl; set_solver.
Qed.


Lemma final_items_minus_lacks old p :
  p ∉ old -> p ∉ final_items KV_OP_MINUS old [p].
Proof. intros Hn Hin%final_items_minus_elem. done. Qed.


(** ** Reciprocal edges: the records under a reciprocal key *)




Lemma apply_rel_minus_lacks h p stored :
  record_lacks p stored -> record_lacks p (apply_rel KV_OP_MINUS h p stored).
Proof. apply final_items_minus_lacks. Qed.

Lemma apply_rel_items_cons op h p rel key item items stored :
  apply_rel_items op h p rel key (item :: items) stored
  = apply_rel_items op h p rel key items
      (if decide (reciprocal_key rel item = Some key)
       then apply_rel op h p stored else stored).
Proof. done. Qed.



(** A pass leaves alone the records that are the reciprocal of none of its
    items. *)
Lemma apply_rel_items_other op h p rel key items stored :
  (forall item, item ∈ items -> reciprocal_key rel item <> Some key) ->
  apply_rel_items op h p rel key items stored = stored.
Proof.
  revert stored. induction items as [|item items IH]; intros stored H; [done|].
  rewrite apply_rel_items_cons, decide_False by (apply H; left).
  apply IH. intros item' Hin. apply H. by right.
Qed.


(** ** Reciprocal edges: the steps of [_kv_delta_set] *)

(** The keys of the absolute delta carry an operator; a [SET] key is none
    of them. *)
Lemma set_key_not_abs key spec op :
  is_set_key key -> op = KV_OP_PLUS \/ op = KV_OP_MINUS ->
  _compose_key (set_ks_op spec op) <> key.
Proof.
  intros (spec' & Hop & ->) Hops. unfold _compose_key, _do_compose_key.
  rewrite Hop. destruct Hops as [-> | ->]; cbn; intros [=].
Qed.

(** A write through [_kv_cb_overwrite] changes the return code of the
    update argument and at most the record under its key. *)
Lemma kv_store_set_value_overwrite s key new update_arg :
  let res := kv_store_set_value s key new _kv_cb_overwrite update_arg in
  ua_custom res.1.2 = ua_custom update_arg /\
  ua_owner res.1.2 = ua_owner update_arg /\
  forall k, k <> key -> kv_main res.2 !! k = kv_main s !! k.
Proof.
  unfold kv_store_set_value. rewrite kv_cb_overwrite_eval. cbn [us_old_data us_new_data].
  destruct (kv_main s !! key) as [old|]; [destruct (decide _)|]; cbn;
    repeat split; try done; intros k Hk; by rewrite lookup_insert_ne.
Qed.

(** [_delta_abs_calc] changes the absolute delta only. *)
Lemma delta_abs_calc_frame vheader update_arg s :
  exists abs, (_delta_abs_calc vheader update_arg s).2 = set_abs_delta update_arg abs.
Proof.
  unfold _delta_abs_calc.
  assert (Hid : update_arg = set_abs_delta update_arg (rs_abs_delta (ua_custom update_arg))).
  { by destruct update_arg as [o [d a c r] rc]. }
  destruct (d_plus (rs_delta (ua_custom update_arg))), (d_minus (rs_delta (ua_custom update_arg)));
    try (exists (rs_abs_delta (ua_custom update_arg)); done).
  all: destruct (_init_delta_buffers _ _ _ _ _) as [r abs0];
    destruct (r <? 0); [eexists; done|];
    match goal with |- context [match ?f with Some _ => _ | None => _ end] => destruct f as [[? ?]|] end;
    eexists; done.
Qed.

(** [_delta_update] read backwards from a defined result. *)
Lemma delta_update_inv f vheader op update_arg index s r update_arg' s' :
  op = KV_OP_PLUS \/ op = KV_OP_MINUS ->
  _delta_update f vheader op update_arg index s = Some (r, update_arg', s') ->
  (delta_buf op (rs_abs_delta (ua_custom update_arg)) = None
   /\ r = 0 /\ update_arg' = update_arg /\ s' = s)
  \/
  (exists dv update_arg2 s2,
      delta_buf op (rs_delta (ua_custom update_arg)) = Some dv
      /\ is_Some (delta_buf op (rs_abs_delta (ua_custom update_arg)))
      /\ rs_delta (ua_custom update_arg2) = rs_delta (ua_custom update_arg)
      /\ rs_cur_key_spec (ua_custom update_arg2) = rs_cur_key_spec (ua_custom update_arg)
      /\ rs_rel_key_spec (ua_custom update_arg2) = rs_rel_key_spec (ua_custom update_arg)
      /\ ua_owner update_arg2 = ua_owner update_arg
      /\ (op = KV_OP_PLUS ->
          d_minus (rs_abs_delta (ua_custom update_arg2))
          = d_minus (rs_abs_delta (ua_custom update_arg)))
      /\ (forall k, is_set_key k -> kv_main s2 !! k = kv_main s !! k)
      /\ if flag_test (d_flags (rs_delta (ua_custom update_arg))) DELTA_WITH_REL
         then exists update_arg3,
             delta_update_relatives f (rel_vvalue_of vheader update_arg2) index (vv_data dv)
               (set_custom update_arg2 (nested_rel_spec op (ua_custom update_arg2))) s2
             = Some (r, update_arg3, s')
             /\ update_arg'
                = set_custom update_arg3
                    (_flip_key_specs
                       (mk_rel_spec (rs_delta (ua_custom update_arg2))
                                    (rs_abs_delta (ua_custom update_arg2))
                                    (rs_cur_key_spec (ua_custom update_arg3))
                                    (rs_rel_key_spec (ua_custom update_arg3))))
         else r = -1 /\ update_arg' = update_arg2 /\ s' = s2).
Proof.
  intros Hop. unfold _delta_update, delta_buf.
  destruct Hop as [-> | ->].
  all: match goal with
       | |- context [match ?b with Some _ => _ | None => Some (0, _, _) end] =>
           destruct b as [a|] eqn:Ha; [|intros [= <- <- <-]; by left]
       end.
  all: match goal with
       | |- context [sid_buffer_get_data ?b] =>
           unfold sid_buffer_get_data; destruct b as [dv|] eqn:Hdv; [|done]
       end.
  all: cbn [mbind option_bind].
  all: match goal with
       | |- context [kv_store_set_value ?s ?k ?n _kv_cb_overwrite ?ua] =>
           pose proof (kv_store_set_value_overwrite s k n ua) as (Hc & Ho & Hframe);
           destruct (kv_store_set_value s k n _kv_cb_overwrite ua) as [[st ua1] s1]
       end.
  all: cbn [fst snd] in Hc, Ho, Hframe; cbv zeta.
  all: match goal with
       | |- context [negb (Nat.eqb (vsize _) 0) && flag_test (d_flags (rs_delta (ua_custom ?u))) _] =>
           set (ua2 := u)
       end.
  all: match goal with
       | |- context [delta_update_relatives _ _ _ _ _ ?x] => set (s2 := x)
       end.
  all: assert (Hs2 : forall k, is_set_key k -> kv_main s2 !! k = kv_main s !! k)
         by (intros k Hk; subst s2; destruct index; rewrite ?manage_kv_index_main;
             apply Hframe; intros ->;
             first [exact (set_key_not_abs _ _ _ Hk (or_introl eq_refl) eq_refl)
                   |exact (set_key_not_abs _ _ _ Hk (or_intror eq_refl) eq_refl)]).
  all: assert (Hd2 : rs_delta (ua_custom ua2) = rs_delta (ua_custom update_arg))
         by (subst ua2; cbn; by rewrite Hc).
  all: assert (Hc2 : rs_cur_key_spec (ua_custom ua2) = rs_cur_key_spec (ua_custom update_arg))
         by (subst ua2; cbn; by rewrite Hc).
  all: assert (Hr2 : rs_rel_key_spec (ua_custom ua2) = rs_rel_key_spec (ua_custom update_arg))
         by (subst ua2; cbn; by rewrite Hc).
  all: assert (Ho2 : ua_owner ua2 = ua_owner update_arg) by (subst ua2; cbn; done).
  all: assert (Hvs : Nat.eqb (vsize dv) 0 = false)
         by (apply Nat.eqb_neq; unfold vsize, VVALUE_HEADER_CNT, VVALUE_IDX_DATA; lia).
  all: rewrite Hvs, Hd2; cbn [negb andb].
  all: destruct (flag_test (d_flags (rs_delta (ua_custom update_arg))) DELTA_WITH_REL).
  all: intros Hres; right; exists dv, ua2, s2.
  all: split; [done|]; split; [by eexists|].
  all: do 4 (split; [done|]).
  all: (split; [first [by intros [=] | intros _; subst ua2; cbn; by rewrite Hc]|]).
  all: split; [done|].
  all: try (injection Hres as <- <- <-; done).
  all: destruct (delta_update_relatives _ _ _ _ _ _) as [[[r3 ua3] s3]|] eqn:Hloop; [|done].
  all: cbn in Hres; injection Hres as <- <- <-; exists ua3; split; [done|]; by rewrite Hd2.
Qed.

(** The first step of [_kv_delta_set], for a delta whose buffers are NULL
    on entry: the local delta is computed and the final vector is stored. *)
Lemma kv_store_set_value_delta_step s key v update_arg op fl :
  rs_delta (ua_custom update_arg) = mk_delta op fl None None None ->
  op <> KV_OP_ILLEGAL ->
  let old := kv_store_get_vvalue s key in
  let d := (delta_step_calc (mk_delta op fl None None None) old v).2 in
  let final := mk_vvalue (vv_header v) (final_items op (delta_items old) (vv_data v)) in
  kv_store_set_value s key (KV_VECTOR v) _kv_cb_delta_step update_arg
  = (Some (KV_VECTOR final), set_delta update_arg d,
     mk_store (<[key := KV_VECTOR final]> (kv_main s)) (kv_alias s))
  /\ d_op d = op /\ d_flags d = fl.
Proof.
  intros Hd Hop old d final. subst d.
  unfold kv_store_set_value, _kv_cb_delta_step, _delta_step_calc, kv_store_get_vvalue,
    kv_store_get_value in *.
  cbn [us_arg us_old_data us_new_data _get_vvalue]. rewrite Hd.
  fold old. rewrite (delta_step_calc_legal op fl old v Hop).
  cbn -[destroy_if_unused]. split; [|done].
  unfold spec_set_new_data, spec_set_delta, set_delta. cbn -[destroy_if_unused]. done.
Qed.

Lemma with_diff_no_rel : flag_test DELTA_WITH_DIFF DELTA_WITH_REL = false.
Proof. done. Qed.

Lemma with_diff_diff_or_rel :
  flag_test DELTA_WITH_DIFF (Z.lor DELTA_WITH_DIFF DELTA_WITH_REL) = true.
Proof. done. Qed.

(** [_delta_update] for a delta without [DELTA_WITH_REL]: the delta, the
    key specs and the records under [SET] keys stay as they are. *)
Lemma delta_update_no_rel f vheader op update_arg index s r update_arg' s' :
  op = KV_OP_PLUS \/ op = KV_OP_MINUS ->
  flag_test (d_flags (rs_delta (ua_custom update_arg))) DELTA_WITH_REL = false ->
  _delta_update f vheader op update_arg index s = Some (r, update_arg', s') ->
  rs_delta (ua_custom update_arg') = rs_delta (ua_custom update_arg)
  /\ rs_cur_key_spec (ua_custom update_arg') = rs_cur_key_spec (ua_custom update_arg)
  /\ rs_rel_key_spec (ua_custom update_arg') = rs_rel_key_spec (ua_custom update_arg)
  /\ ua_owner update_arg' = ua_owner update_arg
  /\ (forall k, is_set_key k -> kv_main s' !! k = kv_main s !! k).
Proof.
  intros Hop Hrel Hres.
  apply delta_update_inv in Hres as [(_ & _ & -> & ->)|Hres]; [done| |done].
  destruct Hres as (dv & ua2 & s2 & _ & _ & Hd & Hc & Hr & Ho & _ & Hs & Hif).
  rewrite Hrel in Hif. destruct Hif as (_ & -> & ->). done.
Qed.

(** The [out:] label of [_kv_delta_set] destroys the buffers of both deltas
    and leaves the rest of the update argument. *)
Lemma kv_delta_set_out_facts (a : kv_update_arg) op fl :
  d_op (rs_delta (ua_custom a)) = op -> d_flags (rs_delta (ua_custom a)) = fl ->
  let a' :=
    set_custom a
      (mk_rel_spec (_destroy_delta_buffers (rs_delta (ua_custom a)))
                   (_destroy_delta_buffers (rs_abs_delta (ua_custom a)))
                   (rs_cur_key_spec (ua_custom a)) (rs_rel_key_spec (ua_custom a))) in
  rs_delta (ua_custom a') = mk_delta op fl None None None
  /\ rs_cur_key_spec (ua_custom a') = rs_cur_key_spec (ua_custom a)
  /\ rs_rel_key_spec (ua_custom a') = rs_rel_key_spec (ua_custom a)
  /\ ua_owner a' = ua_owner a.
Proof. intros <- <-. done. Qed.

(** The nested mutation that [_delta_update] starts for a neighbour. *)
Lemma kv_delta_set_body_nested f key v update_arg index s op r update_arg' s' :
  rs_delta (ua_custom update_arg) = mk_delta op DELTA_WITH_DIFF None None None ->
  op = KV_OP_PLUS \/ op = KV_OP_MINUS ->
  kv_delta_set_body f key v update_arg index s = Some (r, update_arg', s') ->
  rs_delta (ua_custom update_arg') = mk_delta op DELTA_WITH_DIFF None None None
  /\ rs_cur_key_spec (ua_custom update_arg') = rs_cur_key_spec (ua_custom update_arg)
  /\ rs_rel_key_spec (ua_custom update_arg') = rs_rel_key_spec (ua_custom update_arg)
  /\ ua_owner update_arg' = ua_owner update_arg
  /\ (is_set_key key ->
      kv_main s' !! key
      = Some (KV_VECTOR (mk_vvalue (vv_header v)
                (final_items op (delta_items (kv_store_get_vvalue s key)) (vv_data v)))))
  /\ (forall k, is_set_key k -> k <> key -> kv_main s' !! k = kv_main s !! k).
Proof.
  intros Hd Hop. unfold kv_delta_set_body.
  assert (Hlegal : op <> KV_OP_ILLEGAL) by (destruct Hop as [-> | ->]; done).
  destruct (kv_store_set_value_delta_step s key v update_arg op DELTA_WITH_DIFF Hd Hlegal)
    as (-> & Hdop & Hdfl).
  set (d := (delta_step_calc _ _ _).2) in *.
  set (final := mk_vvalue _ _).
  set (s1 := mk_store _ _).
  set (s2 := if index then _ else s1).
  assert (Hs2 : kv_main s2 = <[key := KV_VECTOR final]> (kv_main s)).
  { subst s2. destruct index; [by rewrite manage_kv_index_main|done]. }
  cbn [ua_custom set_delta set_custom rs_delta]. rewrite Hdfl, with_diff_diff_or_rel.
  destruct (delta_abs_calc_frame (vv_header v) (set_delta update_arg d) s2) as [abs Habs].
  destruct (_delta_abs_calc _ _ _) as [ra ua2]. cbn [snd] in Habs. subst ua2.
  set (ua2 := set_abs_delta _ _).
  assert (Hlook : kv_main s2 !! key = Some (KV_VECTOR final)
                  /\ forall k, k <> key -> kv_main s2 !! k = kv_main s !! k).
  { rewrite Hs2, lookup_insert_eq. split; [done|]. intros k Hk.
    by rewrite lookup_insert_ne. }
  destruct Hlook as [Hlook1 Hlook2].
  assert (Hd2 : rs_delta (ua_custom ua2) = d) by done.
  assert (Hc2 : rs_cur_key_spec (ua_custom ua2) = rs_cur_key_spec (ua_custom update_arg))
    by done.
  assert (Hr2 : rs_rel_key_spec (ua_custom ua2) = rs_rel_key_spec (ua_custom update_arg))
    by done.
  assert (Ho2 : ua_owner ua2 = ua_owner update_arg) by done.
  assert (Hnorel : flag_test (d_flags (rs_delta (ua_custom ua2))) DELTA_WITH_REL = false).
  { rewrite Hd2. by rewrite Hdfl. }
  assert (Hfin : forall rr a sx,
     rs_delta (ua_custom a) = d ->
     rs_cur_key_spec (ua_custom a) = rs_cur_key_spec (ua_custom update_arg) ->
     rs_rel_key_spec (ua_custom a) = rs_rel_key_spec (ua_custom update_arg) ->
     ua_owner a = ua_owner update_arg ->
     (forall k, is_set_key k -> kv_main sx !! k = kv_main s2 !! k) ->
     Some (rr,
       set_custom a
         (mk_rel_spec (_destroy_delta_buffers (rs_delta (ua_custom a)))
                      (_destroy_delta_buffers (rs_abs_delta (ua_custom a)))
                      (rs_cur_key_spec (ua_custom a)) (rs_rel_key_spec (ua_custom a))), sx)
     = Some (r, update_arg', s') ->
     rs_delta (ua_custom update_arg') = mk_delta op DELTA_WITH_DIFF None None None
     /\ rs_cur_key_spec (ua_custom update_arg') = rs_cur_key_spec (ua_custom update_arg)
     /\ rs_rel_key_spec (ua_custom update_arg') = rs_rel_key_spec (ua_custom update_arg)
     /\ ua_owner update_arg' = ua_owner update_arg
     /\ (is_set_key key -> kv_main s' !! key = Some (KV_VECTOR final))
     /\ (forall k, is_set_key k -> k <> key -> kv_main s' !! k = kv_main s !! k)).
  { intros rr a sx Ha Hc Hr Ho Hsx [= <- <- <-].
    destruct (kv_delta_set_out_facts a op DELTA_WITH_DIFF) as (H1 & H2 & H3 & H4);
      [by rewrite Ha|by rewrite Ha|].
    cbv zeta in H1, H2, H3, H4. rewrite H1, H2, H3, H4, Hc, Hr, Ho.
    repeat split; try done.
    - intros Hkey. by rewrite Hsx.
    - intros k Hk Hne. rewrite Hsx by done. by apply Hlook2. }
  cbv zeta. destruct (ra <? 0).
  { intros Hres. eapply Hfin; [..|exact Hres]; done. }
  destruct (_delta_update f (vv_header v) KV_OP_PLUS ua2 index s2)
    as [[[r3 ua3] s3]|] eqn:Hplus; [|done].
  cbn [mbind option_bind].
  apply delta_update_no_rel in Hplus as (Hd3 & Hc3 & Hr3 & Ho3 & Hs3); [|by left|done].
  destruct (r3 <? 0).
  { intros Hres. eapply Hfin; [..|exact Hres]; try done; congruence. }
  destruct (_delta_update f (vv_header v) KV_OP_MINUS ua3 index s3)
    as [[[r4 ua4] s4]|] eqn:Hminus; [|done].
  cbn [mbind option_bind].
  apply delta_update_no_rel in Hminus as (Hd4 & Hc4 & Hr4 & Ho4 & Hs4);
    [|by right|by rewrite Hd3].
  destruct (r4 <? 0); intros Hres; (eapply Hfin; [..|exact Hres]); try congruence;
    intros k Hk; by rewrite Hs4, Hs3.
Qed.

Lemma set_ks_ns_part_twice R x y :
  set_ks_ns_part (set_ks_ns_part R x) y = set_ks_ns_part R y.
Proof. done. Qed.

Lemma reciprocal_key_set rel item key :
  ks_op rel = KV_OP_SET -> reciprocal_key rel item = Some key -> is_set_key key.
Proof.
  unfold reciprocal_key. destruct (_copy_ns_part_from_key item) as [nsp|]; [|done].
  intros Hop [= <-]. by exists (set_ks_ns_part rel nsp).
Qed.

(** The loop over the neighbours: the records under [SET] keys after a loop
    that went through all items. *)
Lemma delta_update_relatives_store g h p op R index items :
  op = KV_OP_PLUS \/ op = KV_OP_MINUS ->
  ks_op R = KV_OP_SET ->
  forall update_arg s r update_arg' s',
  rs_delta (ua_custom update_arg) = mk_delta op DELTA_WITH_DIFF None None None ->
  (exists x, rs_cur_key_spec (ua_custom update_arg) = set_ks_ns_part R x) ->
  delta_update_relatives (kv_delta_set_body g) (mk_vvalue h [p]) index items update_arg s
  = Some (r, update_arg', s') ->
  (exists x, rs_cur_key_spec (ua_custom update_arg') = set_ks_ns_part R x)
  /\ rs_rel_key_spec (ua_custom update_arg') = rs_rel_key_spec (ua_custom update_arg)
  /\ ua_owner update_arg' = ua_owner update_arg
  /\ (r = 0 -> forall k, is_set_key k ->
        kv_main s' !! k = apply_rel_items op h p R k items (kv_main s !! k)).
Proof.
  intros Hop HR. induction items as [|item items IH]; intros ua s r ua' s' Hd [x Hc].
  - intros [= <- <- <-]. eauto.
  - cbn [delta_update_relatives].
    destruct (_copy_ns_part_from_key item) as [nsp|] eqn:Hns.
    2:{ intros [= <- <- <-]. repeat split; eauto. done. }
    rewrite Hc, set_ks_ns_part_twice.
    set (key := _compose_key (set_ks_ns_part R nsp)).
    assert (Hrk : reciprocal_key R item = Some key).
    { unfold reciprocal_key. by rewrite Hns. }
    assert (Hkey : is_set_key key) by (by eapply reciprocal_key_set).
    destruct (kv_delta_set_body g key _ _ index s) as [[[r1 ua1] s1]|] eqn:Hnested; [|done].
    cbn [mbind option_bind].
    apply kv_delta_set_body_nested with (op := op) in Hnested
      as (Hd1 & Hc1 & Hr1 & Ho1 & Hk1 & Hf1); [|done..].
    specialize (Hk1 Hkey).
    cbn [ua_custom set_custom rs_cur_key_spec rs_rel_key_spec set_cur_key_spec ua_owner]
      in Hc1, Hr1, Ho1.
    intros Hloop. apply IH in Hloop as (Hc' & Hr' & Ho' & Hstore).
    + repeat split; [done|by rewrite Hr'|by rewrite Ho'|].
      intros -> k Hk. rewrite (Hstore eq_refl k Hk), apply_rel_items_cons.
      f_equal. destruct (decide (reciprocal_key R item = Some k)) as [Heq|Hne].
      * rewrite Hrk in Heq. injection Heq as <-. by rewrite Hk1.
      * apply Hf1; [done|]. intros ->. done.
    + done.
    + cbn. rewrite Hc1. eexists. apply set_ks_ns_part_twice.
Qed.

Lemma delta_update_relatives_code f v index items :
  forall update_arg s r update_arg' s',
  delta_update_relatives f v index items update_arg s = Some (r, update_arg', s') ->
  r = 0 \/ r = -1.
Proof.
  induction items as [|item items IH]; intros ua s r ua' s'; cbn [delta_update_relatives].
  - intros [= <- _ _]. by left.
  - destruct (_copy_ns_part_from_key item); [|intros [= <- _ _]; by right].
    destruct (f _ _ _ _ _) as [[[r1 ua1] s1]|]; [|done].
    cbn [mbind option_bind]. apply IH.
Qed.

Lemma delta_update_code f vheader op update_arg index s r update_arg' s' :
  op = KV_OP_PLUS \/ op = KV_OP_MINUS ->
  _delta_update f vheader op update_arg index s = Some (r, update_arg', s') ->
  r = 0 \/ r = -1.
Proof.
  intros Hop Hres.
  apply delta_update_inv in Hres as [(_ & -> & _)|Hres]; [by left| |done].
  destruct Hres as (dv & ua2 & s2 & _ & _ & _ & _ & _ & _ & _ & _ & Hif).
  destruct (flag_test _ _).
  - destruct Hif as (ua3 & Hloop & _). by eapply delta_update_relatives_code.
  - destruct Hif as (-> & _). by right.
Qed.

(** One pass of [_delta_update] with [DELTA_WITH_REL] that returns 0: the
    records under [SET] keys after the nested mutations for the items of
    the local delta.  Without a buffer of the absolute delta the pass does
    nothing. *)
Lemma delta_update_rel_store g vheader op update_arg index s update_arg' s' :
  op = KV_OP_PLUS \/ op = KV_OP_MINUS ->
  flag_test (d_flags (rs_delta (ua_custom update_arg))) DELTA_WITH_REL = true ->
  ks_op (rs_rel_key_spec (ua_custom update_arg)) = KV_OP_SET ->
  _delta_update (kv_delta_set_body g) vheader op update_arg index s
  = Some (0, update_arg', s') ->
  rs_delta (ua_custom update_arg') = rs_delta (ua_custom update_arg)
  /\ rs_cur_key_spec (ua_custom update_arg') = rs_cur_key_spec (ua_custom update_arg)
  /\ (exists x, rs_rel_key_spec (ua_custom update_arg')
                = set_ks_ns_part (rs_rel_key_spec (ua_custom update_arg)) x)
  /\ ua_owner update_arg' = ua_owner update_arg
  /\ (op = KV_OP_PLUS ->
      d_minus (rs_abs_delta (ua_custom update_arg'))
      = d_minus (rs_abs_delta (ua_custom update_arg)))
  /\ forall k, is_set_key k ->
       kv_main s' !! k
       = apply_rel_items op (rel_vheader vheader (ua_owner update_arg))
           (_compose_key_prefix (rs_cur_key_spec (ua_custom update_arg)))
           (rs_rel_key_spec (ua_custom update_arg)) k
           (match delta_buf op (rs_abs_delta (ua_custom update_arg)) with
            | Some _ => delta_items (delta_buf op (rs_delta (ua_custom update_arg)))
            | None => []
            end)
           (kv_main s !! k).
Proof.
  intros Hop Hrel HR Hres.
  apply delta_update_inv in Hres as [(-> & _ & -> & ->)|Hres]; [|..|done].
  { repeat split; try done. exists (ks_ns_part (rs_rel_key_spec (ua_custom update_arg))).
    by destruct (rs_rel_key_spec (ua_custom update_arg)). }
  destruct Hres as (dv & ua2 & s2 & Hdv & [a Ha] & Hd & Hc & Hr & Ho & Hm & Hs & Hif).
  rewrite Hrel in Hif. destruct Hif as (ua3 & Hloop & ->).
  unfold rel_vvalue_of in Hloop.
  apply delta_update_relatives_store
    with (op := op) (R := rs_rel_key_spec (ua_custom update_arg)) in Hloop
    as ([x Hc3] & Hr3 & Ho3 & Hstore); [|done|done|done|].
  2:{ cbn. rewrite Hr. exists (ks_ns_part (rs_rel_key_spec (ua_custom update_arg))).
      by destruct (rs_rel_key_spec (ua_custom update_arg)). }
  cbn in Hr3. cbn.
  repeat split; [done|by rewrite Hr3|by eexists|by rewrite Ho3|done|].
  intros k Hk. rewrite (Hstore eq_refl k Hk), Hs by done.
  rewrite Hdv. cbn [delta_items].
  rewrite Ha. unfold rel_vheader. by rewrite Ho, Hc.
Qed.

Lemma flag_test_with_rel fl :
  flag_test fl DELTA_WITH_REL = true ->
  flag_test fl (Z.lor DELTA_WITH_DIFF DELTA_WITH_REL) = true.
Proof.
  unfold flag_test. rewrite !negb_true_iff, !Z.eqb_neq. intros H H3. apply H.
  change (Z.lor DELTA_WITH_DIFF DELTA_WITH_REL) with 3 in H3.
  change DELTA_WITH_REL with 2.
  apply Z.bits_inj'. intros n Hn. rewrite Z.land_spec, Z.bits_0.
  assert (Hb : Z.testbit (Z.land fl 3) n = false) by (by rewrite H3, Z.bits_0).
  rewrite Z.land_spec in Hb.
  destruct (Z.testbit fl n); [|done]. cbn [andb] in *.
  destruct (decide (n = 1)) as [->|Hne]; [done|].
  destruct n as [|n|n]; try done.
Qed.

Lemma reciprocal_key_ns_part rel x item :
  reciprocal_key (set_ks_ns_part rel x) item = reciprocal_key rel item.
Proof. done. Qed.

Lemma apply_rel_items_ns_part op h p rel x key items stored :
  apply_rel_items op h p (set_ks_ns_part rel x) key items stored
  = apply_rel_items op h p rel key items stored.
Proof. done. Qed.

(** After [_delta_abs_calc] on an absolute delta whose buffers are NULL on
    entry, a side of the absolute delta has a buffer when the matching side
    of the local delta has one. *)
Lemma delta_abs_calc_present vheader update_arg s aop afl :
  rs_abs_delta (ua_custom update_arg) = mk_delta aop afl None None None ->
  let res := _delta_abs_calc vheader update_arg s in
  res.1 = 0
  /\ rs_delta (ua_custom res.2) = rs_delta (ua_custom update_arg)
  /\ rs_cur_key_spec (ua_custom res.2) = rs_cur_key_spec (ua_custom update_arg)
  /\ rs_rel_key_spec (ua_custom res.2) = rs_rel_key_spec (ua_custom update_arg)
  /\ ua_owner res.2 = ua_owner update_arg
  /\ (is_Some (d_plus (rs_delta (ua_custom update_arg))) ->
      is_Some (d_plus (rs_abs_delta (ua_custom res.2))))
  /\ (is_Some (d_minus (rs_delta (ua_custom update_arg))) ->
      is_Some (d_minus (rs_abs_delta (ua_custom res.2))))
  /\ (d_plus (rs_delta (ua_custom update_arg)) = None ->
      d_minus (rs_delta (ua_custom update_arg)) = None ->
      res.2 = update_arg).
Proof.
  destruct update_arg as [owner [delta abs cur rel] rc]. cbn [ua_custom rs_abs_delta].
  intros ->. cbn [rs_delta rs_cur_key_spec rs_rel_key_spec ua_owner].
  destruct (d_plus delta) as [dp|] eqn:Hp; [|destruct (d_minus delta) as [dm|] eqn:Hm].
  3:{ unfold _delta_abs_calc. cbn. rewrite Hp, Hm. cbn.
      repeat split; try done; by intros [? [=]]. }
  all: rewrite delta_abs_calc_eval by (rewrite ?Hp, ?Hm; eauto).
  all: cbn [fst snd set_abs_delta ua_custom set_custom rs_delta rs_abs_delta rs_cur_key_spec
            rs_rel_key_spec ua_owner d_plus d_minus].
  all: split; [done|]; split; [done|]; split; [done|]; split; [done|]; split; [done|].
  all: match goal with
       | |- context [abs_calc_cross1 ?ua ?s] =>
           destruct (abs_calc_cross1_fits ua s) as (Hn1 & _ & _);
           destruct (abs_calc_cross2_fits ua s) as (Hn2 & _ & _)
       end; cbn [ua_custom rs_delta] in Hn1, Hn2.
  all: rewrite Hn1, Hn2, ?Hp, ?Hm.
  all: split; [|split]; try (intros [? [=]]; fail); try (intros [=]; fail);
    try (intros _ [=]; fail).
  all: intros [? Hx]; rewrite ?Hx; unfold qsort_buffer, abs_buffer; cbn [either_present].
  all: try (by eexists).
  all: try (destruct (cr_old_vvalue _); by eexists).
Qed.

(** A mutation with [DELTA_WITH_REL] that returns 0: after the final vector
    is stored under the key of the mutation, every record under a [SET] key
    is what the nested mutations for the added neighbours and then those for
    the removed neighbours leave there. *)
Lemma kv_delta_set_body_rel_store g key vvalue update_arg index s update_arg' s'
    op fl aop afl :
  rs_delta (ua_custom update_arg) = mk_delta op fl None None None ->
  rs_abs_delta (ua_custom update_arg) = mk_delta aop afl None None None ->
  op <> KV_OP_ILLEGAL ->
  flag_test fl DELTA_WITH_REL = true ->
  ks_op (rs_rel_key_spec (ua_custom update_arg)) = KV_OP_SET ->
  kv_delta_set_body (kv_delta_set_body g) key vvalue update_arg index s
  = Some (0, update_arg', s') ->
  let d := local_delta s key vvalue update_arg in
  let h := rel_vheader (vv_header vvalue) (ua_owner update_arg) in
  let p := _compose_key_prefix (rs_cur_key_spec (ua_custom update_arg)) in
  let R := rs_rel_key_spec (ua_custom update_arg) in
  let final :=
    mk_vvalue (vv_header vvalue)
              (final_items op (delta_items (kv_store_get_vvalue s key)) (vv_data vvalue)) in
  forall k, is_set_key k ->
    kv_main s' !! k
    = apply_rel_items KV_OP_MINUS h p R k (delta_items (d_minus d))
        (apply_rel_items KV_OP_PLUS h p R k (delta_items (d_plus d))
           (<[key := KV_VECTOR final]> (kv_main s) !! k)).
Proof.
  intros Hd Habs Hop Hrel HR. unfold kv_delta_set_body, local_delta. rewrite Hd.
  destruct (kv_store_set_value_delta_step s key vvalue update_arg op fl Hd Hop)
    as (-> & Hdop & Hdfl).
  set (d := (delta_step_calc _ _ _).2) in *.
  set (final := mk_vvalue _ _).
  set (s1 := mk_store _ _).
  set (s2 := if index then _ else s1).
  assert (Hs2 : kv_main s2 = <[key := KV_VECTOR final]> (kv_main s)).
  { subst s2. destruct index; [by rewrite manage_kv_index_main|done]. }
  cbn [ua_custom set_delta set_custom rs_delta]. rewrite Hdfl, (flag_test_with_rel fl Hrel).
  destruct (delta_abs_calc_present (vv_header vvalue) (set_delta update_arg d) s2 aop afl)
    as (Hra & Hd2 & Hc2 & Hr2 & Ho2 & Hp2 & Hm2 & Hnone); [done|].
  destruct (_delta_abs_calc _ _ _) as [ra ua2]. cbn [fst snd] in *. subst ra.
  cbn [ua_custom set_delta set_custom rs_delta rs_cur_key_spec rs_rel_key_spec ua_owner]
    in Hd2, Hc2, Hr2, Ho2, Hp2, Hm2.
  cbv zeta. change (0 <? 0) with false. cbv iota.
  destruct (_delta_update _ (vv_header vvalue) KV_OP_PLUS ua2 index s2)
    as [[[r3 ua3] s3]|] eqn:Hplus; [|done].
  cbn [mbind option_bind].
  destruct (r3 <? 0) eqn:Hr3neg; [done|].
  assert (r3 = 0) as ->.
  { by destruct (delta_update_code _ _ _ _ _ _ _ _ _ (or_introl eq_refl) Hplus) as [-> | ->]. }
  apply delta_update_rel_store in Hplus
    as (Hd3 & Hc3 & [x Hr3] & Ho3 & Hm3 & Hstore3);
    [|by left|by rewrite Hd2, Hdfl|by rewrite Hr2].
  destruct (_delta_update _ (vv_header vvalue) KV_OP_MINUS ua3 index s3)
    as [[[r4 ua4] s4]|] eqn:Hminus; [|done].
  cbn [mbind option_bind].
  destruct (r4 <? 0) eqn:Hr4neg; [done|].
  assert (r4 = 0) as ->.
  { by destruct (delta_update_code _ _ _ _ _ _ _ _ _ (or_intror eq_refl) Hminus) as [-> | ->]. }
  apply delta_update_rel_store in Hminus
    as (Hd4 & Hc4 & _ & Ho4 & _ & Hstore4);
    [|by right|by rewrite Hd3, Hd2, Hdfl|by rewrite Hr3, Hr2].
  intros [= _ <-] k Hk.
  rewrite (Hstore4 k Hk), (Hstore3 k Hk), Hs2.
  rewrite Hr3, apply_rel_items_ns_part, Ho3, Hc3, Hd3, Hd2, Hr2, Ho2, Hc2.
  cbn [delta_buf].
  assert (Hpi : match d_plus (rs_abs_delta (ua_custom ua2)) with
                | Some _ => delta_items (d_plus d)
                | None => []
                end = delta_items (d_plus d)).
  { destruct (d_plus d) as [dp|] eqn:Hdp;
      [|by destruct (d_plus (rs_abs_delta (ua_custom ua2)))].
    destruct Hp2 as [? ->]; [by eexists|done]. }
  assert (Hmi : match d_minus (rs_abs_delta (ua_custom ua3)) with
                | Some _ => delta_items (d_minus d)
                | None => []
                end = delta_items (d_minus d)).
  { rewrite Hm3 by done.
    destruct (d_minus d) as [dm|] eqn:Hdm;
      [|by destruct (d_minus (rs_abs_delta (ua_custom ua2)))].
    destruct Hm2 as [? ->]; [by eexists|done]. }
  by rewrite Hpi, Hmi.
Qed.

(** ** Two levels of recursion are all that [_kv_delta_set] uses *)

(** Without [DELTA_WITH_REL] the function for the nested call is not
    called. *)
Lemma delta_update_no_rel_fn f f' vheader op update_arg index s :
  flag_test (d_flags (rs_delta (ua_custom update_arg))) DELTA_WITH_REL = false ->
  _delta_update f vheader op update_arg index s
  = _delta_update f' vheader op update_arg index s.
Proof.
  intros Hrel. unfold _delta_update.
  destruct op; try done.
  all: match goal with
       | |- context [match ?b with Some _ => _ | None => Some (0, _, _) end] =>
           destruct b as [a|]; [|done]
       end.
  all: match goal with
       | |- context [sid_buffer_get_data ?b] => destruct (sid_buffer_get_data b) as [dv|]; [|done]
       end.
  all: cbn [mbind option_bind].
  all: match goal with
       | |- context [kv_store_set_value ?s ?k ?n _kv_cb_overwrite ?ua] =>
           pose proof (kv_store_set_value_overwrite s k n ua) as (Hc & _ & _);
           destruct (kv_store_set_value s k n _kv_cb_overwrite ua) as [[st ua1] s1]
       end.
  all: cbn [fst snd] in Hc; cbn [set_abs_delta ua_custom set_custom rs_delta].
  all: by rewrite Hc, Hrel, andb_false_r.
Qed.

(** The nested mutation does not depend on the function for its own nested
    call. *)
Lemma kv_delta_set_body_nested_fn g g' key v update_arg index s op :
  rs_delta (ua_custom update_arg) = mk_delta op DELTA_WITH_DIFF None None None ->
  op = KV_OP_PLUS \/ op = KV_OP_MINUS ->
  kv_delta_set_body g key v update_arg index s
  = kv_delta_set_body g' key v update_arg index s.
Proof.
  intros Hd Hop. unfold kv_delta_set_body.
  assert (Hlegal : op <> KV_OP_ILLEGAL) by (destruct Hop as [-> | ->]; done).
  destruct (kv_store_set_value_delta_step s key v update_arg op DELTA_WITH_DIFF Hd Hlegal)
    as (-> & Hdop & Hdfl).
  set (d := (delta_step_calc _ _ _).2) in *.
  set (s2 := if index then _ else _).
  cbn [ua_custom set_delta set_custom rs_delta]. rewrite Hdfl, with_diff_diff_or_rel.
  destruct (delta_abs_calc_frame (vv_header v) (set_delta update_arg d) s2) as [abs Habs].
  destruct (_delta_abs_calc _ _ _) as [ra ua2]. cbn [snd] in Habs. subst ua2.
  set (ua2 := set_abs_delta _ _).
  assert (Hnorel : flag_test (d_flags (rs_delta (ua_custom ua2))) DELTA_WITH_REL = false).
  { subst ua2. cbn. by rewrite Hdfl. }
  cbv zeta. destruct (ra <? 0); [done|].
  rewrite (delta_update_no_rel_fn g g' _ KV_OP_PLUS ua2) by done.
  destruct (_delta_update g' (vv_header v) KV_OP_PLUS ua2 index s2)
    as [[[r3 ua3] s3]|] eqn:Hplus; [|done].
  cbn [mbind option_bind].
  apply delta_update_no_rel in Hplus as (Hd3 & _); [|by left|done].
  destruct (r3 <? 0); [done|].
  by rewrite (delta_update_no_rel_fn g g' _ KV_OP_MINUS ua3) by (by rewrite Hd3).
Qed.

Lemma delta_update_relatives_fn g g' v index op items :
  op = KV_OP_PLUS \/ op = KV_OP_MINUS ->
  forall update_arg s,
  rs_delta (ua_custom update_arg) = mk_delta op DELTA_WITH_DIFF None None None ->
  delta_update_relatives (kv_delta_set_body g) v index items update_arg s
  = delta_update_relatives (kv_delta_set_body g') v index items update_arg s.
Proof.
  intros Hop. induction items as [|item items IH]; intros ua s Hd; [done|].
  cbn [delta_update_relatives].
  destruct (_copy_ns_part_from_key item) as [nsp|]; [|done].
  rewrite (kv_delta_set_body_nested_fn g g' _ _ _ _ _ op) by done.
  destruct (kv_delta_set_body g' _ _ _ _ _) as [[[r1 ua1] s1]|] eqn:Hnested; [|done].
  cbn [mbind option_bind].
  apply kv_delta_set_body_nested with (op := op) in Hnested as (Hd1 & _); [|done..].
  by apply IH.
Qed.

Lemma delta_update_fn g g' vheader op update_arg index s :
  _delta_update (kv_delta_set_body g) vheader op update_arg index s
  = _delta_update (kv_delta_set_body g') vheader op update_arg index s.
Proof.
  destruct (flag_test (d_flags (rs_delta (ua_custom update_arg))) DELTA_WITH_REL) eqn:Hrel;
    [|by apply delta_update_no_rel_fn].
  unfold _delta_update.
  destruct op; try done.
  all: match goal with
       | |- context [match ?b with Some _ => _ | None => Some (0, _, _) end] =>
           destruct b as [a|]; [|done]
       end.
  all: match goal with
       | |- context [sid_buffer_get_data ?b] => destruct (sid_buffer_get_data b) as [dv|]; [|done]
       end.
  all: cbn [mbind option_bind].
  all: match goal with
       | |- context [kv_store_set_value ?s ?k ?n _kv_cb_overwrite ?ua] =>
           destruct (kv_store_set_value s k n _kv_cb_overwrite ua) as [[st ua1] s1]
       end.
  all: cbv zeta.
  all: match goal with |- context [if ?b then _ else _] => destruct b; [|done] end.
  - by rewrite (delta_update_relatives_fn g g' _ _ KV_OP_PLUS _ (or_introl eq_refl)) by done.
  - by rewrite (delta_update_relatives_fn g g' _ _ KV_OP_MINUS _ (or_intror eq_refl)) by done.
Qed.

(** [kv_delta_set_fuel_enough]: with two levels or more the result is the
    one of two levels. *)
Lemma kv_delta_set_fuel_enough fuel key v update_arg index s :
  _kv_delta_set (S (S fuel)) key v update_arg index s
  = _kv_delta_set kv_delta_set_depth key v update_arg index s.
Proof.
  change (_kv_delta_set (S (S fuel)))
    with (kv_delta_set_body (kv_delta_set_body (_kv_delta_set fuel))).
  change (_kv_delta_set kv_delta_set_depth)
    with (kv_delta_set_body (kv_delta_set_body (_kv_delta_set 0))).
  generalize (_kv_delta_set fuel) (_kv_delta_set 0). intros g g'.
  unfold kv_delta_set_body at 1 3.
  destruct (kv_store_set_value s key (KV_VECTOR v) _kv_cb_delta_step update_arg)
    as [[stored ua1] s1].
  destruct stored; [|done].
  destruct (flag_test _ _); [|done].
  destruct (_delta_abs_calc _ _ _) as [ra ua2].
  cbv zeta. destruct (ra <? 0); [done|].
  rewrite (delta_update_fn g g').
  destruct (_delta_update _ _ KV_OP_PLUS _ _ _) as [[[r3 ua3] s3]|]; [|done].
  cbn [mbind option_bind]. destruct (r3 <? 0); [done|].
  by rewrite (delta_update_fn g g').
Qed.



(** * Further properties *)

(** ** Composing a key and reading it back *)

Lemma append_cons (c : ascii) (a b : string) : (String c a +:+ b = String c (a +:+ b))%string.
Proof. done. Qed.

Lemma append_nil_l (b : string) : ("" +:+ b = b)%string.
Proof. done. Qed.

Lemma strstr_join_app a rest :
  no_join a -> strstr_join (a +:+ ":" +:+ rest) = Some (":" +:+ rest)%string.
Proof.
  unfold no_join. induction a as [|c a IH]; [done|].
  cbn [strchr]. intros H. rewrite append_cons; cbn [strstr_join].
  destruct (Ascii.eqb c ":"); [done|]. by apply IH.
Qed.

Lemma join_offset_app a rest :
  no_join a -> join_offset (a +:+ ":" +:+ rest) = Some (String.length a).
Proof.
  unfold no_join. induction a as [|c a IH]; [done|].
  cbn [strchr]. intros H. rewrite append_cons; cbn [join_offset String.length].
  destruct (Ascii.eqb c ":"); [done|]. by rewrite IH.
Qed.

Lemma key_part_start_S n a rest :
  no_join a -> key_part_start (S n) (a +:+ ":" +:+ rest) = key_part_start n rest.
Proof. intros H. cbn [key_part_start]. by rewrite strstr_join_app. Qed.

Lemma no_join_op op : no_join (op_to_key_prefix_map op).
Proof. by destruct op. Qed.

Lemma no_join_ns ns : no_join (ns_to_key_prefix_map ns).
Proof. by destruct ns. Qed.

Lemma no_join_app a b : no_join a -> no_join b -> no_join (a +:+ b).
Proof.
  unfold no_join. induction a as [|c a IH]; [done|].
  rewrite append_cons; cbn [strchr]. destruct (Ascii.eqb c ":"); [done|]. apply IH.
Qed.

Lemma app_assoc_s (a b c : string) : ((a +:+ b) +:+ c = a +:+ (b +:+ c))%string.
Proof. induction a; rewrite ?append_cons, ?append_nil_l; congruence. Qed.

(** The composed key as its seven parts, the first one with the extra
    byte of a full key. *)
Lemma do_compose_key_parts spec prefix_only :
  _do_compose_key spec prefix_only =
  (((if prefix_only then "" else " ") +:+ op_to_key_prefix_map (ks_op spec)) +:+ ":" +:+
   (ks_dom spec +:+ ":" +:+
    (ns_to_key_prefix_map (ks_ns spec) +:+ ":" +:+
     (ks_ns_part spec +:+ ":" +:+
      (ks_id spec +:+ ":" +:+
       (ks_id_part spec +:+
          ((if prefix_only then "" else ":") +:+
           (if prefix_only then "" else ks_core spec))))))))%string.
Proof.
  unfold _do_compose_key, KV_STORE_KEY_JOIN.
  repeat rewrite app_assoc_s. done.
Qed.

Lemma compose_key_tail_parts spec :
  string_tail (_compose_key spec) =
  (op_to_key_prefix_map (ks_op spec) +:+ ":" +:+
   (ks_dom spec +:+ ":" +:+
    (ns_to_key_prefix_map (ks_ns spec) +:+ ":" +:+
     (ks_ns_part spec +:+ ":" +:+
      (ks_id spec +:+ ":" +:+
       (ks_id_part spec +:+ ":" +:+ ks_core spec))))))%string.
Proof. unfold _compose_key. rewrite do_compose_key_parts. done. Qed.

(** X1: the operator of a composed key.  Once the extra first byte of a
    full key is skipped, as it is for the keys of the sync index that the
    export hands on, [_get_op_from_key] reads back the operator that
    [_compose_key] wrote, for every key spec.  On the full key itself, with
    its extra byte, it finds [KV_OP_ILLEGAL] whatever the operator was. *)
Theorem get_op_from_key_compose (spec : kv_key_spec) :
  _get_op_from_key (string_tail (_compose_key spec)) = ks_op spec /\
  _get_op_from_key (_compose_key spec) = KV_OP_ILLEGAL.
Proof.
  split.
  - rewrite compose_key_tail_parts. unfold _get_op_from_key, _get_key_part.
    cbn [key_part_start KEY_PART_OP Nat.eqb __KEY_PART_COUNT Nat.sub].
    rewrite join_offset_app by apply no_join_op.
    by destruct (ks_op spec).
  - unfold _compose_key. rewrite do_compose_key_parts.
    unfold _get_op_from_key, _get_key_part.
    cbn [key_part_start KEY_PART_OP Nat.eqb __KEY_PART_COUNT Nat.sub].
    rewrite join_offset_app by (apply no_join_app; [done|apply no_join_op]).
    by destruct (ks_op spec).
Qed.

Lemma key_part_ns_start spec prefix_only :
  no_join (ks_dom spec) ->
  key_part_start KEY_PART_NS (_do_compose_key spec prefix_only) =
  Some (ns_to_key_prefix_map (ks_ns spec) +:+ ":" +:+
     (ks_ns_part spec +:+ ":" +:+
      (ks_id spec +:+ ":" +:+
       (ks_id_part spec +:+
          ((if prefix_only then "" else ":") +:+
           (if prefix_only then "" else ks_core spec))))))%string.
Proof.
  intros Hd. rewrite do_compose_key_parts. unfold KEY_PART_NS.
  rewrite key_part_start_S
    by (apply no_join_app; [by destruct prefix_only|apply no_join_op]).
  rewrite key_part_start_S by done. done.
Qed.

(** X2: the namespace of a composed key.  When the domain holds no [":"],
    [_get_ns_from_key] reads back the namespace that the key was composed
    with, from a full key, from a key prefix, and from a full key without
    its first byte, as the export reads it. *)
Theorem get_ns_from_key_compose (spec : kv_key_spec) (prefix_only : bool) :
  no_join (ks_dom spec) ->
  _get_ns_from_key (_do_compose_key spec prefix_only) = ks_ns spec /\
  _get_ns_from_key (string_tail (_compose_key spec)) = ks_ns spec.
Proof.
  intros Hd. split.
  - unfold _get_ns_from_key, _get_key_part. rewrite key_part_ns_start by done.
    cbn [KEY_PART_NS Nat.eqb __KEY_PART_COUNT Nat.sub].
    rewrite join_offset_app by apply no_join_ns.
    by destruct (ks_ns spec).
  - rewrite compose_key_tail_parts.
    unfold _get_ns_from_key, _get_key_part, KEY_PART_NS.
    rewrite key_part_start_S by apply no_join_op.
    rewrite key_part_start_S by done.
    cbn [key_part_start Nat.eqb __KEY_PART_COUNT Nat.sub].
    rewrite join_offset_app by apply no_join_ns.
    by destruct (ks_ns spec).
Qed.

Lemma get_ns_from_key_compose_witness :
  no_join "USR" /\
  _get_ns_from_key (_compose_key_prefix
     (mk_key_spec KV_OP_SET "USR" KV_NS_DEVICE "8_0" "" "" "name")) = KV_NS_DEVICE.
Proof.
  split; [reflexivity|].
  apply (get_ns_from_key_compose
           (mk_key_spec KV_OP_SET "USR" KV_NS_DEVICE "8_0" "" "" "name") true).
  reflexivity.
Defined.

Lemma substring_0_app (a b : string) :
  String.substring 0 (String.length a) (a +:+ b) = a.
Proof. induction a as [|c a IH]; [by destruct b|rewrite append_cons; simpl; by rewrite IH]. Qed.

Lemma copy_ns_part_from_key_parts (spec : kv_key_spec) (prefix_only : bool) :
  no_join (ks_dom spec) ->
  no_join (ks_ns_part spec) ->
  _copy_ns_part_from_key (_do_compose_key spec prefix_only) = Some (ks_ns_part spec).
Proof.
  intros Hd Hn. unfold _copy_ns_part_from_key, _get_key_part.
  rewrite do_compose_key_parts. unfold KEY_PART_NS_PART.
  rewrite key_part_start_S
    by (apply no_join_app; [by destruct prefix_only|apply no_join_op]).
  rewrite key_part_start_S by done.
  rewrite key_part_start_S by apply no_join_ns.
  cbn [key_part_start Nat.eqb __KEY_PART_COUNT Nat.sub].
  rewrite join_offset_app by done.
  by rewrite substring_0_app.
Qed.

(** X3: the namespace part of a composed key.  When neither the domain
    nor the namespace part holds a [":"], [_copy_ns_part_from_key] gives
    back the namespace part that the key or key prefix was composed with,
    as [_delta_update] relies on for the items of a relation. *)
Theorem copy_ns_part_from_key_compose (spec : kv_key_spec) (prefix_only : bool) :
  no_join (ks_dom spec) ->
  no_join (ks_ns_part spec) ->
  _copy_ns_part_from_key (_do_compose_key spec prefix_only) = Some (ks_ns_part spec).
Proof. apply copy_ns_part_from_key_parts. Qed.

Lemma copy_ns_part_from_key_compose_witness :
  no_join "" /\ no_join "8_0" /\
  _copy_ns_part_from_key (_compose_key_prefix
     (mk_key_spec KV_OP_SET "" KV_NS_DEVICE "8_0" "" "" "#GIN")) = Some "8_0"%string.
Proof.
  split; [reflexivity|]. split; [reflexivity|].
  apply (copy_ns_part_from_key_compose
           (mk_key_spec KV_OP_SET "" KV_NS_DEVICE "8_0" "" "" "#GIN") true);
    reflexivity.
Defined.

(** X4: the core of a composed key.  When no field before the core holds
    a [":"], part [KEY_PART_CORE] of a full key without its first byte
    starts at the core the key was composed with and has its length; the
    core itself may hold [":"].  The export of udev properties names a
    property by this part. *)
Theorem get_key_part_core_compose (spec : kv_key_spec) :
  no_join (ks_dom spec) ->
  no_join (ks_ns_part spec) ->
  no_join (ks_id spec) ->
  no_join (ks_id_part spec) ->
  _get_key_part (string_tail (_compose_key spec)) KEY_PART_CORE =
  Some (ks_core spec, String.length (ks_core spec)).
Proof.
  intros Hd Hn Hi Hp. unfold _get_key_part.
  rewrite compose_key_tail_parts. unfold KEY_PART_CORE.
  rewrite key_part_start_S by apply no_join_op.
  rewrite key_part_start_S by done.
  rewrite key_part_start_S by apply no_join_ns.
  rewrite !key_part_start_S by done.
  done.
Qed.

Lemma get_key_part_core_compose_witness :
  no_join "" /\ no_join "8_0" /\ no_join "" /\ no_join "" /\
  _get_key_part (string_tail (_compose_key
     (mk_key_spec KV_OP_SET "" KV_NS_UDEV "8_0" "" "" "ID_FS_TYPE"))) KEY_PART_CORE =
  Some ("ID_FS_TYPE"%string, 10%nat).
Proof.
  repeat (split; [reflexivity|]).
  apply (get_key_part_core_compose
           (mk_key_spec KV_OP_SET "" KV_NS_UDEV "8_0" "" "" "ID_FS_TYPE"));
    reflexivity.
Defined.

Lemma canonicalize_kv_key_no_join id : no_join (_canonicalize_kv_key id).
Proof.
  unfold no_join. induction id as [|c id IH]; [done|].
  cbn [_canonicalize_kv_key strchr].
  destruct (Ascii.eqb c ":") eqn:E; [done|]. by rewrite E.
Qed.

Lemma canonicalize_kv_key_length id :
  String.length (_canonicalize_kv_key id) = String.length id.
Proof. induction id as [|c id IH]; [done|]. simpl. by rewrite IH. Qed.

Lemma canonicalize_kv_key_id id : no_join id -> _canonicalize_kv_key id = id.
Proof.
  unfold no_join. induction id as [|c id IH]; [done|].
  cbn [_canonicalize_kv_key strchr].
  destruct (Ascii.eqb c ":"); [done|]. intros H. by rewrite IH.
Qed.

(** X5: [_canonicalize_kv_key] makes a string fit for a key field: the
    result has the length of its argument, canonicalizing it again changes
    nothing, and a key composed with it as namespace part gives the very
    string back through [_copy_ns_part_from_key], whatever [":"] the
    argument held. *)
Theorem canonicalize_kv_key_ns_part (spec : kv_key_spec) (id : string) (prefix_only : bool) :
  no_join (ks_dom spec) ->
  String.length (_canonicalize_kv_key id) = String.length id /\
  _canonicalize_kv_key (_canonicalize_kv_key id) = _canonicalize_kv_key id /\
  _copy_ns_part_from_key
    (_do_compose_key (set_ks_ns_part spec (_canonicalize_kv_key id)) prefix_only) =
  Some (_canonicalize_kv_key id).
Proof.
  intros Hd. split; [apply canonicalize_kv_key_length|]. split.
  - apply canonicalize_kv_key_id, canonicalize_kv_key_no_join.
  - apply (copy_ns_part_from_key_parts (set_ks_ns_part spec _)); [done|].
    apply canonicalize_kv_key_no_join.
Qed.

Lemma canonicalize_kv_key_ns_part_witness :
  no_join "" /\
  _copy_ns_part_from_key
    (_compose_key (mk_key_spec KV_OP_SET "" KV_NS_DEVICE (_canonicalize_kv_key "8:0") "" "" "#RDY"))
  = Some "8_0"%string.
Proof.
  split; [reflexivity|].
  apply (canonicalize_kv_key_ns_part
           (mk_key_spec KV_OP_SET "" KV_NS_DEVICE "" "" "" "#RDY") "8:0" false).
  reflexivity.
Defined.

(** ** [util_str_rstr] and [util_udev_str_to_udev_action] *)

Lemma util_str_rstr_from_some h n pos r :
  util_str_rstr_from h n pos = Some r ->
  exists p, (0 < p <= pos)%nat /\ r = string_drop p h /\ occurs_at h n p /\
            forall p', (p < p' <= pos)%nat -> ~ occurs_at h n p'.
Proof.
  unfold occurs_at. induction pos as [|pos IH]; [done|].
  cbn [util_str_rstr_from].
  destruct (String.prefix n (string_drop (S pos) h)) eqn:E.
  - intros [= <-]. exists (S pos). repeat split; [lia|lia|done|]. intros p' Hp'. lia.
  - intros H. destruct (IH H) as (p & Hp & -> & Hocc & Hlast).
    exists p. repeat split; [lia|lia|done|].
    intros p' Hp'. destruct (decide (p' = S pos)) as [->|Hne].
    + rewrite E. done.
    + apply Hlast. lia.
Qed.

Lemma util_str_rstr_from_none h n pos :
  util_str_rstr_from h n pos = None ->
  forall p, (0 < p <= pos)%nat -> ~ occurs_at h n p.
Proof.
  unfold occurs_at. induction pos as [|pos IH]; [intros _ p Hp; lia|].
  cbn [util_str_rstr_from].
  destruct (String.prefix n (string_drop (S pos) h)) eqn:E; [done|].
  intros H p Hp. destruct (decide (p = S pos)) as [->|Hne].
  - rewrite E. done.
  - apply IH; [done|lia].
Qed.

(** X6: what [util_str_rstr] finds.  A result that is not NULL starts at
    the last offset [pos > 0] at which the needle occurs in the haystack;
    the result is NULL exactly when the needle occurs at no offset above
    0 at which it fits. *)
Theorem util_str_rstr_last (haystack needle : string) :
  let last := (String.length haystack - String.length needle)%nat in
  match util_str_rstr haystack needle with
  | Some r =>
      exists pos, (0 < pos <= last)%nat /\ r = string_drop pos haystack /\
                  occurs_at haystack needle pos /\
                  forall pos', (pos < pos' <= last)%nat -> ~ occurs_at haystack needle pos'
  | None =>
      forall pos, (0 < pos)%nat -> (pos + String.length needle <= String.length haystack)%nat ->
                  ~ occurs_at haystack needle pos
  end.
Proof.
  intros last. unfold util_str_rstr.
  destruct (Nat.ltb (String.length haystack) (String.length needle)) eqn:Hlen.
  - apply Nat.ltb_lt in Hlen. intros pos Hpos Hfit. lia.
  - fold last. destruct (util_str_rstr_from haystack needle last) as [r|] eqn:E.
    + by apply util_str_rstr_from_some.
    + intros pos Hpos Hfit. apply (util_str_rstr_from_none _ _ _ E). subst last. lia.
Qed.

(** X7: [util_str_rstr] never reports an occurrence at offset 0.  When
    the needle occurs at no offset above 0 at which it fits, the result is
    NULL, also when the needle occurs at the start of the haystack. *)
Theorem util_str_rstr_not_at_start (haystack needle : string) :
  (forall pos, (0 < pos)%nat ->
     (pos + String.length needle <= String.length haystack)%nat ->
     ~ occurs_at haystack needle pos) ->
  util_str_rstr haystack needle = None.
Proof.
  intros Hlater. unfold util_str_rstr.
  destruct (Nat.ltb (String.length haystack) (String.length needle)) eqn:Hlen; [done|].
  apply Nat.ltb_ge in Hlen.
  destruct (util_str_rstr_from haystack needle _) as [r|] eqn:E; [|done].
  apply util_str_rstr_from_some in E as (p & Hp & _ & Hocc & _).
  exfalso. apply (Hlater p); [lia|lia|done].
Qed.

Lemma util_str_rstr_not_at_start_witness :
  occurs_at "/sda" "/" 0 /\ util_str_rstr "/sda" "/" = None.
Proof.
  split; [reflexivity|].
  apply util_str_rstr_not_at_start.
  intros [|[|[|[|pos]]]] Hpos Hfit; simpl in Hfit; try lia; vm_compute; discriminate.
Defined.

Lemma strcasecmp_eq_lower a b : strcasecmp_eq a b = true <-> lower a = lower b.
Proof.
  revert b. induction a as [|c a IH]; intros [|d b]; simpl; try done.
  rewrite andb_true_iff, IH, Ascii.eqb_eq. split; [intros [-> ->]; done|].
  intros [= -> ->]. done.
Qed.

Lemma strcasecmp_eq_other str t1 t2 :
  strcasecmp_eq str t1 = true -> strcasecmp_eq t1 t2 = false -> strcasecmp_eq str t2 = false.
Proof.
  intros H1 H2. destruct (strcasecmp_eq str t2) eqn:E; [|done].
  apply strcasecmp_eq_lower in H1, E.
  assert (strcasecmp_eq t1 t2 = true) by (apply strcasecmp_eq_lower; congruence).
  congruence.
Qed.

Lemma udev_action_table str a :
  strcasecmp_eq str (udev_action_str a) = true -> util_udev_str_to_udev_action str = a.
Proof.
  intros H. unfold util_udev_str_to_udev_action.
  destruct a; cbn [udev_action_str] in H;
    repeat match goal with
    | |- context [strcasecmp_eq str ?t] =>
        first [ rewrite H
              | rewrite (strcasecmp_eq_other str _ t H eq_refl) ]
    end; done.
Qed.

(** X8: [util_udev_str_to_udev_action] inverts the table
    [udev_action_str] up to letter case: a string that [strcasecmp] finds
    equal to the entry of an action is mapped to that action, no entry
    hides another one, and a result other than [UDEV_ACTION_UNKNOWN] is
    returned for such a string only. *)
Theorem util_udev_str_to_udev_action_table (str : string) (a : udev_action_t) :
  (strcasecmp_eq str (udev_action_str a) = true -> util_udev_str_to_udev_action str = a) /\
  (util_udev_str_to_udev_action str = a ->
   a = UDEV_ACTION_UNKNOWN \/ strcasecmp_eq str (udev_action_str a) = true).
Proof.
  split; [apply udev_action_table|].
  unfold util_udev_str_to_udev_action.
  repeat match goal with
  | |- context [if strcasecmp_eq str ?t then _ else _] =>
      destruct (strcasecmp_eq str t) eqn:?; [intros <-; right; done|]
  end.
  intros <-. by left.
Qed.

Lemma util_udev_str_to_udev_action_table_witness :
  util_udev_str_to_udev_action "Unbind" = UDEV_ACTION_UNBIND.
Proof.
  apply (proj1 (util_udev_str_to_udev_action_table "Unbind" UDEV_ACTION_UNBIND)).
  reflexivity.
Defined.

(** ** The two passes of [util_str_comb_to_strv] *)

Lemma string_drop_0' s : string_drop 0 s = s.
Proof. unfold string_drop. rewrite Nat.sub_0_r. apply substring_all. Qed.

Lemma string_drop_S n c s : string_drop (S n) (String c s) = string_drop n s.
Proof. done. Qed.

Lemma string_drop_length n s : String.length (string_drop n s) = (String.length s - n)%nat.
Proof.
  revert n. induction s as [|c s IH]; intros [|n]; try done.
  - rewrite string_drop_0'. simpl. lia.
  - rewrite string_drop_S, IH. done.
Qed.

Lemma strchr_length s c r : strchr s c = Some r -> (1 <= String.length r <= String.length s)%nat.
Proof.
  induction s as [|d s IH]; [done|]. cbn [strchr].
  destruct (Ascii.eqb d c).
  - intros [= <-]. simpl. lia.
  - intros H. apply IH in H. simpl. lia.
Qed.

Lemma string_tail_length s : String.length (string_tail s) = (String.length s - 1)%nat.
Proof. destruct s; simpl; lia. Qed.

(** The count pass never lowers the number of tokens. *)
Lemma count_loop_mono n : forall str delims quotes mb counter,
  (tc_tokens counter
   <= tc_tokens (iterate_tokens_loop _count_token n str delims quotes mb counter).2)%nat.
Proof.
  induction n as [|n IH]; intros str delims quotes mb counter; [done|].
  cbn [iterate_tokens_loop].
  destruct (string_drop _ str) as [|c rest]; [done|].
  destruct (in_str c quotes).
  - destruct (strchr rest c) as [eq|]; [|done].
    cbn [_count_token]. change (0 <? 0) with false. cbv iota.
    etrans; [|apply IH]. destruct mb; cbn; lia.
  - cbn [_count_token]. change (0 <? 0) with false. cbv iota.
    etrans; [|apply IH]. destruct mb; cbn; lia.
Qed.

(** One token keeps the two passes in agreement, as long as the slot it
    writes is one of the vector. *)
Lemma passes_agree_token header mb mb' token len counter copier :
  passes_agree header mb counter copier ->
  (tc_tokens (_count_token token len mb counter).2 < length (si_strv copier))%nat ->
  (_copy_token_to_strv token len mb copier).1 = 0 /\
  passes_agree header mb' (_count_token token len mb counter).2
               (_copy_token_to_strv token len mb copier).2 /\
  length (si_strv (_copy_token_to_strv token len mb copier).2) = length (si_strv copier).
Proof.
  intros (Hi & Hs & Hmb & l & Hl & Hstrv) Hfit.
  unfold _copy_token_to_strv, _count_token in *. cbn [snd tc_tokens tc_chars] in *.
  destruct mb.
  - specialize (Hmb eq_refl).
    assert (Nat.eqb (si_i copier) 0 = false) as -> by (apply Nat.eqb_neq; lia).
    cbn [andb negb fst snd si_i si_s si_strv tc_tokens tc_chars].
    split; [done|]. split; [|by rewrite length_alter].
    unfold passes_agree. cbn [si_i si_s si_strv tc_tokens tc_chars].
    split; [lia|]. split; [lia|]. split; [done|].
    destruct (exists_last (l:=l)) as (l0 & x & ->);
      [intros ->; simpl in Hl; lia|].
    rewrite length_app in Hl. simpl in Hl.
    exists (l0 ++ [x +:+ String.substring 0 len token]).
    split; [rewrite length_app; simpl; lia|].
    rewrite length_alter. rewrite Hstrv at 1.
    rewrite !length_app. simpl.
    rewrite fmap_app. simpl.
    rewrite <- !(assoc_L (++)).
    replace (si_i copier - 1)%nat with (length (Some <$> l0) + 0)%nat
      by (rewrite length_fmap; lia).
    rewrite alter_app_r. simpl. by rewrite fmap_app, <- (assoc_L (++)).
  - cbn [andb fst snd si_i si_s si_strv tc_tokens tc_chars].
    split; [done|]. split; [|by rewrite length_insert].
    unfold passes_agree. cbn [si_i si_s si_strv tc_tokens tc_chars].
    split; [lia|]. split; [lia|]. split; [lia|].
    exists (l ++ [String.substring 0 len token]).
    split; [rewrite length_app; simpl; lia|].
    rewrite length_insert. rewrite Hstrv at 1.
    rewrite length_app. simpl.
    replace (si_i copier) with (length (Some <$> l) + 0)%nat
      by (rewrite length_fmap; lia).
    rewrite insert_app_r.
    replace (length (si_strv copier) - length l)%nat
      with (S (length (si_strv copier) - (length l + 1)))%nat by lia.
    simpl. by rewrite fmap_app, <- (assoc_L (++)).
Qed.

(** The copy pass follows the count pass through the loop. *)
Lemma passes_agree_loop header n : forall str delims quotes mb counter copier,
  passes_agree header mb counter copier ->
  let rc := iterate_tokens_loop _count_token n str delims quotes mb counter in
  (tc_tokens rc.2 < length (si_strv copier))%nat ->
  exists copier',
    iterate_tokens_loop _copy_token_to_strv n str delims quotes mb copier = (rc.1, copier') /\
    passes_agree header false rc.2 copier' /\
    length (si_strv copier') = length (si_strv copier).
Proof.
  induction n as [|n IH]; intros str delims quotes mb counter copier Hag.
  - cbn. intros _. exists copier. split; [done|]. split; [|done].
    destruct Hag as (? & ? & ? & ?). done.
  - cbn [iterate_tokens_loop].
    assert (Hdone : passes_agree header false counter copier).
    { destruct Hag as (? & ? & ? & ?). done. }
    destruct (string_drop _ str) as [|c rest]; [intros _; by exists copier|].
    destruct (in_str c quotes).
    + destruct (strchr rest c) as [eq|]; [|intros _; by exists copier].
      set (len := (String.length rest - String.length eq)%nat).
      set (mb' := no_delim_next delims (string_tail eq)).
      destruct (_count_token rest len mb counter) as [rc1 counter1] eqn:Ec.
      assert (rc1 = 0) as -> by (by injection Ec).
      change (0 <? 0) with false. cbv iota. intros Hfit.
      pose proof (count_loop_mono n (string_tail eq) delims quotes mb' counter1) as Hmono.
      destruct (passes_agree_token header mb mb' rest len counter copier Hag)
        as (Hr & Hag1 & Hlen1); [rewrite Ec; cbn [snd]; cbv zeta in Hfit; lia|].
      destruct (_copy_token_to_strv rest len mb copier) as [r1 copier1].
      cbn [fst snd] in Hr, Hag1, Hlen1. subst r1. rewrite Ec in Hag1. cbn [snd] in Hag1.
      change (0 <? 0) with false. cbv iota.
      destruct (IH (string_tail eq) delims quotes mb' counter1 copier1 Hag1)
        as (copier' & Hrun & Hag' & Hlen'); [rewrite Hlen1; exact Hfit|].
      exists copier'. rewrite Hlen' , Hlen1. done.
    + set (str1 := String c rest).
      set (len := strcspn str1 (quotes +:+ delims)).
      set (mb' := no_delim_next delims (string_drop len str1)).
      destruct (_count_token str1 len mb counter) as [rc1 counter1] eqn:Ec.
      assert (rc1 = 0) as -> by (by injection Ec).
      change (0 <? 0) with false. cbv iota. intros Hfit.
      pose proof (count_loop_mono n (string_drop len str1) delims quotes mb' counter1) as Hmono.
      destruct (passes_agree_token header mb mb' str1 len counter copier Hag)
        as (Hr & Hag1 & Hlen1); [rewrite Ec; cbn [snd]; cbv zeta in Hfit; lia|].
      destruct (_copy_token_to_strv str1 len mb copier) as [r1 copier1].
      cbn [fst snd] in Hr, Hag1, Hlen1. subst r1. rewrite Ec in Hag1. cbn [snd] in Hag1.
      change (0 <? 0) with false. cbv iota.
      destruct (IH (string_drop len str1) delims quotes mb' counter1 copier1 Hag1)
        as (copier' & Hrun & Hag' & Hlen'); [rewrite Hlen1; exact Hfit|].
      exists copier'. rewrite Hlen' , Hlen1. done.
Qed.

Lemma passes_agree_call header str delims quotes counter copier mb :
  passes_agree header mb counter copier ->
  let rc := util_str_iterate_tokens _count_token str delims quotes counter in
  (tc_tokens rc.2 < length (si_strv copier))%nat ->
  exists copier',
    util_str_iterate_tokens _copy_token_to_strv str delims quotes copier = (rc.1, copier') /\
    passes_agree header false rc.2 copier' /\
    length (si_strv copier') = length (si_strv copier).
Proof.
  intros Hag. assert (Hag0 : passes_agree header false counter copier).
  { destruct Hag as (? & ? & ? & ?). done. }
  destruct str as [s|]; cbn [util_str_iterate_tokens].
  - apply passes_agree_loop. done.
  - intros _. by exists copier.
Qed.

Lemma count_call_mono str delims quotes counter :
  (tc_tokens counter
   <= tc_tokens (util_str_iterate_tokens _count_token str delims quotes counter).2)%nat.
Proof. destruct str; [apply count_loop_mono|done]. Qed.

Lemma passes_agree_start header n :
  passes_agree header false (mk_token_counter 0 0) (mk_strv_iter (replicate n None) 0 header).
Proof.
  unfold passes_agree. cbn. split; [done|]. split; [lia|]. split; [done|].
  exists []. split; [done|]. simpl. by rewrite Nat.sub_0_r, length_replicate.
Qed.

Lemma passes_agree_three header N prefix str suffix delims quotes :
  let rc := iterate_three _count_token prefix str suffix delims quotes (mk_token_counter 0 0) in
  (rc.1 <? 0) = false ->
  (tc_tokens rc.2 < N)%nat ->
  exists copier,
    iterate_three _copy_token_to_strv prefix str suffix delims quotes
                  (mk_strv_iter (replicate N None) 0 header)
    = (rc.1, copier) /\
    passes_agree header false rc.2 copier /\
    length (si_strv copier) = N.
Proof.
  unfold iterate_three.
  set (c0 := mk_token_counter 0 0). set (copier0 := mk_strv_iter _ _ _).
  pose proof (count_call_mono str delims quotes
                (util_str_iterate_tokens _count_token prefix delims quotes c0).2) as M2.
  pose proof (count_call_mono suffix delims quotes
                (util_str_iterate_tokens _count_token str delims quotes
                   (util_str_iterate_tokens _count_token prefix delims quotes c0).2).2) as M3.
  destruct (util_str_iterate_tokens _count_token prefix delims quotes c0)
    as [r1 c1] eqn:E1. cbn [snd] in M2, M3.
  destruct (r1 <? 0) eqn:Hr1; cbn [fst snd]; [congruence|].
  destruct (util_str_iterate_tokens _count_token str delims quotes c1)
    as [r2 c2] eqn:E2. cbn [snd] in M2, M3.
  destruct (r2 <? 0) eqn:Hr2; cbn [fst snd]; [congruence|].
  destruct (util_str_iterate_tokens _count_token suffix delims quotes c2)
    as [r3 c3] eqn:E3. cbn [fst snd] in *.
  intros _ HN.
  assert (Hlen0 : length (si_strv copier0) = N) by (cbn; by rewrite length_replicate).
  destruct (passes_agree_call header prefix delims quotes c0 copier0 false)
    as (cp1 & Hrun1 & Hag1 & Hlen1).
  { apply passes_agree_start. }
  { rewrite E1, Hlen0. cbn. lia. }
  rewrite Hrun1, E1. cbn [fst snd]. rewrite Hr1. rewrite E1 in Hag1. cbn [snd] in Hag1.
  destruct (passes_agree_call header str delims quotes c1 cp1 false Hag1)
    as (cp2 & Hrun2 & Hag2 & Hlen2).
  { rewrite E2, Hlen1, Hlen0. cbn. lia. }
  rewrite Hrun2, E2. cbn [fst snd]. rewrite Hr2. rewrite E2 in Hag2. cbn [snd] in Hag2.
  destruct (passes_agree_call header suffix delims quotes c2 cp2 false Hag2)
    as (cp3 & Hrun3 & Hag3 & Hlen3).
  { rewrite E3, Hlen2, Hlen1, Hlen0. cbn. lia. }
  rewrite Hrun3, E3. cbn [fst snd]. rewrite E3 in Hag3. cbn [snd] in Hag3.
  exists cp3. split; [done|]. split; [done|]. congruence.
Qed.

(** X9: the two passes of [util_str_comb_to_strv] agree.  When the count
    pass meets no unmatched quote and the given memory, if any, has the
    size it computed, the copy pass returns the same code, writes exactly
    [counter.tokens] pointer slots and ends with [s] at exactly
    [_get_strv_full_mem_size] bytes from the start of the block, the size
    that was allocated.  The vector returned holds [counter.tokens] strings
    and the closing NULL. *)
Theorem util_str_comb_to_strv_two_passes (sizeof_char_p : nat) (mem : option nat)
    (prefix str suffix delims quotes : option string) :
  let rc := iterate_three _count_token prefix str suffix delims quotes (mk_token_counter 0 0) in
  let counter := rc.2 in
  (rc.1 <? 0) = false ->
  match mem with
  | Some size => (_get_strv_full_mem_size sizeof_char_p counter <= size)%nat
  | None => True
  end ->
  exists copier l,
    iterate_three _copy_token_to_strv prefix str suffix delims quotes
      (mk_strv_iter (replicate (tc_tokens counter + 1) None) 0
                    (_get_strv_header_size sizeof_char_p counter))
    = (rc.1, copier) /\
    si_i copier = tc_tokens counter /\
    si_s copier = _get_strv_full_mem_size sizeof_char_p counter /\
    length l = tc_tokens counter /\
    util_str_comb_to_strv sizeof_char_p mem prefix str suffix delims quotes
    = Some ((Some <$> l) ++ [None]).
Proof.
  intros rc counter Hrc Hmem.
  set (header := _get_strv_header_size sizeof_char_p counter).
  set (copier0 := mk_strv_iter (replicate (tc_tokens counter + 1) None) 0 header).
  destruct (passes_agree_three header (tc_tokens counter + 1) prefix str suffix delims quotes)
    as (copier & Hrun & Hag & Hlen); [done|fold rc counter; lia|].
  fold rc counter copier0 in Hrun, Hag.
  destruct Hag as (Hi & Hs & _ & l & Hl & Hstrv).
  exists copier, l. split; [done|]. split; [done|].
  split; [unfold _get_strv_full_mem_size; fold header; lia|]. split; [done|].
  unfold util_str_comb_to_strv. fold rc. destruct rc as [r c] eqn:Erc.
  cbn [fst snd] in *. subst counter. rewrite Hrc.
  assert (match mem with
          | Some size => Nat.ltb size (_get_strv_full_mem_size sizeof_char_p c)
          | None => false
          end = false) as ->.
  { destruct mem as [size|]; [|done]. apply Nat.ltb_ge. done. }
  fold header copier0. rewrite Hrun, Hrc.
  f_equal. rewrite Hstrv, Hlen, Hl.
  replace (tc_tokens c + 1 - tc_tokens c)%nat with 1%nat by lia. simpl.
  replace (tc_tokens c) with (length (Some <$> l) + 0)%nat at 1
    by (rewrite length_fmap; lia).
  by rewrite insert_app_r.
Qed.

Lemma util_str_comb_to_strv_two_passes_witness :
  exists copier l,
    iterate_three _copy_token_to_strv None (Some "a/'b c'd"%string) None
                  (Some "/"%string) (Some "'"%string)
                  (mk_strv_iter (replicate 3 None) 0 24)
    = (0, copier) /\
    si_i copier = 2%nat /\
    si_s copier = 31%nat /\
    length l = 2%nat /\
    util_str_comb_to_strv 8 (Some 31%nat) None (Some "a/'b c'd"%string) None
                          (Some "/"%string) (Some "'"%string)
    = Some ((Some <$> l) ++ [None]).
Proof.
  apply (util_str_comb_to_strv_two_passes 8 (Some 31%nat) None (Some "a/'b c'd"%string) None
           (Some "/"%string) (Some "'"%string)).
  - reflexivity.
  - vm_compute. lia.
Defined.

Lemma in_str_app c a b : in_str c (a +:+ b) = in_str c a || in_str c b.
Proof.
  unfold in_str. induction a as [|d a IH]; [done|].
  change (String d a +:+ b)%string with (String d (a +:+ b)). cbn [strchr].
  destruct (Ascii.eqb d c); [done|]. apply IH.
Qed.

Lemma strspn_drop_head s accept c rest :
  string_drop (strspn s accept) s = String c rest -> in_str c accept = false.
Proof.
  induction s as [|d s IH]; [done|]. cbn [strspn].
  destruct (in_str d accept) eqn:E.
  - rewrite string_drop_S. apply IH.
  - rewrite string_drop_0'. by intros [= <- <-].
Qed.

(** The bound of the loop: any number of rounds that is at least the length
    of the string gives the same result. *)
Lemma iterate_tokens_loop_bound {A : Type} (token_fn : string -> nat -> bool -> A -> Z * A)
    (n : nat) : forall m str delims quotes merge_back data,
  (String.length str <= n)%nat ->
  (String.length str <= m)%nat ->
  iterate_tokens_loop token_fn n str delims quotes merge_back data
  = iterate_tokens_loop token_fn m str delims quotes merge_back data.
Proof.
  induction n as [|n IH]; intros m str delims quotes mb data Hn Hm.
  - destruct str; [|simpl in Hn; lia]. destruct m; done.
  - destruct m as [|m].
    + destruct str; [|simpl in Hm; lia]. done.
    + cbn [iterate_tokens_loop].
      pose proof (string_drop_length (strspn str delims) str) as Hlen.
      destruct (string_drop (strspn str delims) str) as [|c rest] eqn:Hdrop; [done|].
      cbn [String.length] in Hlen.
      destruct (in_str c quotes) eqn:Hq.
      * destruct (strchr rest c) as [eq|] eqn:Heq; [|done].
        apply strchr_length in Heq.
        destruct (token_fn rest _ mb data) as [r data'].
        destruct (r <? 0); [done|].
        apply IH; rewrite string_tail_length; lia.
      * assert (Hc : in_str c (quotes +:+ delims) = false).
        { rewrite in_str_app, Hq. apply (strspn_drop_head _ _ _ _ Hdrop). }
        destruct (token_fn (String c rest) _ mb data) as [r data'].
        destruct (r <? 0); [done|].
        cbn [strcspn]. rewrite Hc, string_drop_S.
        apply IH; rewrite string_drop_length; lia.
Qed.

(** ** The module interface: set, get, reserve *)

(** What [_do_sid_ucmd_set_kv] does to the context: the store keeps its
    records or gets the new scalar under the composed key, and a returned
    pointer means the latter. *)
Lemma do_sid_ucmd_set_kv_store mod_ ucmd_ctx dom ns key flags value value_size :
  let res := _do_sid_ucmd_set_kv mod_ ucmd_ctx dom ns key flags value value_size in
  let k := _compose_key (mk_key_spec KV_OP_SET (default ""%string dom) ns
                           (_get_ns_part mod_ ucmd_ctx ns) "" "" key) in
  let payload := match value with Some v => bytes_take value_size v | None => ""%string end in
  let rec := KV_SCALAR (mk_vheader (uc_gennum ucmd_ctx) (ud_seqnum (uc_udev ucmd_ctx)) flags
                                   (_get_mod_name mod_)) payload in
  uc_dev_id res.2 = uc_dev_id ucmd_ctx /\
  uc_udev res.2 = uc_udev ucmd_ctx /\
  uc_gennum res.2 = uc_gennum ucmd_ctx /\
  uc_scan_phase res.2 = uc_scan_phase ucmd_ctx /\
  (kv_main (uc_kv_store res.2) = kv_main (uc_kv_store ucmd_ctx) \/
   kv_main (uc_kv_store res.2) = <[k := rec]> (kv_main (uc_kv_store ucmd_ctx))) /\
  (forall p, res.1 = Some p ->
     p = payload /\ value_size <> O /\
     kv_main (uc_kv_store res.2) = <[k := rec]> (kv_main (uc_kv_store ucmd_ctx))).
Proof.
  intros res k payload rec. subst res. unfold _do_sid_ucmd_set_kv.
  destruct (if negb _ then _ else false); [cbn; naive_solver|].
  unfold kv_store_set_value. fold k payload rec.
  pose proof (kv_cb_overwrite_new_data
    (mk_update_spec k (kv_main (uc_kv_store ucmd_ctx) !! k) rec
       (mk_update_arg (_get_mod_name mod_) rel_spec_null (- EREMOTEIO)))) as Hnew.
  destruct (_kv_cb_overwrite _) as [r spec']. cbn [snd us_new_data] in Hnew.
  destruct (r =? 0); [cbn; destruct (uc_kv_store ucmd_ctx); naive_solver|].
  rewrite Hnew.
  destruct (Nat.eqb_spec value_size 0) as [He|He]; cbn [fst snd].
  - cbn. naive_solver.
  - cbn [uc_dev_id uc_udev uc_gennum uc_scan_phase uc_kv_store set_uc_kv_store].
    rewrite manage_kv_index_main. cbn [kv_main]. subst rec.
    split_and!; try done; [by right|]. by intros ? [= <-].
Qed.

Lemma strcmp_eqb_refl (a : string) : (strcmp a a =? 0) = true.
Proof. by rewrite strcmp_refl. Qed.

Lemma strcmp_eqb_neq (a b : string) : a <> b -> (strcmp a b =? 0) = false.
Proof. intros H. apply Z.eqb_neq. by rewrite strcmp_eq_iff. Qed.

Lemma sid_ucmd_set_kv_store (m : module) ctx ns key value value_size flags :
  let res := sid_ucmd_set_kv (Some m) (Some ctx) ns (Some key) value value_size flags in
  let k := user_key (Some m) ctx ns key in
  let payload := match value with Some v => bytes_take value_size v | None => ""%string end in
  let rec := KV_SCALAR (mk_vheader (uc_gennum ctx) (ud_seqnum (uc_udev ctx))
                                   (user_flags ns flags) m) payload in
  exists ctx',
    res.2 = Some ctx' /\
    uc_dev_id ctx' = uc_dev_id ctx /\
    (kv_main (uc_kv_store ctx') = kv_main (uc_kv_store ctx) \/
     kv_main (uc_kv_store ctx') = <[k := rec]> (kv_main (uc_kv_store ctx))) /\
    (forall p, res.1 = Some p ->
       p = payload /\
       (ns_eqb ns KV_NS_UNDEFINED || key_refused (Some key)) = false /\
       kv_main (uc_kv_store ctx') = <[k := rec]> (kv_main (uc_kv_store ctx))).
Proof.
  intros res k payload rec. subst res. unfold sid_ucmd_set_kv.
  destruct (ns_eqb ns KV_NS_UNDEFINED || key_refused (Some key)) eqn:Hg.
  - exists ctx. cbn. naive_solver.
  - pose proof (do_sid_ucmd_set_kv_store (Some m) ctx (Some KV_KEY_DOM_USER) ns key
                  (user_flags ns flags) value value_size) as H.
    cbv zeta in H. fold (user_flags ns flags).
    destruct (_do_sid_ucmd_set_kv _ _ _ _ _ _ _ _) as [ret ctx'].
    cbn [fst snd] in *. destruct H as (Hid & _ & _ & _ & Hst & Hret).
    exists ctx'. split_and!; try done.
    intros p Hp. destruct (Hret p Hp) as (? & ? & ?). done.
Qed.

Lemma user_key_ctx mod_ ctx ctx' ns key :
  uc_dev_id ctx' = uc_dev_id ctx -> user_key mod_ ctx' ns key = user_key mod_ ctx ns key.
Proof. unfold user_key, _get_ns_part. by intros ->. Qed.

Lemma sid_ucmd_get_kv_eval (m : module) ctx ns key :
  (ns_eqb ns KV_NS_UNDEFINED || key_refused (Some key)) = false ->
  sid_ucmd_get_kv (Some m) (Some ctx) ns (Some key)
  = match kv_main (uc_kv_store ctx) !! user_key (Some m) ctx ns key with
    | None => Some kv_get_null
    | Some (KV_VECTOR _) => None
    | Some (KV_SCALAR svalue payload) =>
        if flag_test (vh_flags svalue) KV_MOD_PRIVATE
           && negb (strcmp (vh_owner svalue) m =? 0)
        then Some kv_get_null
        else Some (mk_get_result (if Nat.eqb (String.length payload) 0 then None
                                  else Some payload)
                                 (Some (String.length payload)) (Some (vh_flags svalue)))
    end.
Proof. intros Hg. unfold sid_ucmd_get_kv. by rewrite Hg. Qed.

(** X10: what a module sets it gets back.  When [sid_ucmd_set_kv] returns
    a pointer, [sid_ucmd_get_kv] by the same module for the same namespace
    and key, on the context the call left, reports the size of the stored
    value, the flags it was stored with (with [KV_SYNC | KV_PERSISTENT]
    added in the udev namespace) and, unless the size is 0, the value. *)
Theorem sid_ucmd_set_get_kv (m : module) (ctx ctx' : sid_ucmd_ctx)
    (ns : sid_ucmd_kv_namespace_t) (key : string) (value : option string)
    (value_size : nat) (flags : Z) (p : string) :
  sid_ucmd_set_kv (Some m) (Some ctx) ns (Some key) value value_size flags
  = (Some p, Some ctx') ->
  sid_ucmd_get_kv (Some m) (Some ctx') ns (Some key)
  = Some (mk_get_result (if Nat.eqb (String.length p) 0 then None else Some p)
                        (Some (String.length p)) (Some (user_flags ns flags))).
Proof.
  intros Hset.
  destruct (sid_ucmd_set_kv_store m ctx ns key value value_size flags)
    as (ctx1 & Hctx & Hid & _ & Hret).
  rewrite Hset in Hctx, Hret. cbn [fst snd] in Hctx, Hret. injection Hctx as <-.
  destruct (Hret p eq_refl) as (Hp & Hg & Hst).
  rewrite sid_ucmd_get_kv_eval by done.
  rewrite (user_key_ctx _ ctx ctx') by done.
  rewrite Hst, lookup_insert_eq. cbn [vh_flags vh_owner].
  rewrite strcmp_eqb_refl, andb_false_r. by rewrite <- Hp.
Qed.

Lemma sid_ucmd_set_get_kv_witness :
  let ctx := mk_ucmd_ctx "8_0" (mk_udevice UDEV_ACTION_ADD UDEV_DEVTYPE_DISK None None 8 0 7 0 None)
                         1 kv_store_empty CMD_SCAN_PHASE_A_SCAN_CURRENT in
  exists ctx',
    sid_ucmd_set_kv (Some "dm_mpath"%string) (Some ctx) KV_NS_UDEV (Some "SID_X"%string)
                    (Some "yes"%string) 3 0 = (Some "yes"%string, Some ctx') /\
    sid_ucmd_get_kv (Some "dm_mpath"%string) (Some ctx') KV_NS_UDEV (Some "SID_X"%string)
    = Some (mk_get_result (Some "yes"%string) (Some 3%nat) (Some 17)).
Proof.
  intros ctx. eexists. split; [vm_compute; reflexivity|].
  apply (sid_ucmd_set_get_kv "dm_mpath"%string ctx _ KV_NS_UDEV "SID_X" (Some "yes"%string)
           3 0 "yes"). vm_compute. reflexivity.
Defined.

Lemma flag_test_lor_private flags x :
  flag_test flags KV_MOD_PRIVATE = true ->
  flag_test (Z.lor flags x) KV_MOD_PRIVATE = true.
Proof.
  unfold flag_test, KV_MOD_PRIVATE. rewrite !negb_true_iff, !Z.eqb_neq.
  intros H Hz. apply H. apply Z.bits_inj'. intros n Hn.
  apply (f_equal (fun z => Z.testbit z n)) in Hz.
  rewrite Z.land_spec, Z.lor_spec, Z.bits_0 in Hz. rewrite Z.land_spec, Z.bits_0.
  destruct (Z.testbit flags n); [|done]. simpl in *. done.
Qed.

Lemma user_key_shared m m' ctx ns key :
  ns <> KV_NS_MODULE -> user_key (Some m') ctx ns key = user_key (Some m) ctx ns key.
Proof. by destruct ns. Qed.

(** X11: a private record is hidden from other modules.  In a namespace
    that modules share (every one but [KV_NS_MODULE]), after a module has
    set a record with [KV_MOD_PRIVATE], [sid_ucmd_get_kv] by any other
    module for that key returns NULL and writes neither the size nor the
    flags. *)
Theorem sid_ucmd_get_kv_private (m m' : module) (ctx ctx' : sid_ucmd_ctx)
    (ns : sid_ucmd_kv_namespace_t) (key : string) (value : option string)
    (value_size : nat) (flags : Z) (p : string) :
  m' <> m ->
  ns <> KV_NS_MODULE ->
  flag_test flags KV_MOD_PRIVATE = true ->
  sid_ucmd_set_kv (Some m) (Some ctx) ns (Some key) value value_size flags
  = (Some p, Some ctx') ->
  sid_ucmd_get_kv (Some m') (Some ctx') ns (Some key) = Some kv_get_null.
Proof.
  intros Hm Hns Hpriv Hset.
  destruct (sid_ucmd_set_kv_store m ctx ns key value value_size flags)
    as (ctx1 & Hctx & Hid & _ & Hret).
  rewrite Hset in Hctx, Hret. cbn [fst snd] in Hctx, Hret. injection Hctx as <-.
  destruct (Hret p eq_refl) as (Hp & Hg & Hst).
  rewrite sid_ucmd_get_kv_eval by done.
  rewrite (user_key_ctx _ ctx ctx') by done.
  rewrite (user_key_shared m m') by done.
  rewrite Hst, lookup_insert_eq. cbn [vh_flags vh_owner].
  rewrite strcmp_eqb_neq by done.
  assert (flag_test (user_flags ns flags) KV_MOD_PRIVATE = true) as ->; [|done].
  unfold user_flags. destruct (ns_eqb ns KV_NS_UDEV); [|done].
  by apply flag_test_lor_private.
Qed.

Lemma sid_ucmd_get_kv_private_witness :
  let ctx := mk_ucmd_ctx "8_0" (mk_udevice UDEV_ACTION_ADD UDEV_DEVTYPE_DISK None None 8 0 7 0 None)
                         1 kv_store_empty CMD_SCAN_PHASE_A_SCAN_CURRENT in
  exists ctx',
    sid_ucmd_set_kv (Some "dm_mpath"%string) (Some ctx) KV_NS_DEVICE (Some "state"%string)
                    (Some "on"%string) 2 KV_MOD_PRIVATE = (Some "on"%string, Some ctx') /\
    sid_ucmd_get_kv (Some "lvm"%string) (Some ctx') KV_NS_DEVICE (Some "state"%string)
    = Some kv_get_null.
Proof.
  intros ctx. eexists. split; [vm_compute; reflexivity|].
  apply (sid_ucmd_get_kv_private "dm_mpath"%string "lvm"%string ctx _ KV_NS_DEVICE "state"
           (Some "on"%string) 2 KV_MOD_PRIVATE "on");
    [discriminate|discriminate|reflexivity|vm_compute; reflexivity].
Defined.

(** A record that [sid_ucmd_set_kv] writes is in the domain [USR]; the keys
    without a domain are out of its reach. *)
Lemma user_key_not_core mod_ ctx ns key ns' ns_part id id_part core :
  user_key mod_ ctx ns key
  <> _compose_key (mk_key_spec KV_OP_SET "" ns' ns_part id id_part core).
Proof.
  unfold user_key, _compose_key. rewrite !do_compose_key_parts.
  cbn [ks_op ks_dom op_to_key_prefix_map]. unfold KV_KEY_DOM_USER.
  rewrite !append_cons, !append_nil_l. discriminate.
Qed.

Lemma sid_ucmd_set_kv_frame mod_ ctx ns key value value_size flags k' :
  (forall m k, mod_ = Some m -> key = Some k -> k' <> user_key mod_ ctx ns k) ->
  exists ctx',
    (sid_ucmd_set_kv mod_ (Some ctx) ns key value value_size flags).2 = Some ctx' /\
    uc_dev_id ctx' = uc_dev_id ctx /\
    kv_main (uc_kv_store ctx') !! k' = kv_main (uc_kv_store ctx) !! k'.
Proof.
  intros Hk. destruct mod_ as [m|]; [|by exists ctx]. destruct key as [k|]; [|by exists ctx].
  destruct (sid_ucmd_set_kv_store m ctx ns k value value_size flags)
    as (ctx' & Hctx & Hid & [Hst|Hst] & _); exists ctx'; (split; [done|]); (split; [done|]).
  - by rewrite Hst.
  - rewrite Hst, lookup_insert_ne; [done|]. intros Heq. by eapply Hk.
Qed.

Lemma dev_get_ready_eval rd (m : module) ctx :
  sid_ucmd_dev_get_ready rd (Some m) (Some ctx)
  = _do_sid_ucmd_get_kv None ctx None KV_NS_DEVICE KV_KEY_DEV_READY ≫= λ res,
      Some (match gr_ret res with
            | None => DEV_NOT_RDY_UNPROCESSED
            | Some p => rd p
            end).
Proof. done. Qed.

Lemma do_get_kv_core_frame ctx ctx' key :
  uc_dev_id ctx' = uc_dev_id ctx ->
  (forall k, kv_main (uc_kv_store ctx') !! _compose_key
               (mk_key_spec KV_OP_SET "" KV_NS_DEVICE (uc_dev_id ctx) "" "" k)
             = kv_main (uc_kv_store ctx) !! _compose_key
               (mk_key_spec KV_OP_SET "" KV_NS_DEVICE (uc_dev_id ctx) "" "" k)) ->
  _do_sid_ucmd_get_kv None ctx' None KV_NS_DEVICE key
  = _do_sid_ucmd_get_kv None ctx None KV_NS_DEVICE key.
Proof.
  intros Hid Hst. unfold _do_sid_ucmd_get_kv, _cmd_get_key_spec_value, kv_store_get_value.
  cbn [_get_ns_part default]. by rewrite Hid, Hst.
Qed.

(** X12: [sid_ucmd_set_kv] cannot touch the ready and reserved state of
    the device.  Whatever the arguments, [sid_ucmd_dev_get_ready] and
    [sid_ucmd_dev_get_reserved] give the same result after the call as
    before it: the records a module writes are in the domain [USR], the
    state records have no domain. *)
Theorem sid_ucmd_set_kv_keeps_dev_state
    (dev_ready_of_bytes : string -> dev_ready_t)
    (dev_reserved_of_bytes : string -> dev_reserved_t)
    (mod_ mod' : option module) (ctx : sid_ucmd_ctx)
    (ns : sid_ucmd_kv_namespace_t) (key value : option string)
    (value_size : nat) (flags : Z) :
  let ctx' := (sid_ucmd_set_kv mod_ (Some ctx) ns key value value_size flags).2 in
  sid_ucmd_dev_get_ready dev_ready_of_bytes mod' ctx'
  = sid_ucmd_dev_get_ready dev_ready_of_bytes mod' (Some ctx) /\
  sid_ucmd_dev_get_reserved dev_reserved_of_bytes mod' ctx'
  = sid_ucmd_dev_get_reserved dev_reserved_of_bytes mod' (Some ctx).
Proof.
  intros ctx'. subst ctx'.
  assert (exists ctx1,
    (sid_ucmd_set_kv mod_ (Some ctx) ns key value value_size flags).2 = Some ctx1 /\
    uc_dev_id ctx1 = uc_dev_id ctx /\
    forall k, kv_main (uc_kv_store ctx1) !! _compose_key
                (mk_key_spec KV_OP_SET "" KV_NS_DEVICE (uc_dev_id ctx) "" "" k)
              = kv_main (uc_kv_store ctx) !! _compose_key
                (mk_key_spec KV_OP_SET "" KV_NS_DEVICE (uc_dev_id ctx) "" "" k))
    as (ctx1 & -> & Hid & Hst).
  { destruct mod_ as [m|]; [|by exists ctx]. destruct key as [k0|]; [|by exists ctx].
    destruct (sid_ucmd_set_kv_store m ctx ns k0 value value_size flags)
      as (ctx1 & Hctx & Hid & [Hst|Hst] & _); exists ctx1; (split; [done|]); (split; [done|]);
      intros k; rewrite Hst; [done|].
    rewrite lookup_insert_ne; [done|]. apply user_key_not_core. }
  destruct mod' as [m'|]; [|done].
  unfold sid_ucmd_dev_get_ready, sid_ucmd_dev_get_reserved.
  by rewrite !(do_get_kv_core_frame ctx ctx1).
Qed.

Lemma no_join_app_inj a b x y :
  no_join a -> no_join b -> (a +:+ ":" +:+ x = b +:+ ":" +:+ y)%string -> a = b.
Proof.
  unfold no_join. revert b. induction a as [|c a IH]; intros [|d b].
  - done.
  - intros _. cbn [strchr]. rewrite append_nil_l, !append_cons.
    destruct (Ascii.eqb_spec d ":") as [->|Hd]; [done|]. intros _ [= <- _]. done.
  - cbn [strchr]. rewrite append_nil_l, !append_cons.
    destruct (Ascii.eqb_spec c ":") as [->|Hc]; [done|]. intros _ _ [= -> _]. done.
  - cbn [strchr]. rewrite !append_cons.
    destruct (Ascii.eqb c ":"); [done|]. destruct (Ascii.eqb d ":"); [done|].
    intros Ha Hb [= -> H]. f_equal. by apply IH.
Qed.

Lemma user_key_module_inj (m m' : module) ctx ctx' key key' :
  no_join m -> no_join m' ->
  user_key (Some m) ctx KV_NS_MODULE key = user_key (Some m') ctx' KV_NS_MODULE key' ->
  m = m'.
Proof.
  intros Hm Hm'. unfold user_key, _compose_key. rewrite !do_compose_key_parts.
  cbn [ks_op ks_dom ks_ns ks_ns_part op_to_key_prefix_map ns_to_key_prefix_map
       _get_ns_part _get_mod_name].
  unfold KV_KEY_DOM_USER. rewrite !append_cons, !append_nil_l.
  intros [= H]. by apply no_join_app_inj in H.
Qed.

(** X13: the module namespace keeps modules apart.  For two different
    modules whose names hold no [":"], a [sid_ucmd_set_kv] of one of them
    in [KV_NS_MODULE] does not change what [sid_ucmd_get_kv] of the other
    one finds there, whatever the two keys are. *)
Theorem module_namespaces_disjoint (m m' : module) (ctx : sid_ucmd_ctx)
    (key key' : string) (value : option string) (value_size : nat) (flags : Z) :
  no_join m ->
  no_join m' ->
  m <> m' ->
  let ctx' := (sid_ucmd_set_kv (Some m) (Some ctx) KV_NS_MODULE (Some key)
                               value value_size flags).2 in
  sid_ucmd_get_kv (Some m') ctx' KV_NS_MODULE (Some key')
  = sid_ucmd_get_kv (Some m') (Some ctx) KV_NS_MODULE (Some key').
Proof.
  intros Hm Hm' Hne ctx'. subst ctx'.
  destruct (sid_ucmd_set_kv_frame (Some m) ctx KV_NS_MODULE (Some key) value value_size flags
              (user_key (Some m') ctx KV_NS_MODULE key'))
    as (ctx1 & -> & Hid & Hst).
  { intros ? ? [= <-] [= <-] Heq. apply Hne. symmetry.
    by apply user_key_module_inj in Heq. }
  destruct (ns_eqb KV_NS_MODULE KV_NS_UNDEFINED || key_refused (Some key')) eqn:Hg.
  - unfold sid_ucmd_get_kv. by rewrite Hg.
  - rewrite !sid_ucmd_get_kv_eval by done.
    rewrite (user_key_ctx _ ctx ctx1) by done. by rewrite Hst.
Qed.

Lemma module_namespaces_disjoint_witness :
  let ctx := mk_ucmd_ctx "8_0" (mk_udevice UDEV_ACTION_ADD UDEV_DEVTYPE_DISK None None 8 0 7 0 None)
                         1 kv_store_empty CMD_SCAN_PHASE_A_SCAN_CURRENT in
  sid_ucmd_get_kv (Some "lvm"%string)
    (sid_ucmd_set_kv (Some "dm_mpath"%string) (Some ctx) KV_NS_MODULE (Some "k"%string)
                     (Some "v"%string) 1 0).2
    KV_NS_MODULE (Some "k"%string)
  = sid_ucmd_get_kv (Some "lvm"%string) (Some ctx) KV_NS_MODULE (Some "k"%string).
Proof.
  intros ctx.
  apply (module_namespaces_disjoint "dm_mpath"%string "lvm"%string ctx "k" "k"
           (Some "v"%string) 1 0); [reflexivity|reflexivity|discriminate].
Defined.

(** *** Reservations *)

Lemma set_cc_kv_store_id common s :
  cc_kv_store_res common = Some s -> set_cc_kv_store common s = common.
Proof. destruct common. cbn. by intros ->. Qed.

(** The record that reserving or, in a worker, unreserving writes. *)
Lemma do_reserve_set_eval is_worker (m : module) common s ns key unset :
  cc_kv_store_res common = Some s ->
  (unset && negb is_worker) = false ->
  let rk := reservation_key ns key in
  let flags0 := if unset then KV_FLAGS_UNSET else KV_MOD_RESERVED in
  let flags := if is_worker then Z.lor flags0 (Z.lor KV_SYNC KV_PERSISTENT) else flags0 in
  let rec := KV_SCALAR (mk_vheader (cc_gennum common) 0 flags m) "" in
  let res := _do_sid_ucmd_mod_reserve_kv is_worker (Some m) common ns key unset in
  match kv_main s !! rk with
  | None =>
      res = (0, set_cc_kv_store common (mk_store (<[rk := rec]> (kv_main s)) (kv_alias s)))
  | Some old =>
      if decide (VVALUE_OWNER (_get_vvalue old) = m)
      then res.1 = 0 /\
           exists s', res.2 = set_cc_kv_store common s' /\
                      kv_main s' = <[rk := rec]> (kv_main s)
      else res = (-1, common)
  end.
Proof.
  intros Hs Hw rk flags0 flags rec res. subst res.
  unfold _do_sid_ucmd_mod_reserve_kv. rewrite Hs, Hw.
  fold rk flags0 flags rec. unfold kv_store_set_value, _kv_cb_reserve.
  cbn [us_old_data us_new_data us_arg].
  destruct (kv_main s !! rk) as [old|] eqn:Hold.
  - subst rec. unfold VVALUE_OWNER. cbn [_get_vvalue vv_header vh_owner].
    case_decide as Hown.
    + rewrite Hown, strcmp_eqb_refl. cbn [negb fst snd us_new_data spec_set_ret_code us_arg].
      change (1 =? 0) with false. cbv iota. cbn [fst snd]. split; [done|].
      eexists. split; [done|]. by rewrite manage_kv_index_main.
    + rewrite strcmp_eqb_neq by done. cbn [negb]. change (0 =? 0) with true. cbv iota.
      by rewrite set_cc_kv_store_id.
  - change (1 =? 0) with false. cbv iota. cbn [us_arg us_new_data]. done.
Qed.

(** A reservation that succeeded left the module's record under the
    reservation key. *)
Lemma reserve_ok_record w (A : module) common common' ns key :
  sid_ucmd_mod_reserve_kv w (Some A) (Some common) ns (Some key) = (0, Some common') ->
  key_refused (Some key) = false /\
  exists s',
    cc_kv_store_res common' = Some s' /\
    kv_main s' !! reservation_key ns key
    = Some (KV_SCALAR (mk_vheader (cc_gennum common) 0
                         (if w then Z.lor KV_MOD_RESERVED (Z.lor KV_SYNC KV_PERSISTENT)
                          else KV_MOD_RESERVED) A) "").
Proof.
  unfold sid_ucmd_mod_reserve_kv.
  destruct (key_refused (Some key)) eqn:Hg; [done|].
  destruct (cc_kv_store_res common) as [s|] eqn:Hs.
  2:{ unfold _do_sid_ucmd_mod_reserve_kv. rewrite Hs. done. }
  pose proof (do_reserve_set_eval w A common s ns key false Hs eq_refl) as H.
  cbv zeta in H.
  destruct (_do_sid_ucmd_mod_reserve_kv w (Some A) common ns key false) as [r c'].
  cbn [fst snd] in H. intros [= -> <-]. split; [done|].
  destruct (kv_main s !! reservation_key ns key) as [old|].
  - case_decide; [|by injection H].
    destruct H as (_ & s' & -> & Hst). exists s'. split; [done|].
    by rewrite Hst, lookup_insert_eq.
  - injection H as ->. eexists. split; [done|]. cbn [kv_main]. by rewrite lookup_insert_eq.
Qed.

(** X14: a reservation is exclusive.  Once a module has reserved a key,
    in the main process or in a worker, both [sid_ucmd_mod_reserve_kv] and
    [sid_ucmd_mod_unreserve_kv] of any other module for that key return
    [-1] and leave the store as it is. *)
Theorem reservation_is_exclusive (w w' : bool) (A B : module)
    (common common' : sid_ucmd_common_ctx) (ns : sid_ucmd_kv_namespace_t) (key : string) :
  A <> B ->
  sid_ucmd_mod_reserve_kv w (Some A) (Some common) ns (Some key) = (0, Some common') ->
  sid_ucmd_mod_reserve_kv w' (Some B) (Some common') ns (Some key) = (-1, Some common') /\
  sid_ucmd_mod_unreserve_kv w' (Some B) (Some common') ns (Some key) = (-1, Some common').
Proof.
  intros Hne Hres. apply reserve_ok_record in Hres as (Hg & s' & Hs' & Hrec).
  unfold sid_ucmd_mod_reserve_kv, sid_ucmd_mod_unreserve_kv. rewrite Hg. split.
  - pose proof (do_reserve_set_eval w' B common' s' ns key false Hs' eq_refl) as H.
    cbv zeta in H. rewrite Hrec in H. cbn [_get_vvalue VVALUE_OWNER vv_header vh_owner] in H.
    rewrite decide_False in H by done. by rewrite H.
  - destruct w'.
    + pose proof (do_reserve_set_eval true B common' s' ns key true Hs' eq_refl) as H.
      cbv zeta in H. rewrite Hrec in H. unfold VVALUE_OWNER in H.
      cbn [_get_vvalue vv_header vh_owner] in H.
      rewrite decide_False in H by done. by rewrite H.
    + unfold _do_sid_ucmd_mod_reserve_kv. rewrite Hs'. cbn [andb negb].
      unfold kv_store_unset, _kv_cb_unreserve. rewrite Hrec.
      unfold VVALUE_OWNER. cbn [_get_vvalue vv_header vh_owner ua_owner _get_mod_name].
      rewrite strcmp_eqb_neq by done. cbn [negb]. change (0 =? 0) with true. cbv iota.
      change (-1 <? 0) with true. cbv iota. by rewrite set_cc_kv_store_id.
Qed.

Lemma reservation_is_exclusive_witness :
  let common := mk_common_ctx (Some kv_store_empty) 1 in
  exists common',
    sid_ucmd_mod_reserve_kv false (Some "dm_mpath"%string) (Some common) KV_NS_DEVICE
                            (Some "owner"%string) = (0, Some common') /\
    sid_ucmd_mod_reserve_kv false (Some "lvm"%string) (Some common') KV_NS_DEVICE
                            (Some "owner"%string) = (-1, Some common') /\
    sid_ucmd_mod_unreserve_kv false (Some "lvm"%string) (Some common') KV_NS_DEVICE
                              (Some "owner"%string) = (-1, Some common').
Proof.
  intros common. eexists. split; [vm_compute; reflexivity|].
  apply (reservation_is_exclusive false false "dm_mpath"%string "lvm"%string common _
           KV_NS_DEVICE "owner"); [discriminate|vm_compute; reflexivity].
Defined.

(** A record under the reservation key that is not flagged as reserved by
    the caller closes the key for [sid_ucmd_set_kv] in the namespaces kept
    per device. *)
Lemma set_kv_closed (B : module) ctx ns key value value_size flags h payload :
  (ns = KV_NS_DEVICE \/ (ns = KV_NS_UDEV /\ B <> MOD_NAME_CORE)) ->
  key_refused (Some key) = false ->
  kv_main (uc_kv_store ctx) !! reservation_key ns key = Some (KV_SCALAR h payload) ->
  (flag_test (vh_flags h) KV_MOD_RESERVED = false \/ vh_owner h <> B) ->
  sid_ucmd_set_kv (Some B) (Some ctx) ns (Some key) value value_size flags = (None, Some ctx).
Proof.
  intros Hns Hg Hrec Hclosed. unfold sid_ucmd_set_kv. rewrite Hg.
  assert (ns_eqb ns KV_NS_UNDEFINED = false) as -> by (by destruct Hns as [->|[-> _]]).
  cbn [orb]. unfold _do_sid_ucmd_set_kv.
  assert (negb (ns_eqb ns KV_NS_UDEV
                && (strcmp (_get_mod_name (Some B)) OWNER_CORE =? 0)) = true) as ->.
  { destruct Hns as [->|[-> HB]]; [done|]. cbn [ns_eqb andb _get_mod_name].
    by rewrite strcmp_eqb_neq. }
  assert (_passes_global_reservation_check ctx (_get_mod_name (Some B)) ns key = 0) as ->.
  { unfold _passes_global_reservation_check.
    assert (negb (ns_eqb ns KV_NS_UDEV) && negb (ns_eqb ns KV_NS_DEVICE) = false) as ->
      by (by destruct Hns as [->|[-> _]]).
    unfold kv_store_get_value. fold (reservation_key ns key). rewrite Hrec.
    unfold VVALUE_FLAGS, VVALUE_OWNER. cbn [_get_vvalue vv_header _get_mod_name].
    destruct Hclosed as [->|Hown]; [done|].
    rewrite strcmp_eqb_neq by done. by rewrite andb_false_r. }
  done.
Qed.

(** X15: a reservation closes the key for the other modules.  After a
    module has reserved a key in the device or the udev namespace,
    [sid_ucmd_set_kv] of any other module for that key, for whatever
    device the context is about, returns NULL and leaves the context as it
    is.  (In the udev namespace a caller named as the core is exempt from
    the check.) *)
Theorem reservation_blocks_set_kv (w : bool) (A B : module)
    (common common' : sid_ucmd_common_ctx) (ns : sid_ucmd_kv_namespace_t) (key : string)
    (ctx : sid_ucmd_ctx) (value : option string) (value_size : nat) (flags : Z) :
  A <> B ->
  (ns = KV_NS_DEVICE \/ (ns = KV_NS_UDEV /\ B <> MOD_NAME_CORE)) ->
  sid_ucmd_mod_reserve_kv w (Some A) (Some common) ns (Some key) = (0, Some common') ->
  uc_common ctx = common' ->
  sid_ucmd_set_kv (Some B) (Some ctx) ns (Some key) value value_size flags = (None, Some ctx).
Proof.
  intros Hne Hns Hres <-. apply reserve_ok_record in Hres as (Hg & s' & Hs' & Hrec).
  cbn in Hs'. injection Hs' as <-.
  eapply set_kv_closed; [done|done|exact Hrec|]. right. done.
Qed.

Lemma reservation_blocks_set_kv_witness :
  let common := mk_common_ctx (Some kv_store_empty) 1 in
  exists s',
    let ctx := mk_ucmd_ctx "8_0"
                 (mk_udevice UDEV_ACTION_ADD UDEV_DEVTYPE_DISK None None 8 0 7 0 None)
                 1 s' CMD_SCAN_PHASE_A_SCAN_CURRENT in
    sid_ucmd_mod_reserve_kv false (Some "dm_mpath"%string) (Some common) KV_NS_DEVICE
                            (Some "owner"%string) = (0, Some (uc_common ctx)) /\
    sid_ucmd_set_kv (Some "lvm"%string) (Some ctx) KV_NS_DEVICE (Some "owner"%string)
                    (Some "x"%string) 1 0 = (None, Some ctx).
Proof.
  intros common. eexists. intros ctx.
  assert (H : sid_ucmd_mod_reserve_kv false (Some "dm_mpath"%string) (Some common)
                KV_NS_DEVICE (Some "owner"%string) = (0, Some (uc_common ctx))).
  { vm_compute. reflexivity. }
  split; [exact H|].
  apply (reservation_blocks_set_kv false "dm_mpath"%string "lvm"%string common (uc_common ctx)
           KV_NS_DEVICE "owner" ctx (Some "x"%string) 1 0);
    [discriminate|by left|exact H|reflexivity].
Defined.

(** X16: in the main process unreserving undoes reserving.  On a store
    without a record under the reservation key, [sid_ucmd_mod_reserve_kv]
    returns 0 and changes the store, and [sid_ucmd_mod_unreserve_kv] of the
    same module then returns 0 and gives back the store as it was, records
    and sync index alike. *)
Theorem unreserve_undoes_reserve (A : module) (s : kv_store) (gennum : Z)
    (ns : sid_ucmd_kv_namespace_t) (key : string) :
  key_refused (Some key) = false ->
  kv_store_get_value s (reservation_key ns key) = None ->
  let common := mk_common_ctx (Some s) gennum in
  exists common1,
    sid_ucmd_mod_reserve_kv false (Some A) (Some common) ns (Some key) = (0, Some common1) /\
    common1 <> common /\
    sid_ucmd_mod_unreserve_kv false (Some A) (Some common1) ns (Some key)
    = (0, Some common).
Proof.
  intros Hg Hfree common. unfold kv_store_get_value in Hfree.
  unfold sid_ucmd_mod_reserve_kv, sid_ucmd_mod_unreserve_kv. rewrite Hg.
  pose proof (do_reserve_set_eval false A common s ns key false eq_refl eq_refl) as H.
  cbv zeta in H. rewrite Hfree in H. rewrite H. eexists. split; [done|]. split.
  - intros [= Heq]. apply (f_equal kv_main) in Heq. cbn in Heq.
    apply (f_equal (λ m, m !! reservation_key ns key)) in Heq.
    rewrite lookup_insert_eq in Heq. congruence.
  - unfold _do_sid_ucmd_mod_reserve_kv. cbn [cc_kv_store_res set_cc_kv_store andb negb].
    unfold kv_store_unset, _kv_cb_unreserve. cbn [kv_main]. rewrite lookup_insert_eq.
    unfold VVALUE_OWNER. cbn [_get_vvalue vv_header vh_owner ua_owner _get_mod_name].
    rewrite strcmp_eqb_refl. cbn [negb]. change (1 =? 0) with false. cbv iota.
    change (0 <? 0) with false. cbv iota. cbn [kv_main kv_alias cc_gennum].
    rewrite delete_insert_id by done. unfold common. by destruct s.
Qed.

Lemma unreserve_undoes_reserve_witness :
  let common := mk_common_ctx (Some kv_store_empty) 1 in
  exists common1,
    sid_ucmd_mod_reserve_kv false (Some "dm_mpath"%string) (Some common) KV_NS_GLOBAL
                            (Some "owner"%string) = (0, Some common1) /\
    common1 <> common /\
    sid_ucmd_mod_unreserve_kv false (Some "dm_mpath"%string) (Some common1) KV_NS_GLOBAL
                              (Some "owner"%string) = (0, Some common).
Proof.
  apply (unreserve_undoes_reserve "dm_mpath"%string kv_store_empty 1 KV_NS_GLOBAL "owner");
    reflexivity.
Defined.

(** X17: in a worker unreserving does not free the key.  A successful
    [sid_ucmd_mod_unreserve_kv] in a worker leaves a record without payload
    and without [KV_MOD_RESERVED] under the reservation key, and with that
    record in the store [sid_ucmd_set_kv] for the key in the device or the
    udev namespace returns NULL for every module, the one that unreserved
    included. *)
Theorem worker_unreserve_closes_key (A B : module)
    (common common' : sid_ucmd_common_ctx) (ns : sid_ucmd_kv_namespace_t) (key : string)
    (ctx : sid_ucmd_ctx) (value : option string) (value_size : nat) (flags : Z) :
  (ns = KV_NS_DEVICE \/ (ns = KV_NS_UDEV /\ B <> MOD_NAME_CORE)) ->
  sid_ucmd_mod_unreserve_kv true (Some A) (Some common) ns (Some key) = (0, Some common') ->
  uc_common ctx = common' ->
  (exists h, kv_store_get_value (uc_kv_store ctx) (reservation_key ns key)
             = Some (KV_SCALAR h "") /\
             flag_test (vh_flags h) KV_MOD_RESERVED = false) /\
  sid_ucmd_set_kv (Some B) (Some ctx) ns (Some key) value value_size flags = (None, Some ctx).
Proof.
  intros Hns Hres <-. revert Hres. unfold sid_ucmd_mod_unreserve_kv.
  destruct (key_refused (Some key)) eqn:Hg; [done|].
  destruct (cc_kv_store_res common) as [s|] eqn:Hs.
  2:{ unfold _do_sid_ucmd_mod_reserve_kv. rewrite Hs. done. }
  pose proof (do_reserve_set_eval true A common s ns key true Hs eq_refl) as H.
  cbv zeta in H.
  destruct (_do_sid_ucmd_mod_reserve_kv true (Some A) common ns key true) as [r c'].
  cbn [fst snd] in H. intros [= -> Hc].
  assert (Hrec : kv_main (uc_kv_store ctx) !! reservation_key ns key
                 = Some (KV_SCALAR (mk_vheader (cc_gennum common) 0
                           (Z.lor KV_FLAGS_UNSET (Z.lor KV_SYNC KV_PERSISTENT)) A) "")).
  { destruct (kv_main s !! reservation_key ns key) as [old|].
    - case_decide; [|by injection H].
      destruct H as (_ & s' & -> & Hst). cbn in Hc. injection Hc as ->.
      by rewrite Hst, lookup_insert_eq.
    - injection H as ->. cbn in Hc. injection Hc as <-. cbn [kv_main].
      by rewrite lookup_insert_eq. }
  split; [by eexists|].
  eapply set_kv_closed; [done|done|exact Hrec|]. by left.
Qed.

Lemma worker_unreserve_closes_key_witness :
  let common :=
    mk_common_ctx
      (Some (mk_store {[ reservation_key KV_NS_DEVICE "owner" :=
                           KV_SCALAR (mk_vheader 1 0 25 "dm_mpath") "" ]} ∅)) 1 in
  exists s',
    let ctx := mk_ucmd_ctx "8_0"
                 (mk_udevice UDEV_ACTION_ADD UDEV_DEVTYPE_DISK None None 8 0 7 0 None)
                 1 s' CMD_SCAN_PHASE_A_SCAN_CURRENT in
    sid_ucmd_mod_unreserve_kv true (Some "dm_mpath"%string) (Some common)
                              KV_NS_DEVICE (Some "owner"%string) = (0, Some (uc_common ctx)) /\
    sid_ucmd_set_kv (Some "dm_mpath"%string) (Some ctx) KV_NS_DEVICE (Some "owner"%string)
                    (Some "x"%string) 1 0 = (None, Some ctx).
Proof.
  intros common. eexists. intros ctx.
  assert (H : sid_ucmd_mod_unreserve_kv true (Some "dm_mpath"%string) (Some common)
                KV_NS_DEVICE (Some "owner"%string)
              = (0, Some (uc_common ctx))).
  { vm_compute. reflexivity. }
  split; [exact H|].
  apply (proj2 (worker_unreserve_closes_key "dm_mpath"%string "dm_mpath"%string common
           (uc_common ctx) KV_NS_DEVICE "owner" ctx (Some "x"%string) 1 0
           (or_introl eq_refl) H eq_refl)).
Defined.

(** *** The ready state *)

Lemma kv_cb_overwrite_same_owner spec old :
  us_old_data spec = Some old ->
  VVALUE_OWNER (_get_vvalue old) = VVALUE_OWNER (_get_vvalue (us_new_data spec)) ->
  (_kv_cb_overwrite spec).1 = 1.
Proof.
  intros Hold Hown. unfold _kv_cb_overwrite. rewrite Hold. cbn [option_map].
  rewrite Hown, strcmp_eqb_refl. cbn [negb].
  by repeat (match goal with |- context [if ?b then _ else _] => destruct b end).
Qed.

(** X18: the ready state that was set is the one read.  Take a
    representation of [dev_ready_t] of non-zero size that can be read back,
    and a store in which the key of the ready state is not reserved and a
    record of the ready state, if any, is owned by the core.  When
    [sid_ucmd_dev_set_ready] returns 0, [sid_ucmd_dev_get_ready] of any
    module on the context it left gives the state that was set. *)
Theorem dev_ready_set_get (dev_ready_bytes : dev_ready_t -> string)
    (dev_ready_of_bytes : string -> dev_ready_t) (m m' : module)
    (ctx ctx' : sid_ucmd_ctx) (ready : dev_ready_t) :
  (forall r, dev_ready_of_bytes (dev_ready_bytes r) = r) ->
  (forall r, dev_ready_bytes r <> ""%string) ->
  kv_store_get_value (uc_kv_store ctx) (reservation_key KV_NS_DEVICE KV_KEY_DEV_READY) = None ->
  (forall old,
     kv_store_get_value (uc_kv_store ctx)
       (_compose_key (mk_key_spec KV_OP_SET "" KV_NS_DEVICE (uc_dev_id ctx) "" ""
                                  KV_KEY_DEV_READY)) = Some old ->
     VVALUE_OWNER (_get_vvalue old) = OWNER_CORE) ->
  sid_ucmd_dev_set_ready dev_ready_bytes (Some m) (Some ctx) ready = (0, Some ctx') ->
  sid_ucmd_dev_get_ready dev_ready_of_bytes (Some m') (Some ctx') = Some ready.
Proof.
  intros Hdec Hsize Hres Hold. unfold sid_ucmd_dev_set_ready.
  destruct (negb (flag_test _ CMD_SCAN_CAP_RDY)); [by destruct ready|].
  set (bytes := dev_ready_bytes ready).
  pose proof (do_sid_ucmd_set_kv_store None ctx None KV_NS_DEVICE KV_KEY_DEV_READY
                DEFAULT_VALUE_FLAGS_CORE (Some bytes) (String.length bytes)) as Hset.
  cbv zeta in Hset.
  assert (Hret : exists p, (_do_sid_ucmd_set_kv None ctx None KV_NS_DEVICE KV_KEY_DEV_READY
                   DEFAULT_VALUE_FLAGS_CORE (Some bytes) (String.length bytes)).1 = Some p).
  { unfold _do_sid_ucmd_set_kv. cbn [ns_eqb andb negb].
    unfold _passes_global_reservation_check. cbn [ns_eqb andb negb].
    fold (reservation_key KV_NS_DEVICE KV_KEY_DEV_READY). rewrite Hres.
    change (1 <=? 0) with false. cbv iota. unfold kv_store_set_value.
    cbn [default _get_ns_part].
    set (spec := mk_update_spec _ _ _ _).
    assert (Hr : (_kv_cb_overwrite spec).1 = 1).
    { destruct (us_old_data spec) as [old|] eqn:Eold.
      - apply (kv_cb_overwrite_same_owner spec old Eold). subst spec.
        cbn [us_old_data] in Eold. cbn [us_new_data _get_vvalue VVALUE_OWNER vv_header vh_owner].
        by apply Hold.
      - unfold _kv_cb_overwrite. by rewrite Eold. }
    destruct (_kv_cb_overwrite spec) as [r spec']. cbn [fst] in Hr. subst r.
    change (1 =? 0) with false. cbv iota.
    destruct (Nat.eqb_spec (String.length bytes) 0) as [He|He].
    - exfalso. apply (Hsize ready). fold bytes. by destruct bytes.
    - cbn [fst]. by eexists. }
  destruct Hret as [p Hp].
  destruct (_do_sid_ucmd_set_kv None ctx None KV_NS_DEVICE KV_KEY_DEV_READY
              DEFAULT_VALUE_FLAGS_CORE (Some bytes) (String.length bytes)) as [ret ctx1].
  cbn [fst snd] in *. destruct Hset as (Hid & _ & _ & _ & _ & Hst).
  destruct (Hst p Hp) as (-> & Hne & Hmain).
  assert (Hok : ready <> DEV_NOT_RDY_UNDEFINED /\ ready <> DEV_NOT_RDY_UNPROCESSED ->
                (0, Some ctx1) = (0, Some ctx') ->
                sid_ucmd_dev_get_ready dev_ready_of_bytes (Some m') (Some ctx') = Some ready).
  { intros _ [= <-]. unfold sid_ucmd_dev_get_ready, _do_sid_ucmd_get_kv,
      _cmd_get_key_spec_value, kv_store_get_value.
    cbn [default _get_ns_part]. rewrite Hid, Hmain, lookup_insert_eq.
    cbn [vh_flags vh_owner _get_mod_name]. rewrite strcmp_eqb_refl, andb_false_r.
    unfold bytes_take. rewrite substring_all.
    destruct (Nat.eqb_spec (String.length bytes) 0) as [He|He]; [done|].
    cbn. unfold bytes. by rewrite Hdec. }
  destruct ready; try done; intros H; apply Hok; done.
Qed.

Lemma dev_ready_set_get_witness :
  let bytes (r : dev_ready_t) : string :=
    match r with
    | DEV_NOT_RDY_UNDEFINED => "0" | DEV_NOT_RDY_UNPROCESSED => "1"
    | DEV_NOT_RDY_INACCESSIBLE => "2" | DEV_NOT_RDY_ACCESSIBLE => "3"
    | DEV_RDY_PRIVATE => "4" | DEV_RDY_PUBLIC => "5" | DEV_RDY_UNAVAILABLE => "6"
    end in
  let of_bytes (s : string) : dev_ready_t :=
    if String.eqb s "0" then DEV_NOT_RDY_UNDEFINED
    else if String.eqb s "1" then DEV_NOT_RDY_UNPROCESSED
    else if String.eqb s "2" then DEV_NOT_RDY_INACCESSIBLE
    else if String.eqb s "3" then DEV_NOT_RDY_ACCESSIBLE
    else if String.eqb s "4" then DEV_RDY_PRIVATE
    else if String.eqb s "5" then DEV_RDY_PUBLIC
    else DEV_RDY_UNAVAILABLE in
  let ctx := mk_ucmd_ctx "8_0" (mk_udevice UDEV_ACTION_ADD UDEV_DEVTYPE_DISK None None 8 0 7 0 None)
                         1 kv_store_empty CMD_SCAN_PHASE_A_SCAN_CURRENT in
  exists ctx',
    sid_ucmd_dev_set_ready bytes (Some "dm_mpath"%string) (Some ctx) DEV_RDY_PUBLIC
    = (0, Some ctx') /\
    sid_ucmd_dev_get_ready of_bytes (Some "lvm"%string) (Some ctx') = Some DEV_RDY_PUBLIC.
Proof.
  intros bytes of_bytes ctx. eexists. split; [vm_compute; reflexivity|].
  apply (dev_ready_set_get bytes of_bytes "dm_mpath"%string "lvm"%string ctx _ DEV_RDY_PUBLIC).
  - by intros [].
  - by intros [].
  - reflexivity.
  - intros old H. vm_compute in H. discriminate.
  - vm_compute. reflexivity.
Defined.

(** ** The merge walk keeps vectors sorted *)

Lemma walk_classify_items_elem old new x :
  x ∈ (walk_classify old new).*2 -> x ∈ old \/ x ∈ new.
Proof.
  revert new. induction old as [|o old IHo]; intros new.
  - induction new as [|n new IHn].
    { change (walk_classify [] []) with (@nil (walk_case * string)).
      by rewrite fmap_nil, elem_of_nil. }
    rewrite walk_classify_nil_l, fmap_cons, !elem_of_cons. naive_solver.
  - induction new as [|n new IHn].
    + rewrite walk_classify_nil_r, fmap_cons, !elem_of_cons.
      intros [->|H]; [by left; left|]. apply IHo in H as [H|H]; [by left; right|].
      by apply elem_of_nil in H.
    + rewrite walk_classify_cons.
      destruct (strcmp o n <? 0); [|destruct (0 <? strcmp o n)];
        rewrite fmap_cons, !elem_of_cons; cbn [snd].
      * intros [->|H]; [by left; left|]. apply IHo in H. rewrite elem_of_cons in H.
        naive_solver.
      * intros [->|H]; [by right; left|]. apply IHn in H. rewrite elem_of_cons in H.
        naive_solver.
      * intros [->|H]; [by right; left|]. apply IHo in H. naive_solver.
Qed.

(** The items that the walk meets, in its order, are sorted without
    repetition. *)
Lemma walk_classify_sorted old new :
  strict_sorted old -> strict_sorted new -> strict_sorted (walk_classify old new).*2.
Proof.
  revert new. induction old as [|o old IHo]; intros new.
  - intros _. induction new as [|n new IHn].
    { change (walk_classify [] []) with (@nil (walk_case * string)). constructor. }
    intros Hn. rewrite walk_classify_nil_l, fmap_cons. cbn [snd].
    apply strict_sorted_cons in Hn as [Hall Hn]. apply strict_sorted_cons. split; [|by apply IHn].
    apply Forall_forall. intros x Hx. apply walk_classify_items_elem in Hx as [Hx|Hx];
      [by apply elem_of_nil in Hx|]. by eapply Forall_forall in Hall.
  - induction new as [|n new IHn]; intros Ho Hn.
    + rewrite walk_classify_nil_r, fmap_cons. cbn [snd].
      pose proof Ho as Ho'. apply strict_sorted_cons in Ho' as [Hall Ho'].
      apply strict_sorted_cons. split; [|by apply IHo].
      apply Forall_forall. intros x Hx. apply walk_classify_items_elem in Hx as [Hx|Hx];
        [|by apply elem_of_nil in Hx]. by eapply Forall_forall in Hall.
    + rewrite walk_classify_cons.
      pose proof Ho as Ho'. apply strict_sorted_cons in Ho' as [Hallo Ho'].
      pose proof Hn as Hn'. apply strict_sorted_cons in Hn' as [Halln Hn'].
      destruct (strcmp o n <? 0) eqn:Hlt; [|destruct (0 <? strcmp o n) eqn:Hgt];
        rewrite fmap_cons; cbn [snd]; apply strict_sorted_cons.
      * apply Z.ltb_lt in Hlt. split; [|by apply IHo].
        apply Forall_forall. intros x Hx. apply walk_classify_items_elem in Hx as [Hx|Hx].
        -- by eapply Forall_forall in Hallo.
        -- apply elem_of_cons in Hx as [->|Hx]; [done|].
           eapply strcmp_lt_trans; [exact Hlt|]. by eapply Forall_forall in Halln.
      * apply Z.ltb_lt in Hgt. apply strcmp_gt_lt in Hgt. split; [|by apply IHn].
        apply Forall_forall. intros x Hx. apply walk_classify_items_elem in Hx as [Hx|Hx].
        -- apply elem_of_cons in Hx as [->|Hx]; [done|].
           eapply strcmp_lt_trans; [exact Hgt|]. by eapply Forall_forall in Hallo.
        -- by eapply Forall_forall in Halln.
      * assert (o = n) as ->.
        { apply strcmp_eq_iff. apply Z.ltb_ge in Hlt, Hgt. lia. }
        split; [|by apply IHo].
        apply Forall_forall. intros x Hx. apply walk_classify_items_elem in Hx as [Hx|Hx].
        -- by eapply Forall_forall in Hallo.
        -- by eapply Forall_forall in Halln.
Qed.

Lemma strict_sorted_filter_snd (sel : walk_case -> bool) (w : list (walk_case * string)) :
  strict_sorted w.*2 -> strict_sorted (table_select sel w).
Proof.
  unfold table_select. induction w as [|[c x] w IH]; [done|].
  rewrite fmap_cons. cbn [snd]. intros Hs. apply strict_sorted_cons in Hs as [Hall Hs].
  rewrite filter_cons. cbn [fst]. destruct (decide (sel c = true)); [|by apply IH].
  rewrite fmap_cons. cbn [snd]. apply strict_sorted_cons. split; [|by apply IH].
  apply Forall_forall. intros y Hy. eapply Forall_forall in Hall; [done|].
  apply list_elem_of_fmap in Hy as [[c' y'] [-> Hy]].
  apply list_elem_of_filter in Hy as [_ Hy]. apply list_elem_of_fmap. by exists (c', y').
Qed.

Lemma table_select_sorted sel old new :
  strict_sorted old -> strict_sorted new ->
  strict_sorted (table_select sel (walk_classify old new)).
Proof. intros. by apply strict_sorted_filter_snd, walk_classify_sorted. Qed.

(** X19: the merge walk keeps vectors sorted.  For a legal operation on a
    stored vector and a new vector that are both sorted by [strcmp] without
    repetition, the three buffers that [_delta_step_calc] leaves, [final],
    [plus] and [minus], hold their items sorted without repetition again,
    so the vector that is committed is fit for the next walk. *)
Theorem delta_step_calc_keeps_sorted (op : kv_op_t) (fl : Z) (old : option vvalue)
    (new : vvalue) :
  op <> KV_OP_ILLEGAL ->
  strict_sorted (delta_items old) ->
  strict_sorted (vv_data new) ->
  let d := (delta_step_calc (mk_delta op fl None None None) old new).2 in
  strict_sorted (delta_items (d_final d)) /\
  strict_sorted (delta_items (d_plus d)) /\
  strict_sorted (delta_items (d_minus d)).
Proof.
  intros Hop Ho Hn d. subst d. rewrite delta_step_calc_legal by done.
  cbn [snd d_final d_plus d_minus]. rewrite !delta_items_destroy_if_unused.
  cbn [delta_items vv_data]. split_and!; try by apply table_select_sorted.
  destruct old; [by apply table_select_sorted|constructor].
Qed.

Lemma delta_step_calc_keeps_sorted_witness :
  let h := mk_vheader 1 7 0 "#core" in
  let d := (delta_step_calc (mk_delta KV_OP_PLUS DELTA_WITH_DIFF None None None)
                            (Some (mk_vvalue h ["a"; "c"])) (mk_vvalue h ["b"; "c"])).2 in
  strict_sorted (delta_items (d_final d)) /\
  strict_sorted (delta_items (d_plus d)) /\
  strict_sorted (delta_items (d_minus d)).
Proof.
  intros h.
  apply (delta_step_calc_keeps_sorted KV_OP_PLUS DELTA_WITH_DIFF
           (Some (mk_vvalue h ["a"; "c"])) (mk_vvalue h ["b"; "c"])).
  - discriminate.
  - repeat constructor.
  - repeat constructor.
Defined.

(** *** Adding and removing the same items *)

Lemma strict_sorted_ext l1 : forall l2,
  strict_sorted l1 -> strict_sorted l2 -> (forall x, x ∈ l1 <-> x ∈ l2) -> l1 = l2.
Proof.
  induction l1 as [|a l1 IH]; intros [|b l2] H1 H2 Hm.
  - done.
  - exfalso. eapply elem_of_nil, Hm. left.
  - exfalso. eapply elem_of_nil, Hm. left.
  - pose proof (strict_sorted_head_notin _ _ H1) as Ha.
    pose proof (strict_sorted_head_notin _ _ H2) as Hb.
    apply strict_sorted_cons in H1 as [Hall1 H1], H2 as [Hall2 H2].
    assert (a = b) as ->.
    { pose proof (proj1 (Hm a) ltac:(left)) as Hab.
      pose proof (proj2 (Hm b) ltac:(left)) as Hba.
      apply elem_of_cons in Hab as [->|Hab]; [done|].
      apply elem_of_cons in Hba as [->|Hba]; [done|].
      eapply Forall_forall in Hall1; [|exact Hba].
      eapply Forall_forall in Hall2; [|exact Hab].
      pose proof (strcmp_lt_trans _ _ _ Hall1 Hall2) as Hc.
      rewrite strcmp_refl in Hc. lia. }
    f_equal. apply IH; [done|done|].
    intros x. specialize (Hm x). rewrite !elem_of_cons in Hm. split; intros Hx.
    + destruct (proj1 Hm (or_intror Hx)) as [->|]; done.
    + destruct (proj2 Hm (or_intror Hx)) as [->|]; done.
Qed.

Lemma strict_sorted_filter (P : string -> Prop) `{!forall x, Decision (P x)} l :
  strict_sorted l -> strict_sorted (filter P l).
Proof.
  induction l as [|a l IH]; [done|]. intros Hs. apply strict_sorted_cons in Hs as [Hall Hs].
  rewrite filter_cons. destruct (decide (P a)); [|by apply IH].
  apply strict_sorted_cons. split; [|by apply IH].
  apply Forall_forall. intros x Hx. apply list_elem_of_filter in Hx as [_ Hx].
  by eapply Forall_forall in Hall.
Qed.

(** The final vector of a legal operation, by membership. *)
Lemma delta_final_elem op fl old new x :
  op <> KV_OP_ILLEGAL ->
  strict_sorted (delta_items old) ->
  strict_sorted (vv_data new) ->
  x ∈ delta_items (d_final (delta_step_calc (mk_delta op fl None None None) old new).2) <->
  match op with
  | KV_OP_SET => x ∈ vv_data new
  | KV_OP_PLUS => x ∈ delta_items old \/ x ∈ vv_data new
  | KV_OP_MINUS => x ∈ delta_items old /\ x ∉ vv_data new
  | KV_OP_ILLEGAL => False
  end.
Proof.
  intros Hop Ho Hn. rewrite delta_step_calc_legal by done. cbn [snd d_final delta_items vv_data].
  rewrite elem_of_table_select.
  pose proof (walk_classify_spec _ _ Ho Hn) as Hw. split.
  - intros [c [Hc Hin]]. apply Hw in Hin. destruct op, c; naive_solver.
  - intros H. destruct op; try done.
    + destruct (decide (x ∈ delta_items old)).
      * exists IN_BOTH. split; [done|]. by apply Hw.
      * exists ONLY_IN_NEW. split; [done|]. by apply Hw.
    + destruct (decide (x ∈ delta_items old)); destruct (decide (x ∈ vv_data new)).
      * exists IN_BOTH. split; [done|]. by apply Hw.
      * exists ONLY_IN_OLD. split; [done|]. by apply Hw.
      * exists ONLY_IN_NEW. split; [done|]. by apply Hw.
      * naive_solver.
    + exists ONLY_IN_OLD. split; [done|]. by apply Hw.
Qed.

Lemma delta_final_sorted op fl old new :
  op <> KV_OP_ILLEGAL ->
  strict_sorted (delta_items old) ->
  strict_sorted (vv_data new) ->
  strict_sorted
    (delta_items (d_final (delta_step_calc (mk_delta op fl None None None) old new).2)).
Proof.
  intros Hop Ho Hn. rewrite delta_step_calc_legal by done. cbn [snd d_final delta_items vv_data].
  by apply table_select_sorted.
Qed.

(** X20: how [PLUS] and [MINUS] with the same items compose.  On sorted
    vectors, taking the final vector of one walk as the stored vector of
    the next: adding the items and then removing them leaves the stored
    items that are not among them; removing and then adding gives what
    adding alone gives; adding twice is adding once, and removing twice is
    removing once. *)
Theorem delta_plus_minus_compose (fl : Z) (old : option vvalue) (new : vvalue) :
  strict_sorted (delta_items old) ->
  strict_sorted (vv_data new) ->
  let final op o := d_final (delta_step_calc (mk_delta op fl None None None) o new).2 in
  delta_items (final KV_OP_MINUS (final KV_OP_PLUS old))
  = filter (λ x, x ∉ vv_data new) (delta_items old) /\
  delta_items (final KV_OP_PLUS (final KV_OP_MINUS old))
  = delta_items (final KV_OP_PLUS old) /\
  delta_items (final KV_OP_PLUS (final KV_OP_PLUS old))
  = delta_items (final KV_OP_PLUS old) /\
  delta_items (final KV_OP_MINUS (final KV_OP_MINUS old))
  = delta_items (final KV_OP_MINUS old).
Proof.
  intros Ho Hn final.
  assert (Hs : forall op o, op <> KV_OP_ILLEGAL -> strict_sorted (delta_items o) ->
                 strict_sorted (delta_items (final op o))).
  { intros. by apply delta_final_sorted. }
  assert (He : forall op o x, op <> KV_OP_ILLEGAL -> strict_sorted (delta_items o) ->
                 x ∈ delta_items (final op o) <->
                 match op with
                 | KV_OP_SET => x ∈ vv_data new
                 | KV_OP_PLUS => x ∈ delta_items o \/ x ∈ vv_data new
                 | KV_OP_MINUS => x ∈ delta_items o /\ x ∉ vv_data new
                 | KV_OP_ILLEGAL => False
                 end).
  { intros. by apply delta_final_elem. }
  split_and!; apply strict_sorted_ext; try (by repeat apply Hs);
    try (by apply strict_sorted_filter); intros x.
  - rewrite He by (by try apply Hs). rewrite He by done.
    rewrite list_elem_of_filter. naive_solver.
  - rewrite He by (by try apply Hs). rewrite !He by done.
    destruct (decide (x ∈ vv_data new)); naive_solver.
  - rewrite He by (by try apply Hs). rewrite !He by done. naive_solver.
  - rewrite He by (by try apply Hs). rewrite !He by done. naive_solver.
Qed.

Lemma delta_plus_minus_compose_witness :
  let h := mk_vheader 1 7 0 "#core" in
  let new := mk_vvalue h ["b"; "c"] in
  let final op o := d_final (delta_step_calc (mk_delta op 0 None None None) o new).2 in
  delta_items (final KV_OP_MINUS (final KV_OP_PLUS (Some (mk_vvalue h ["a"; "c"])))) = ["a"%string].
Proof.
  intros h new final.
  apply (proj1 (delta_plus_minus_compose 0 (Some (mk_vvalue h ["a"; "c"])) new
                  ltac:(repeat constructor) ltac:(repeat constructor))).
Defined.

(** ** Groups *)

Lemma set_uc_kv_store_id ctx : set_uc_kv_store ctx (uc_kv_store ctx) = ctx.
Proof. by destruct ctx. Qed.

Lemma group_key_ctx mod_ ctx ctx' ns id :
  uc_dev_id ctx' = uc_dev_id ctx -> group_key mod_ ctx' ns id = group_key mod_ ctx ns id.
Proof. unfold group_key, _get_ns_part. by intros ->. Qed.

Lemma group_create_eval (m : module) ctx ns id fl :
  group_args_refused (Some m) (Some ctx) ns (Some id) = false ->
  let k := group_key (Some m) ctx ns id in
  let s := uc_kv_store ctx in
  sid_ucmd_group_create (Some m) (Some ctx) ns (Some id) fl
  = match kv_main s !! k with
    | Some _ => (-1, Some ctx)
    | None =>
        (0, Some (set_uc_kv_store ctx
                    (mk_store
                       (<[k := KV_VECTOR (mk_vvalue
                                 (mk_vheader (uc_gennum ctx) (ud_seqnum (uc_udev ctx))
                                             value_flags_sync OWNER_CORE) [])]> (kv_main s))
                       (<[String ">" (string_tail k) := string_tail k]> (kv_alias s)))))
    end.
Proof.
  intros Hg k s. unfold sid_ucmd_group_create. rewrite Hg.
  fold (group_key (Some m) ctx ns id). fold k. fold s.
  unfold kv_store_set_value, _kv_cb_write_new_only. cbn [us_old_data us_new_data us_arg].
  destruct (kv_main s !! k) as [old|].
  - change (0 =? 0) with true. cbv iota. subst s. by rewrite set_uc_kv_store_id.
  - change (1 =? 0) with false. cbv iota. cbn [us_new_data us_arg spec_set_ret_code].
    done.
Qed.

(** X21: [sid_ucmd_group_create] creates and never overwrites.  When it
    returns 0 there was no record under the group's key; the record is now
    the vector of the header alone, owned by the core with the flags
    [value_flags_sync], and the key is in the sync index.  Creating the
    same group again returns [-1] and changes nothing in the context. *)
Theorem group_create_new_only (m : module) (ctx ctx' : sid_ucmd_ctx)
    (group_ns : sid_ucmd_kv_namespace_t) (group_id : string) (group_flags group_flags' : Z) :
  sid_ucmd_group_create (Some m) (Some ctx) group_ns (Some group_id) group_flags
  = (0, Some ctx') ->
  let k := group_key (Some m) ctx group_ns group_id in
  kv_store_get_value (uc_kv_store ctx) k = None /\
  kv_store_get_value (uc_kv_store ctx') k
  = Some (KV_VECTOR (mk_vvalue (mk_vheader (uc_gennum ctx) (ud_seqnum (uc_udev ctx))
                                           value_flags_sync OWNER_CORE) [])) /\
  kv_alias (uc_kv_store ctx')
  = <[String ">" (string_tail k) := string_tail k]> (kv_alias (uc_kv_store ctx)) /\
  sid_ucmd_group_create (Some m) (Some ctx') group_ns (Some group_id) group_flags'
  = (-1, Some ctx').
Proof.
  intros Hres k.
  destruct (group_args_refused (Some m) (Some ctx) group_ns (Some group_id)) eqn:Hg.
  { unfold sid_ucmd_group_create in Hres. by rewrite Hg in Hres. }
  rewrite group_create_eval in Hres by done. fold k in Hres. unfold kv_store_get_value.
  destruct (kv_main (uc_kv_store ctx) !! k) as [old|] eqn:Hold; [done|].
  injection Hres as <-. cbn [uc_kv_store set_uc_kv_store kv_main kv_alias].
  rewrite lookup_insert_eq. split_and!; try done.
  rewrite group_create_eval by done.
  rewrite (group_key_ctx _ ctx) by done. fold k.
  cbn [uc_kv_store set_uc_kv_store kv_main]. by rewrite lookup_insert_eq.
Qed.

Lemma group_create_new_only_witness :
  let ctx := mk_ucmd_ctx "8_0" (mk_udevice UDEV_ACTION_ADD UDEV_DEVTYPE_DISK None None 8 0 7 0 None)
                         1 kv_store_empty CMD_SCAN_PHASE_A_SCAN_CURRENT in
  exists ctx',
    sid_ucmd_group_create (Some "dm_mpath"%string) (Some ctx) KV_NS_MODULE (Some "g"%string) 0
    = (0, Some ctx') /\
    sid_ucmd_group_create (Some "dm_mpath"%string) (Some ctx') KV_NS_MODULE (Some "g"%string) 0
    = (-1, Some ctx').
Proof.
  intros ctx. eexists.
  assert (H : sid_ucmd_group_create (Some "dm_mpath"%string) (Some ctx) KV_NS_MODULE
                (Some "g"%string) 0 = (0, Some _)) by (vm_compute; reflexivity).
  split; [exact H|].
  apply (group_create_new_only "dm_mpath"%string ctx _ KV_NS_MODULE "g" 0 0 H).
Defined.

Lemma append_length (a b : string) :
  String.length (a +:+ b) = (String.length a + String.length b)%nat.
Proof. induction a as [|c a IH]; [done|]. rewrite append_cons. simpl. by rewrite IH. Qed.

Lemma append_suffix_inj (a b x y : string) :
  String.length x = String.length y -> (a +:+ x = b +:+ y)%string -> x = y.
Proof.
  revert b. induction a as [|c a IH]; intros [|d b] Hlen Heq.
  - done.
  - exfalso. rewrite append_nil_l in Heq. rewrite Heq, append_length in Hlen. simpl in Hlen. lia.
  - exfalso. rewrite append_nil_l in Heq. rewrite <- Heq, append_length in Hlen.
    simpl in Hlen. lia.
  - rewrite !append_cons in Heq. injection Heq as _ Heq. by eapply IH.
Qed.

(** Two full keys with cores of one length that differ are different. *)
Lemma compose_key_core_neq a b :
  String.length (ks_core a) = String.length (ks_core b) ->
  ks_core a <> ks_core b ->
  _compose_key a <> _compose_key b.
Proof.
  intros Hlen Hne Heq. apply Hne. unfold _compose_key, _do_compose_key in Heq.
  cbv iota in Heq. rewrite <- !app_assoc_s in Heq.
  by eapply append_suffix_inj.
Qed.

(** With the [SET] operator a key in the domain [USR] is none without a
    domain. *)
Lemma compose_key_usr_neq a b :
  ks_op a = KV_OP_SET -> ks_op b = KV_OP_SET ->
  ks_dom a = KV_KEY_DOM_USER -> ks_dom b = ""%string ->
  _compose_key a <> _compose_key b.
Proof.
  intros Ha Hb Hda Hdb. unfold _compose_key. rewrite !do_compose_key_parts.
  rewrite Ha, Hb, Hda, Hdb. cbn [op_to_key_prefix_map]. unfold KV_KEY_DOM_USER.
  rewrite !append_cons, !append_nil_l. discriminate.
Qed.

Lemma reciprocal_key_core rel item k :
  reciprocal_key rel item = Some k ->
  exists spec, k = _compose_key spec /\ ks_core spec = ks_core rel /\
               ks_dom spec = ks_dom rel /\ ks_op spec = ks_op rel.
Proof.
  unfold reciprocal_key. destruct (_copy_ns_part_from_key item) as [nsp|]; [|done].
  intros [= <-]. by exists (set_ks_ns_part rel nsp).
Qed.

Lemma kv_delta_set_depth_unfold :
  _kv_delta_set kv_delta_set_depth
  = kv_delta_set_body (kv_delta_set_body (_kv_delta_set 0)).
Proof. done. Qed.

(** X22: what [sid_ucmd_group_add_current_dev] does and returns.  For
    arguments that pass the checks, when the delta call underneath returns
    0, the function itself returns [-1]; the member list under the group's
    key in the domain [USR] then holds the key prefix of the current device,
    and the record under the key without domain, the one that
    [sid_ucmd_group_create] writes, is as it was before. *)
Theorem group_add_current_dev (m : module) (ctx : sid_ucmd_ctx)
    (group_ns : sid_ucmd_kv_namespace_t) (group_id : string)
    (update_arg' : kv_update_arg) (s' : kv_store) :
  group_args_refused (Some m) (Some ctx) group_ns (Some group_id) = false ->
  group_member_delta_set (Some m) ctx group_ns group_id KV_OP_PLUS
  = Some (0, update_arg', s') ->
  sid_ucmd_group_add_current_dev (Some m) (Some ctx) group_ns (Some group_id)
  = Some (-1, Some (set_uc_kv_store ctx s')) /\
  record_holds (_compose_key_prefix (group_in_spec (Some m) ctx))
    (kv_store_get_value s'
       (_compose_key (group_members_spec (Some m) ctx group_ns group_id))) /\
  kv_store_get_value s' (group_key (Some m) ctx group_ns group_id)
  = kv_store_get_value (uc_kv_store ctx) (group_key (Some m) ctx group_ns group_id).
Proof.
  intros Hg Hset. split.
  { unfold sid_ucmd_group_add_current_dev, _handle_current_dev_for_group.
    rewrite Hg, Hset. done. }
  unfold group_member_delta_set in Hset. rewrite kv_delta_set_depth_unfold in Hset.
  cbn [rs_cur_key_spec rs_rel_key_spec] in Hset.
  match type of Hset with
  | kv_delta_set_body _ ?k ?v ?ua ?i ?s = _ =>
      pose proof (kv_delta_set_body_rel_store _ k v ua i s _ _ KV_OP_PLUS
                    (Z.lor DELTA_WITH_DIFF DELTA_WITH_REL) KV_OP_ILLEGAL 0
                    eq_refl eq_refl ltac:(discriminate) eq_refl eq_refl Hset) as Hstore
  end. clear Hset. rename Hstore into Hset.
  cbv zeta in Hset. cbn [ua_custom rs_cur_key_spec rs_rel_key_spec vv_data vv_header] in Hset.
  unfold kv_store_get_value. split.
  - rewrite Hset by (by eexists (group_members_spec (Some m) ctx group_ns group_id)).
    rewrite !apply_rel_items_other, lookup_insert_eq.
    + eexists. split; [done|]. cbn [vv_data]. apply final_items_plus_holds.
    + intros item _ Hk. apply reciprocal_key_core in Hk as (spec & Hk & _ & Hd & Hop).
      by eapply (compose_key_usr_neq (group_members_spec (Some m) ctx group_ns group_id) spec).
    + intros item _ Hk. apply reciprocal_key_core in Hk as (spec & Hk & _ & Hd & Hop).
      by eapply (compose_key_usr_neq (group_members_spec (Some m) ctx group_ns group_id) spec).
  - rewrite Hset by (by eexists (mk_key_spec KV_OP_SET "" group_ns _ group_id "" _)).
    rewrite !apply_rel_items_other, lookup_insert_ne; [done| | |].
    + by apply compose_key_usr_neq.
    + intros item _ Hk. apply reciprocal_key_core in Hk as (spec & Hk & Hc & _).
      revert Hk. unfold group_key. apply compose_key_core_neq; by rewrite Hc.
    + intros item _ Hk. apply reciprocal_key_core in Hk as (spec & Hk & Hc & _).
      revert Hk. unfold group_key. apply compose_key_core_neq; by rewrite Hc.
Qed.

Lemma group_add_current_dev_witness :
  let ctx := mk_ucmd_ctx "8_0" (mk_udevice UDEV_ACTION_ADD UDEV_DEVTYPE_DISK None None 8 0 7 0 None)
                         1 kv_store_empty CMD_SCAN_PHASE_A_SCAN_CURRENT in
  exists s',
    sid_ucmd_group_add_current_dev (Some "dm_mpath"%string) (Some ctx) KV_NS_MODULE
                                   (Some "g"%string)
    = Some (-1, Some (set_uc_kv_store ctx s')) /\
    record_holds "::D:8_0::"
      (kv_store_get_value s' " :USR:M:dm_mpath:g::#GMB") /\
    kv_store_get_value s' " ::M:dm_mpath:g::#GMB" = None.
Proof.
  intros ctx. eexists.
  eapply (group_add_current_dev "dm_mpath"%string ctx KV_NS_MODULE "g"); [reflexivity|].
  vm_compute. reflexivity.
Defined.

(** X23: what [sid_ucmd_group_destroy] leaves.  For a group whose record
    has no members, or with [force], when the delta call underneath returns
    0, the function returns 0 and the record stays in the store as a vector
    of the header alone without [KV_MOD_RESERVED]: a record that
    [_sync_main_kv_store] takes as a request to unset the key.  As long as
    it is there, [sid_ucmd_group_create] for the same group returns
    [-1]. *)
Theorem group_destroy_leaves_unset_request (sizeof_kv_value : nat) (m : module)
    (ctx : sid_ucmd_ctx) (group_ns : sid_ucmd_kv_namespace_t) (group_id : string)
    (force group_flags : Z) (found : kv_record) (update_arg' : kv_update_arg) (s' : kv_store) :
  group_args_refused (Some m) (Some ctx) group_ns (Some group_id) = false ->
  kv_store_get_value (uc_kv_store ctx) (group_key (Some m) ctx group_ns group_id)
  = Some found ->
  (Nat.ltb VVALUE_HEADER_CNT (kv_record_size sizeof_kv_value found) && (force =? 0)) = false ->
  group_destroy_delta_set (Some m) ctx group_ns group_id = Some (0, update_arg', s') ->
  let ctx' := set_uc_kv_store ctx s' in
  sid_ucmd_group_destroy sizeof_kv_value (Some m) (Some ctx) group_ns (Some group_id) force
  = Some (0, Some ctx') /\
  (exists left,
     kv_store_get_value s' (group_key (Some m) ctx group_ns group_id) = Some left /\
     vv_data (_get_vvalue left) = [] /\
     sync_unset left = true) /\
  sid_ucmd_group_create (Some m) (Some ctx') group_ns (Some group_id) group_flags
  = (-1, Some ctx').
Proof.
  intros Hg Hfound Hforce Hset ctx'. split.
  { unfold sid_ucmd_group_destroy. rewrite Hg, Hfound, Hforce, Hset. done. }
  unfold group_destroy_delta_set in Hset. rewrite kv_delta_set_depth_unfold in Hset.
  match type of Hset with
  | kv_delta_set_body _ ?k ?v ?ua ?i ?s = _ =>
      pose proof (kv_delta_set_body_rel_store _ k v ua i s _ _ KV_OP_SET
                    (Z.lor DELTA_WITH_DIFF DELTA_WITH_REL) KV_OP_ILLEGAL 0
                    eq_refl eq_refl ltac:(discriminate) eq_refl eq_refl Hset) as Hstore
  end. clear Hset. rename Hstore into Hset.
  cbv zeta in Hset. cbn [ua_custom rs_cur_key_spec rs_rel_key_spec vv_data vv_header] in Hset.
  assert (Hleft : kv_main s' !! group_key (Some m) ctx group_ns group_id
                  = Some (KV_VECTOR (mk_vvalue
                            (mk_vheader (uc_gennum ctx) (ud_seqnum (uc_udev ctx))
                                        kv_flags_sync_no_reserved core_owner) []))).
  { rewrite Hset by (by eexists (mk_key_spec KV_OP_SET "" group_ns _ group_id "" _)).
    rewrite !apply_rel_items_other, lookup_insert_eq.
    - by rewrite final_items_nil_r.
    - intros item _ Hk. apply reciprocal_key_core in Hk as (spec & Hk & Hc & _).
      revert Hk. unfold group_key. apply compose_key_core_neq; by rewrite Hc.
    - intros item _ Hk. apply reciprocal_key_core in Hk as (spec & Hk & Hc & _).
      revert Hk. unfold group_key. apply compose_key_core_neq; by rewrite Hc. }
  split.
  - eexists. split; [exact Hleft|]. done.
  - rewrite group_create_eval by done. subst ctx'.
    rewrite (group_key_ctx _ ctx) by done.
    cbn [uc_kv_store set_uc_kv_store]. by rewrite Hleft.
Qed.

Lemma group_destroy_leaves_unset_request_witness :
  let ctx0 := mk_ucmd_ctx "8_0" (mk_udevice UDEV_ACTION_ADD UDEV_DEVTYPE_DISK None None 8 0 7 0 None)
                          1 kv_store_empty CMD_SCAN_PHASE_A_SCAN_CURRENT in
  exists ctx s',
    sid_ucmd_group_create (Some "dm_mpath"%string) (Some ctx0) KV_NS_MODULE (Some "g"%string) 0
    = (0, Some ctx) /\
    sid_ucmd_group_destroy 18 (Some "dm_mpath"%string) (Some ctx) KV_NS_MODULE
                           (Some "g"%string) 0
    = Some (0, Some (set_uc_kv_store ctx s')) /\
    sid_ucmd_group_create (Some "dm_mpath"%string) (Some (set_uc_kv_store ctx s')) KV_NS_MODULE
                          (Some "g"%string) 0
    = (-1, Some (set_uc_kv_store ctx s')).
Proof.
  intros ctx0. eexists. eexists. split; [vm_compute; reflexivity|].
  match goal with
  | |- sid_ucmd_group_destroy _ _ (Some ?c) _ _ _ = _ /\ _ =>
      pose proof (group_destroy_leaves_unset_request 18 "dm_mpath"%string c KV_NS_MODULE "g" 0 0)
        as H
  end.
  edestruct H as (H1 & _ & H3); [reflexivity|vm_compute; reflexivity|reflexivity|
                                  vm_compute; reflexivity|].
  split; [exact H1|exact H3].
Defined.

(** ** The tokens of a string without quotes *)

Lemma in_str_nil c : in_str c "" = false.
Proof. done. Qed.

Lemma no_delim_next_cspn s delims :
  no_delim_next delims (string_drop (strcspn s delims) s) = false.
Proof.
  induction s as [|c s IH]; [done|]. cbn [strcspn].
  destruct (in_str c delims) eqn:E.
  - rewrite string_drop_0'. cbn [no_delim_next]. by rewrite E.
  - by rewrite string_drop_S.
Qed.

Lemma substring_0_S n c s :
  String.substring 0 (S n) (String c s) = String c (String.substring 0 n s).
Proof. done. Qed.

Lemma substring_0_length n s :
  (n <= String.length s)%nat -> String.length (String.substring 0 n s) = n.
Proof.
  revert n. induction s as [|c s IH]; intros [|n]; simpl; try lia.
  intros H. rewrite IH; lia.
Qed.

Lemma strcspn_le s reject : (strcspn s reject <= String.length s)%nat.
Proof. induction s as [|c s IH]; simpl; [lia|]. destruct (in_str c reject); lia. Qed.

Lemma copy_token_new token len strv l0 k s0 :
  strv = (Some <$> l0) ++ replicate (S k) None ->
  _copy_token_to_strv token len false (mk_strv_iter strv (length l0) s0)
  = (0, mk_strv_iter ((Some <$> (l0 ++ [String.substring 0 len token])) ++ replicate k None)
                     (length (l0 ++ [String.substring 0 len token])) (s0 + len + 1)).
Proof.
  intros ->. unfold _copy_token_to_strv. cbn [andb si_i si_s si_strv].
  f_equal. f_equal; [|rewrite length_app; simpl; lia].
  replace (length l0) with (length (Some <$> l0) + 0)%nat at 1 by (rewrite length_fmap; lia).
  rewrite insert_app_r. simpl. by rewrite fmap_app, <- (assoc_L (++)).
Qed.

(** Without quotes the copy pass writes the fields of the string into the
    free slots, when there is room for them. *)
Lemma copy_loop_fields delims n : forall str l0 k s0,
  (length (fields n str delims) <= k)%nat ->
  exists s1,
    iterate_tokens_loop _copy_token_to_strv n str delims "" false
      (mk_strv_iter ((Some <$> l0) ++ replicate k None) (length l0) s0)
    = (0, mk_strv_iter ((Some <$> (l0 ++ fields n str delims))
                          ++ replicate (k - length (fields n str delims)) None)
                       (length (l0 ++ fields n str delims)) s1).
Proof.
  induction n as [|n IH]; intros str l0 k s0 Hk.
  - cbn. exists s0. by rewrite app_nil_r, Nat.sub_0_r.
  - cbn [iterate_tokens_loop fields] in *.
    destruct (string_drop (strspn str delims) str) as [|c rest] eqn:Hdrop.
    { cbn. exists s0. by rewrite app_nil_r, Nat.sub_0_r. }
    rewrite in_str_nil, append_nil_l.
    set (str1 := String c rest) in *. set (len := strcspn str1 delims) in *.
    cbn [length] in Hk. destruct k as [|k]; [lia|].
    rewrite (copy_token_new str1 len _ l0 k s0 eq_refl).
    change (0 <? 0) with false. cbv iota.
    pose proof (no_delim_next_cspn str1 delims) as Hmb. fold len in Hmb. rewrite Hmb.
    destruct (IH (string_drop len str1) (l0 ++ [String.substring 0 len str1]) k
                 (s0 + len + 1)%nat) as [s1 Hrun]; [lia|].
    exists s1. rewrite Hrun. cbn [length Nat.sub]. by rewrite <- !(assoc_L (++)).
Qed.

Lemma count_loop_fields delims n : forall str counter,
  exists chars,
    iterate_tokens_loop _count_token n str delims "" false counter
    = (0, mk_token_counter (tc_tokens counter + length (fields n str delims)) chars).
Proof.
  induction n as [|n IH]; intros str counter.
  - cbn. exists (tc_chars counter). destruct counter. cbn. by rewrite Nat.add_0_r.
  - cbn [iterate_tokens_loop fields].
    destruct (string_drop (strspn str delims) str) as [|c rest] eqn:Hdrop.
    { cbn. exists (tc_chars counter). destruct counter. cbn. by rewrite Nat.add_0_r. }
    rewrite in_str_nil, append_nil_l. cbn [_count_token].
    change (0 <? 0) with false. cbv iota. rewrite no_delim_next_cspn.
    destruct (IH (string_drop (strcspn (String c rest) delims) (String c rest))
                 (mk_token_counter (S (tc_tokens counter))
                    (tc_chars counter + strcspn (String c rest) delims))) as [chars Hrun].
    exists chars. rewrite Hrun. cbn [tc_tokens length]. do 2 f_equal. lia.
Qed.

(** What the fields are. *)
Lemma strcspn_substring s delims :
  strcspn (String.substring 0 (strcspn s delims) s) delims = strcspn s delims.
Proof.
  induction s as [|c s IH]; [done|]. cbn [strcspn].
  destruct (in_str c delims) eqn:E; [done|].
  rewrite substring_0_S. cbn [strcspn]. by rewrite E, IH.
Qed.

Lemma fields_are_fields delims n : forall str, Forall (is_field delims) (fields n str delims).
Proof.
  induction n as [|n IH]; intros str; [constructor|]. cbn [fields].
  destruct (string_drop (strspn str delims) str) as [|c rest] eqn:Hdrop; [constructor|].
  constructor; [|apply IH].
  pose proof (strspn_drop_head _ _ _ _ Hdrop) as Hc.
  split.
  - cbn [strcspn]. rewrite Hc. by rewrite substring_0_S.
  - rewrite strcspn_substring. symmetry. apply substring_0_length, strcspn_le.
Qed.

Lemma strip_delims_span s delims :
  strip_delims s delims = strip_delims (string_drop (strspn s delims) s) delims.
Proof.
  induction s as [|c s IH]; [done|]. cbn [strspn strip_delims].
  destruct (in_str c delims) eqn:E.
  - by rewrite string_drop_S.
  - rewrite string_drop_0'. cbn [strip_delims]. by rewrite E.
Qed.

Lemma strip_delims_cspn s delims :
  strip_delims s delims
  = (String.substring 0 (strcspn s delims) s
     +:+ strip_delims (string_drop (strcspn s delims) s) delims)%string.
Proof.
  induction s as [|c s IH]; [done|]. cbn [strcspn strip_delims].
  destruct (in_str c delims) eqn:E.
  - rewrite string_drop_0'. cbn [strip_delims]. rewrite E.
    change (String.substring 0 0 (String c s)) with ""%string. by rewrite append_nil_l.
  - rewrite substring_0_S, string_drop_S, append_cons. by rewrite <- IH.
Qed.

Lemma fields_concat delims n : forall str,
  (String.length str <= n)%nat ->
  concat_strings (fields n str delims) = strip_delims str delims.
Proof.
  induction n as [|n IH]; intros str Hn.
  - by destruct str; [|simpl in Hn; lia].
  - cbn [fields]. rewrite (strip_delims_span str).
    pose proof (string_drop_length (strspn str delims) str) as Hlen.
    destruct (string_drop (strspn str delims) str) as [|c rest] eqn:Hdrop; [done|].
    pose proof (strspn_drop_head _ _ _ _ Hdrop) as Hc.
    rewrite (strip_delims_cspn (String c rest)).
    cbn [concat_strings foldr]. f_equal. apply IH.
    rewrite string_drop_length. cbn [strcspn]. rewrite Hc. cbn [String.length] in *. lia.
Qed.

(** X24: the tokens of a string without quotes.  With no prefix, no
    suffix and no quotes, as the module path is split, [util_str_comb_to_strv]
    returns the fields of the string and the closing NULL: every string of
    the vector is non-empty and holds no delimiter, and the strings one
    after the other are the argument without its delimiters. *)
Theorem util_str_comb_to_strv_fields (sizeof_char_p : nat) (str delims : string) :
  let l := fields (String.length str) str delims in
  util_str_comb_to_strv sizeof_char_p None None (Some str) None (Some delims) None
  = Some ((Some <$> l) ++ [None]) /\
  Forall (is_field delims) l /\
  concat_strings l = strip_delims str delims.
Proof.
  intros l. split; [|split; [apply fields_are_fields|by apply fields_concat]].
  unfold util_str_comb_to_strv, iterate_three, util_str_iterate_tokens.
  change (default ""%string (Some delims)) with delims.
  change (default ""%string None) with ""%string.
  change (0 <? 0) with false. cbv iota.
  destruct (count_loop_fields delims (String.length str) str (mk_token_counter 0 0))
    as [chars Hcount].
  rewrite Hcount. change (0 <? 0) with false. cbv iota. cbn [tc_tokens Nat.add]. fold l.
  destruct (copy_loop_fields delims (String.length str) str [] (length l + 1)
              (_get_strv_header_size sizeof_char_p (mk_token_counter (length l) chars)))
    as [s1 Hcopy]; [fold l; lia|].
  cbn [fmap list_fmap app length] in Hcopy. fold l in Hcopy. rewrite Hcopy.
  change (0 <? 0) with false. cbv iota. cbn [si_strv]. f_equal.
  replace (length l + 1 - length l)%nat with 1%nat by lia. cbn [replicate].
  replace (length l) with (length (Some <$> l) + 0)%nat at 1 by (rewrite length_fmap; lia).
  by rewrite insert_app_r.
Qed.

(** ** Records with an operator in the merge into the main store *)

(** X25: a record with an operator is merged without the checks of a
    [SET] record.  For a vector that arrives under a key with the [+] or
    [-] operator and is not an unset, [_sync_main_kv_store] stores under
    the key without the operator the final vector of the merge walk over
    the stored items and the incoming ones, with the incoming header,
    whatever the owner, the flags and the sequence number of the stored
    record are.  On sorted vectors the items are those of either vector for
    [+], and the stored ones that are not incoming for [-]. *)
Theorem sync_operator_record_merges (key : string) (v : vvalue) (op op0 : kv_op_t)
    (update_arg : kv_update_arg) (s : kv_store) :
  op = KV_OP_PLUS \/ op = KV_OP_MINUS ->
  _get_op_from_key key = op ->
  sync_unset (KV_VECTOR v) = false ->
  rs_delta (ua_custom update_arg) = mk_delta op0 DELTA_NO_FLAGS None None None ->
  let k := string_tail key in
  let old := delta_items (kv_store_get_vvalue s k) in
  exists update_arg',
    sync_one_record (mk_sync_record key (KV_VECTOR v)) update_arg s
    = Some (Some (update_arg',
                  mk_store (<[k := KV_VECTOR (mk_vvalue (vv_header v)
                                                (final_items op old (vv_data v)))]> (kv_main s))
                           (kv_alias s))) /\
    rs_delta (ua_custom update_arg') = mk_delta op DELTA_NO_FLAGS None None None /\
    (strict_sorted old -> strict_sorted (vv_data v) ->
     forall x, x ∈ final_items op old (vv_data v) <->
               match op with
               | KV_OP_PLUS => x ∈ old \/ x ∈ vv_data v
               | _ => x ∈ old /\ x ∉ vv_data v
               end).
Proof.
  intros Hop Hkey Hunset Hd k old.
  assert (Hlegal : op <> KV_OP_ILLEGAL) by (destruct Hop as [-> | ->]; done).
  unfold sync_one_record. cbn [sr_value sr_key]. rewrite Hunset, Hkey.
  assert (Hrun : forall ua,
    rs_delta (ua_custom ua) = mk_delta op DELTA_NO_FLAGS None None None ->
    exists ua',
      _kv_delta_set kv_delta_set_depth k v ua false s
      = Some (0, ua',
              mk_store (<[k := KV_VECTOR (mk_vvalue (vv_header v)
                                            (final_items op old (vv_data v)))]> (kv_main s))
                       (kv_alias s)) /\
      rs_delta (ua_custom ua') = mk_delta op DELTA_NO_FLAGS None None None).
  { intros ua Hua. change (_kv_delta_set kv_delta_set_depth)
      with (kv_delta_set_body (kv_delta_set_body (_kv_delta_set 0))).
    unfold kv_delta_set_body at 1.
    destruct (kv_store_set_value_delta_step s k v ua op DELTA_NO_FLAGS Hua Hlegal)
      as (-> & Hdop & Hdfl).
    cbn [ua_custom set_delta set_custom rs_delta]. rewrite Hdfl.
    assert (flag_test DELTA_NO_FLAGS (Z.lor DELTA_WITH_DIFF DELTA_WITH_REL) = false) as ->
      by done.
    eexists. split; [done|].
    cbn [ua_custom set_custom rs_delta]. unfold _destroy_delta_buffers, set_delta_bufs.
    by rewrite Hdop, Hdfl. }
  assert (Hmem : strict_sorted old -> strict_sorted (vv_data v) ->
     forall x, x ∈ final_items op old (vv_data v) <->
               match op with
               | KV_OP_PLUS => x ∈ old \/ x ∈ vv_data v
               | _ => x ∈ old /\ x ∉ vv_data v
               end).
  { intros Ho Hn x.
    pose proof (delta_final_elem op 0 (kv_store_get_vvalue s k) v x Hlegal Ho Hn) as H.
    rewrite delta_step_calc_legal in H by done. cbn [snd d_final delta_items vv_data] in H.
    fold old in H. unfold final_items. rewrite H. by destruct Hop as [-> | ->]. }
  destruct Hop as [-> | ->]; cbv zeta; cbv iota; fold k; cbn [_get_vvalue];
    match goal with
    | |- context [_kv_delta_set kv_delta_set_depth k v ?ua false s] =>
        destruct (Hrun ua) as (ua' & Hres & Hd');
          [cbn [ua_custom set_delta set_custom rs_delta]; by rewrite Hd|]
    end;
    exists ua'; rewrite Hres; done.
Qed.

Lemma sync_operator_record_merges_witness :
  let h := mk_vheader 1 7 0 "dm_mpath" in
  let s := mk_store {[ ":USR:G::g::#GMB"%string :=
                         KV_VECTOR (mk_vvalue (mk_vheader 1 9 KV_MOD_PRIVATE "lvm") ["a"]) ]} ∅ in
  exists update_arg',
    sync_one_record (mk_sync_record "+:USR:G::g::#GMB" (KV_VECTOR (mk_vvalue h ["b"])))
                    (mk_update_arg "" rel_spec_null 0) s
    = Some (Some (update_arg',
                  mk_store (<[":USR:G::g::#GMB"%string
                              := KV_VECTOR (mk_vvalue h ["a"; "b"])]> (kv_main s)) ∅)).
Proof.
  intros h s.
  destruct (sync_operator_record_merges "+:USR:G::g::#GMB" (mk_vvalue h ["b"]) KV_OP_PLUS
              KV_OP_ILLEGAL (mk_update_arg "" rel_spec_null 0) s
              (or_introl eq_refl) eq_refl eq_refl eq_refl) as (ua' & Hres & _).
  exists ua'. exact Hres.
Defined.
